(** * IdleGameEngine: the transactional runtime, the production pipeline
      and the tick simulation, embedded from the Python sources.

    Conventions of the embedding.
    - A Python [float] is an IEEE binary64 value: Rocq's primitive [float],
      with the kernel's operations (round to nearest even).  Numeric fields
      annotated [float] in the source are floats here, also where a test
      passes an [int] literal.
    - A Python [int] (element counts, prestige counters) is a [Z].
    - A [dict] keyed by strings is a [gmap string _]; [d[k]] on a missing key
      raises [KeyError], which is [None] in the option monad every operation
      of the runtime lives in.  The [milestones_reached] dict is kept as an
      association list in insertion order, because the simulation iterates
      over it to build its event log.
    - Callables stored in a definition are functions of the state: predicates
      and value functions are pure, [on_purchase], [on_trigger] and
      subsystems are state transformers.
    - Dataclass fields carry a prefix naming their class ([cs_current] is
      [CurrencyState.current]); functions and methods keep their names. *)

From Stdlib Require Import Floats ZArith.
From stdpp Require Import base option gmap strings list.

Local Open Scope Z_scope.

(** ** Float comparisons, as Python's operators on floats *)

Definition float_lt (x y : float) : bool := PrimFloat.ltb x y.
Definition float_le (x y : float) : bool := PrimFloat.leb x y.
Definition float_gt (x y : float) : bool := PrimFloat.ltb y x.
Definition float_ge (x y : float) : bool := PrimFloat.leb y x.
Definition float_eq (x y : float) : bool := PrimFloat.eqb x y.
Definition float_ne (x y : float) : bool := negb (PrimFloat.eqb x y).

(** [float(n)] for an int [n]: the nearest binary64 value.  (Python raises
    [OverflowError] from 2^1024 on, where this gives an infinity.) *)
Definition float_of_int (n : Z) : float :=
  SF2Prim (SpecFloat.binary_normalize prec emax n 0 false).

(** ** currency.py, element.py: the mutable state records *)

Record CurrencyState := mkCurrencyState {
  cs_current : float;
  cs_total_earned : float;
  cs_current_rate : float
}.

Record ElementState := mkElementState {
  es_count : Z;
  es_available : bool;
  es_affordable : bool;
  es_unlocked : bool
}.

(** ** state.py *)

Record GameState := mkGameState {
  time_elapsed : float;
  currencies : gmap string CurrencyState;
  elements : gmap string ElementState;
  milestones_reached : list (string * float);
  prestige_counts : gmap string Z;
  run_number : Z
}.

Definition currency_value (st : GameState) (id : string) : float :=
  match currencies st !! id with Some cs => cs_current cs | None => 0%float end.

Definition currency_rate (st : GameState) (id : string) : float :=
  match currencies st !! id with Some cs => cs_current_rate cs | None => 0%float end.

Definition element_count (st : GameState) (id : string) : Z :=
  match elements st !! id with Some es => es_count es | None => 0 end.

(** [id in d] and [d[k] = v] for the insertion-ordered milestone dict. *)
Fixpoint dict_mem {V} (k : string) (d : list (string * V)) : bool :=
  match d with
  | [] => false
  | (k', _) :: d' => if String.eqb k' k then true else dict_mem k d'
  end.

Fixpoint dict_get {V} (k : string) (d : list (string * V)) : option V :=
  match d with
  | [] => None
  | (k', v) :: d' => if String.eqb k' k then Some v else dict_get k d'
  end.

Fixpoint dict_set {V} (k : string) (v : V) (d : list (string * V)) : list (string * V) :=
  match d with
  | [] => [(k, v)]
  | (k', v') :: d' =>
      if String.eqb k' k then (k', v) :: d' else (k', v') :: dict_set k v d'
  end.

Definition has_milestone (st : GameState) (id : string) : bool :=
  dict_mem id (milestones_reached st).

Definition total_earned (st : GameState) (id : string) : float :=
  match currencies st !! id with Some cs => cs_total_earned cs | None => 0%float end.

(** Field updates ([cs.current = v] and the like on the object a dict holds). *)
Definition set_currencies (st : GameState) (c : gmap string CurrencyState) : GameState :=
  mkGameState (time_elapsed st) c (elements st) (milestones_reached st)
    (prestige_counts st) (run_number st).

Definition set_elements (st : GameState) (e : gmap string ElementState) : GameState :=
  mkGameState (time_elapsed st) (currencies st) e (milestones_reached st)
    (prestige_counts st) (run_number st).

Definition set_time_elapsed (st : GameState) (t : float) : GameState :=
  mkGameState t (currencies st) (elements st) (milestones_reached st)
    (prestige_counts st) (run_number st).

Definition set_milestones_reached (st : GameState) (m : list (string * float)) : GameState :=
  mkGameState (time_elapsed st) (currencies st) (elements st) m
    (prestige_counts st) (run_number st).

Definition set_prestige_counts (st : GameState) (p : gmap string Z) : GameState :=
  mkGameState (time_elapsed st) (currencies st) (elements st) (milestones_reached st)
    p (run_number st).

Definition set_run_number (st : GameState) (n : Z) : GameState :=
  mkGameState (time_elapsed st) (currencies st) (elements st) (milestones_reached st)
    (prestige_counts st) n.

Definition put_currency (st : GameState) (id : string) (cs : CurrencyState) : GameState :=
  set_currencies st (<[id := cs]> (currencies st)).

Definition put_element (st : GameState) (id : string) (es : ElementState) : GameState :=
  set_elements st (<[id := es]> (elements st)).

Definition with_current (cs : CurrencyState) (v : float) : CurrencyState :=
  mkCurrencyState v (cs_total_earned cs) (cs_current_rate cs).

Definition with_total_earned (cs : CurrencyState) (v : float) : CurrencyState :=
  mkCurrencyState (cs_current cs) v (cs_current_rate cs).

Definition with_current_rate (cs : CurrencyState) (v : float) : CurrencyState :=
  mkCurrencyState (cs_current cs) (cs_total_earned cs) v.

Definition with_count (es : ElementState) (n : Z) : ElementState :=
  mkElementState n (es_available es) (es_affordable es) (es_unlocked es).

Definition with_available (es : ElementState) (b : bool) : ElementState :=
  mkElementState (es_count es) b (es_affordable es) (es_unlocked es).

Definition with_affordable (es : ElementState) (b : bool) : ElementState :=
  mkElementState (es_count es) (es_available es) b (es_unlocked es).

Definition with_unlocked (es : ElementState) (b : bool) : ElementState :=
  mkElementState (es_count es) (es_available es) (es_affordable es) b.

(** A [for] loop whose body may raise: the state is threaded through the
    items in order and the first failure aborts the loop. *)
Fixpoint for_each {A S} (body : S → A → option S) (items : list A) (s : S) : option S :=
  match items with
  | [] => Some s
  | x :: rest => s' ← body s x; for_each body rest s'
  end.

(** ** _types.py *)

Inductive DynamicFloat :=
| Literal (v : float)
| Computed (fn : GameState → float).

Definition resolve_value (value : DynamicFloat) (st : GameState) : float :=
  match value with
  | Computed fn => fn st
  | Literal v => v
  end.

Definition resolve_optional (value : option DynamicFloat) (st : GameState) : option float :=
  match value with
  | None => None
  | Some v => Some (resolve_value v st)
  end.

(** The keys of [_OPS]; [compare] raises on any other string. *)
Inductive CmpOp := OpGe | OpLe | OpGt | OpLt | OpEq | OpNe.

Definition compare (left : float) (op : CmpOp) (right : float) : bool :=
  match op with
  | OpGe => float_ge left right
  | OpLe => float_le left right
  | OpGt => float_gt left right
  | OpLt => float_lt left right
  | OpEq => float_eq left right
  | OpNe => float_ne left right
  end.

(** [compare] on two ints (element counts against an int threshold). *)
Definition compare_int (left : Z) (op : CmpOp) (right : Z) : bool :=
  match op with
  | OpGe => right <=? left
  | OpLe => left <=? right
  | OpGt => right <? left
  | OpLt => left <? right
  | OpEq => left =? right
  | OpNe => negb (left =? right)
  end.

(** ** requirement.py *)

(** [EstimatedTimeRequirement] memoises one sample per instance; the leaf
    carries that sample. *)
#[warnings="-register-all"]
Inductive Requirement :=
| ResourceRequirement (currency_id : string) (op : CmpOp) (threshold : float)
| TotalEarnedRequirement (currency_id : string) (op : CmpOp) (threshold : float)
| OwnsRequirement (element_id : string)
| CountRequirement (element_id : string) (op : CmpOp) (threshold : Z)
| MilestoneRequirement (milestone_id : string)
| TimeRequirement (op : CmpOp) (seconds : float)
| AllRequirement (reqs : list Requirement)
| AnyRequirement (reqs : list Requirement)
| CustomRequirement (fn : GameState → bool)
| EstimatedTimeRequirement (sampled_time : float).

Fixpoint evaluate (r : Requirement) (st : GameState) : bool :=
  match r with
  | ResourceRequirement c op th => compare (currency_value st c) op th
  | TotalEarnedRequirement c op th => compare (total_earned st c) op th
  | OwnsRequirement e => 1 <=? element_count st e
  | CountRequirement e op th => compare_int (element_count st e) op th
  | MilestoneRequirement m => has_milestone st m
  | TimeRequirement op s => compare (time_elapsed st) op s
  | AllRequirement reqs => forallb (λ r', evaluate r' st) reqs
  | AnyRequirement reqs => existsb (λ r', evaluate r' st) reqs
  | CustomRequirement fn => fn st
  | EstimatedTimeRequirement t => float_ge (time_elapsed st) t
  end.

(** ** effect.py *)

Module EffectType.
Inductive t :=
| PRODUCTION_FLAT | PRODUCTION_ADD_PCT | PRODUCTION_MULT | GLOBAL_MULT
| CLICK_FLAT | CLICK_MULT | COST_MULT | CAP_FLAT | CAP_MULT
| AUTO_CLICK | GRANT | UNLOCK | CUSTOM.

Definition eqb (a b : t) : bool :=
  match a, b with
  | PRODUCTION_FLAT, PRODUCTION_FLAT | PRODUCTION_ADD_PCT, PRODUCTION_ADD_PCT
  | PRODUCTION_MULT, PRODUCTION_MULT | GLOBAL_MULT, GLOBAL_MULT
  | CLICK_FLAT, CLICK_FLAT | CLICK_MULT, CLICK_MULT | COST_MULT, COST_MULT
  | CAP_FLAT, CAP_FLAT | CAP_MULT, CAP_MULT | AUTO_CLICK, AUTO_CLICK
  | GRANT, GRANT | UNLOCK, UNLOCK | CUSTOM, CUSTOM => true
  | _, _ => false
  end.
End EffectType.

Module EffectPhase.
Inductive t :=
| BASE | BONUS_ADD | BONUS_MULT | GLOBAL | CLICK | COST | CAP | AUTO
| IMMEDIATE | CUSTOM.

Definition eqb (a b : t) : bool :=
  match a, b with
  | BASE, BASE | BONUS_ADD, BONUS_ADD | BONUS_MULT, BONUS_MULT
  | GLOBAL, GLOBAL | CLICK, CLICK | COST, COST | CAP, CAP | AUTO, AUTO
  | IMMEDIATE, IMMEDIATE | CUSTOM, CUSTOM => true
  | _, _ => false
  end.
End EffectPhase.

Definition DEFAULT_PHASE (ty : EffectType.t) : EffectPhase.t :=
  match ty with
  | EffectType.PRODUCTION_FLAT => EffectPhase.BASE
  | EffectType.PRODUCTION_ADD_PCT => EffectPhase.BONUS_ADD
  | EffectType.PRODUCTION_MULT => EffectPhase.BONUS_MULT
  | EffectType.GLOBAL_MULT => EffectPhase.GLOBAL
  | EffectType.CLICK_FLAT => EffectPhase.CLICK
  | EffectType.CLICK_MULT => EffectPhase.CLICK
  | EffectType.COST_MULT => EffectPhase.COST
  | EffectType.CAP_FLAT => EffectPhase.CAP
  | EffectType.CAP_MULT => EffectPhase.CAP
  | EffectType.AUTO_CLICK => EffectPhase.AUTO
  | EffectType.GRANT => EffectPhase.IMMEDIATE
  | EffectType.UNLOCK => EffectPhase.IMMEDIATE
  | EffectType.CUSTOM => EffectPhase.CUSTOM
  end.

(** The five dataclass fields, and the two attributes [validate] reads with
    [getattr(eff, "_created_by", None)] and [getattr(eff, "_per_unit_value",
    None)]: they are no dataclass fields, so an [EffectDef] has them only if
    somebody assigned them; [None] is the unset attribute. *)
Record EffectDef := mkEffectDef {
  eff_type : EffectType.t;
  eff_target : string;
  eff_value : DynamicFloat;
  eff_condition : option Requirement;
  eff_phase : EffectPhase.t;
  eff_created_by : option string;
  eff_per_unit_value : option float
}.

(** [EffectDef(type=…, target=…, value=…, condition=…, phase=…)] with
    [__post_init__]. *)
Definition EffectDef_init (type : EffectType.t) (target : string) (value : DynamicFloat)
    (condition : option Requirement) (phase : option EffectPhase.t) : EffectDef :=
  mkEffectDef type target value condition
    (match phase with Some p => p | None => DEFAULT_PHASE type end)
    None None.

Definition resolve (eff : EffectDef) (st : GameState) : float :=
  resolve_value (eff_value eff) st.

Definition is_active (eff : EffectDef) (st : GameState) : bool :=
  match eff_condition eff with
  | None => true
  | Some c => evaluate c st
  end.

Module Effect.
Definition per_count (element : string) (type : EffectType.t) (target : string)
    (per_unit : float) (condition : option Requirement) : EffectDef :=
  let _value := λ st : GameState, (float_of_int (element_count st element) * per_unit)%float in
  EffectDef_init type target (Computed _value) condition None.

Definition static (type : EffectType.t) (target : string) (value : float)
    (condition : option Requirement) : EffectDef :=
  EffectDef_init type target (Literal value) condition None.

Definition synergy (source : string) (type : EffectType.t) (target : string)
    (per_unit : float) (condition : option Requirement) : EffectDef :=
  let _value := λ st : GameState, (float_of_int (element_count st source) * per_unit)%float in
  EffectDef_init type target (Computed _value) condition None.
End Effect.

(** ** cost_scaling.py *)

Record CostScaling := mkCostScaling {
  compute : gmap string float → Z → gmap string float
}.

Definition CostScaling_fixed : CostScaling := mkCostScaling (λ base _count, base).

Definition CostScaling_linear (increment_pct : float) : CostScaling :=
  mkCostScaling (λ base count,
    let mult := (1 + increment_pct * float_of_int count)%float in
    (λ v, (v * mult)%float) <$> base).

Definition CostScaling_custom (fn : gmap string float → Z → gmap string float) : CostScaling :=
  mkCostScaling fn.

(** ** element.py, currency.py, milestone.py, prestige.py: definitions *)

Record ElementDef := mkElementDef {
  ed_id : string;
  ed_display_name : string;
  ed_base_cost : gmap string float;
  ed_cost_scaling : CostScaling;
  ed_max_count : option Z;
  ed_effects : list EffectDef;
  ed_requirements : list Requirement;
  ed_purchase_requirements : list Requirement;
  ed_on_purchase : option (GameState → GameState);
  ed_tags : gset string;
  ed_category : string
}.

Record ElementStatus := mkElementStatus {
  status_id : string;
  status_display_name : string;
  status_count : Z;
  status_available : bool;
  status_affordable : bool;
  status_current_cost : gmap string float;
  status_max_count : option Z;
  status_category : string;
  status_tags : gset string
}.

Record CurrencyDef := mkCurrencyDef {
  cd_id : string;
  cd_display_name : string;
  cd_initial_value : float;
  cd_cap : option DynamicFloat;
  cd_persistent : bool;
  cd_hidden_until : option Requirement
}.

Record MilestoneDef := mkMilestoneDef {
  md_id : string;
  md_description : string;
  md_trigger : option Requirement;
  md_on_trigger : option (GameState → GameState)
}.

(** [currencies_reset] and [elements_reset] are [list[str] | str]. *)
Inductive ResetSpec :=
| ResetList (ids : list string)
| ResetStr (s : string).

Record PrestigeLayerDef := mkPrestigeLayerDef {
  pl_id : string;
  pl_prestige_currency : string;
  pl_reward_formula : option (GameState → float);
  pl_currencies_reset : ResetSpec;
  pl_elements_reset : ResetSpec;
  pl_requirements : list Requirement;
  pl_minimum_reward : float
}.

(** The [reason] of a result: the empty default, the three fixed messages,
    and the message formatted from the reward and the minimum. *)
Inductive PrestigeReason :=
| NoReason
| UnknownPrestigeLayer
| RequirementsNotMet
| NoRewardFormula
| RewardBelowMinimum (reward minimum : float).

(** The reason as the string the source builds; [fmt2] is the [:.2f]
    formatting of a float. *)
Definition reason_string (fmt2 : float → string) (r : PrestigeReason) : string :=
  match r with
  | NoReason => ""
  | UnknownPrestigeLayer => "Unknown prestige layer"
  | RequirementsNotMet => "Requirements not met"
  | NoRewardFormula => "No reward formula"
  | RewardBelowMinimum reward minimum =>
      "Reward " +:+ fmt2 reward +:+ " below minimum " +:+ fmt2 minimum
  end.

Record PrestigeResult := mkPrestigeResult {
  success : bool;
  reward_amount : float;
  currencies_reset : list string;
  elements_reset : list string;
  reason : PrestigeReason
}.

(** ** definition.py *)

Record ClickTarget := mkClickTarget {
  ct_currency : string;
  ct_base_value : float
}.

Record GameDefinition := mkGameDefinition {
  gd_currencies : list CurrencyDef;
  gd_elements : list ElementDef;
  gd_milestones : list MilestoneDef;
  gd_prestige_layers : list PrestigeLayerDef;
  gd_click_targets : list ClickTarget
}.

(** [{x.id: x for x in xs}.get(id)]: with a repeated id the last entry wins. *)
Definition by_id {A} (key : A → string) (xs : list A) (id : string) : option A :=
  foldl (λ m x, <[key x := x]> m) (∅ : gmap string A) xs !! id.

Definition get_currency (d : GameDefinition) (id : string) : option CurrencyDef :=
  by_id cd_id (gd_currencies d) id.

Definition get_element (d : GameDefinition) (id : string) : option ElementDef :=
  by_id ed_id (gd_elements d) id.

Definition get_milestone (d : GameDefinition) (id : string) : option MilestoneDef :=
  by_id md_id (gd_milestones d) id.

Definition get_prestige_layer (d : GameDefinition) (id : string) : option PrestigeLayerDef :=
  by_id pl_id (gd_prestige_layers d) id.

Definition get_click_target (d : GameDefinition) (currency : string) : option ClickTarget :=
  by_id ct_currency (gd_click_targets d) currency.

(** [validate]: the error messages, by kind and arguments, and the warning
    [warnings.warn] is called with. *)
Inductive ValidationError :=
| DuplicateCurrencyID (id : string)
| DuplicateElementID (id : string)
| DuplicateMilestoneID (id : string)
| UnknownCostCurrency (element cur_id : string)
| EffectTargetsUnknownCurrency (element target : string)
| EffectTargetsUnknownElement (element target : string)
| ClickTargetUnknownCurrency (currency : string)
| PrestigeUnknownCurrency (layer currency : string)
| PrestigeResetsUnknownCurrency (layer cid : string)
| PrestigeResetsUnknownElement (layer eid : string).

(** The per_count warning: the element, the effect type and target, and
    [2 * per_unit] when [_per_unit_value] is set (the text prints "?"
    otherwise). *)
Record PerCountWarning := mkPerCountWarning {
  w_element : string;
  w_type : EffectType.t;
  w_target : string;
  w_val_at_2 : option float
}.

Definition duplicate_ids {E} (mk : string → E) (ids : list string) : list E :=
  (foldl (λ '(seen, errs) id,
       (({[id]} ∪ seen : gset string),
        if bool_decide (id ∈ seen) then errs ++ [mk id] else errs))
     (∅, []) ids).2.

Definition effect_target_errors (currency_ids element_ids : gset string)
    (e : ElementDef) (eff : EffectDef) : list ValidationError :=
  match eff_type eff with
  | EffectType.PRODUCTION_FLAT | EffectType.PRODUCTION_ADD_PCT
  | EffectType.PRODUCTION_MULT | EffectType.CLICK_FLAT | EffectType.CLICK_MULT
  | EffectType.CAP_FLAT | EffectType.CAP_MULT | EffectType.AUTO_CLICK
  | EffectType.GRANT =>
      if bool_decide (eff_target eff ∉ currency_ids)
      then [EffectTargetsUnknownCurrency (ed_id e) (eff_target eff)] else []
  | EffectType.COST_MULT | EffectType.UNLOCK =>
      if bool_decide (eff_target eff ∉ element_ids)
      then [EffectTargetsUnknownElement (ed_id e) (eff_target eff)] else []
  | _ => []
  end.

Definition prestige_errors (currency_ids element_ids : gset string)
    (p : PrestigeLayerDef) : list ValidationError :=
  (if bool_decide (pl_prestige_currency p ∉ currency_ids)
   then [PrestigeUnknownCurrency (pl_id p) (pl_prestige_currency p)] else [])
  ++ match pl_currencies_reset p with
     | ResetList l =>
         flat_map (λ cid, if bool_decide (cid ∉ currency_ids)
                          then [PrestigeResetsUnknownCurrency (pl_id p) cid] else []) l
     | ResetStr _ => []
     end
  ++ match pl_elements_reset p with
     | ResetList l =>
         flat_map (λ eid, if bool_decide (eid ∉ element_ids)
                          then [PrestigeResetsUnknownElement (pl_id p) eid] else []) l
     | ResetStr _ => []
     end.

(** The last loop of [validate]: one warning per effect that carries the
    marker [_created_by == "per_count"] and has a multiplicative type. *)
Definition per_count_warnings (e : ElementDef) : list PerCountWarning :=
  flat_map (λ eff,
    if bool_decide (eff_created_by eff = Some "per_count")
       && (EffectType.eqb (eff_type eff) EffectType.PRODUCTION_MULT
           || EffectType.eqb (eff_type eff) EffectType.GLOBAL_MULT)
    then [mkPerCountWarning (ed_id e) (eff_type eff) (eff_target eff)
            ((λ per_unit, (2 * per_unit)%float) <$> eff_per_unit_value eff)]
    else []) (ed_effects e).

(** [validate] returns its list of errors; the second component is the list
    of warnings it emitted on the way. *)
Definition validate (d : GameDefinition) : list ValidationError * list PerCountWarning :=
  let currency_ids : gset string := list_to_set (cd_id <$> gd_currencies d) in
  let element_ids : gset string := list_to_set (ed_id <$> gd_elements d) in
  let errors :=
    duplicate_ids DuplicateCurrencyID (cd_id <$> gd_currencies d)
    ++ duplicate_ids DuplicateElementID (ed_id <$> gd_elements d)
    ++ duplicate_ids DuplicateMilestoneID (md_id <$> gd_milestones d)
    ++ flat_map (λ e,
         flat_map (λ cur_id, if bool_decide (cur_id ∉ currency_ids)
                             then [UnknownCostCurrency (ed_id e) cur_id] else [])
           (map_to_list (ed_base_cost e)).*1) (gd_elements d)
    ++ flat_map (λ e,
         flat_map (effect_target_errors currency_ids element_ids e) (ed_effects e))
         (gd_elements d)
    ++ flat_map (λ ct, if bool_decide (ct_currency ct ∉ currency_ids)
                       then [ClickTargetUnknownCurrency (ct_currency ct)] else [])
         (gd_click_targets d)
    ++ flat_map (prestige_errors currency_ids element_ids) (gd_prestige_layers d) in
  (errors, flat_map per_count_warnings (gd_elements d)).

(** ** pipeline.py *)

Definition PipelineFn : Type := string → list (EffectType.t * float) → GameState → float.

Record ProductionPipeline := mkProductionPipeline {
  _custom : gmap string PipelineFn
}.

Definition ProductionPipeline_init : ProductionPipeline := mkProductionPipeline ∅.

Definition set_custom (p : ProductionPipeline) (currency_id : string) (fn : PipelineFn)
    : ProductionPipeline :=
  mkProductionPipeline (<[currency_id := fn]> (_custom p)).

(** The four accumulators of [compute_rate]'s loop. *)
Record RateAcc := mkRateAcc {
  flat_sum : float;
  add_pct : float;
  mult : float;
  global_mult : float
}.

Definition rate_step (acc : RateAcc) (e : EffectType.t * float) : RateAcc :=
  let '(etype, val) := e in
  match etype with
  | EffectType.PRODUCTION_FLAT =>
      mkRateAcc (flat_sum acc + val) (add_pct acc) (mult acc) (global_mult acc)
  | EffectType.PRODUCTION_ADD_PCT =>
      mkRateAcc (flat_sum acc) (add_pct acc + val) (mult acc) (global_mult acc)
  | EffectType.PRODUCTION_MULT =>
      mkRateAcc (flat_sum acc) (add_pct acc) (mult acc * val) (global_mult acc)
  | EffectType.GLOBAL_MULT =>
      mkRateAcc (flat_sum acc) (add_pct acc) (mult acc) (global_mult acc * val)
  | _ => acc
  end.

Definition compute_rate (p : ProductionPipeline) (currency_id : string)
    (effects : list (EffectType.t * float)) (st : GameState) : float :=
  match _custom p !! currency_id with
  | Some fn => fn currency_id effects st
  | None =>
      let acc := foldl rate_step (mkRateAcc 0 0 1 1) effects in
      (flat_sum acc * (1 + add_pct acc) * mult acc * global_mult acc)%float
  end.

Definition click_step (acc : float * float) (e : EffectType.t * float) : float * float :=
  let '(flat_sum, click_mult) := acc in
  let '(etype, val) := e in
  match etype with
  | EffectType.CLICK_FLAT => ((flat_sum + val)%float, click_mult)
  | EffectType.CLICK_MULT => (flat_sum, (click_mult * val)%float)
  | _ => acc
  end.

Definition compute_click_value (p : ProductionPipeline) (currency_id : string)
    (base_value : float) (effects : list (EffectType.t * float)) (st : GameState) : float :=
  let '(flat_sum, click_mult) := foldl click_step (base_value, 1%float) effects in
  (flat_sum * click_mult)%float.

(** ** runtime.py *)

Definition Subsystem : Type := GameState → float → GameState.

Record GameRuntime := mkGameRuntime {
  definition : GameDefinition;
  state : GameState;
  pipeline : ProductionPipeline;
  _dirty : bool;
  _subsystems : list Subsystem
}.

Definition with_state (rt : GameRuntime) (st : GameState) : GameRuntime :=
  mkGameRuntime (definition rt) st (pipeline rt) (_dirty rt) (_subsystems rt).

Definition with_dirty (rt : GameRuntime) (b : bool) : GameRuntime :=
  mkGameRuntime (definition rt) (state rt) (pipeline rt) b (_subsystems rt).

(** [GameState(definition)] *)
Definition GameState_init (d : GameDefinition) : GameState :=
  mkGameState 0
    (foldl (λ m cdef,
       <[cd_id cdef := mkCurrencyState (cd_initial_value cdef) (cd_initial_value cdef) 0]> m)
       ∅ (gd_currencies d))
    (foldl (λ m edef, <[ed_id edef := mkElementState 0 false false false]> m)
       ∅ (gd_elements d))
    []
    (foldl (λ m player, <[pl_id player := 0]> m) ∅ (gd_prestige_layers d))
    1.

(** The owned elements' effects, in definition order: the shared shape of
    the loops [for edef in elements: es = state.elements[edef.id]; if
    es.count <= 0: continue; for eff in edef.effects: …].  The lookup raises
    on an element the state does not hold. *)
Definition owned_effects (d : GameDefinition) (st : GameState) : option (list EffectDef) :=
  for_each (λ acc edef,
      es ← elements st !! ed_id edef;
      Some (if es_count es <=? 0 then acc else acc ++ ed_effects edef))
    (gd_elements d) [].

Definition _apply_cost_effects (d : GameDefinition) (st : GameState)
    (element_id : string) (cost : gmap string float) : option (gmap string float) :=
  effs ← owned_effects d st;
  let total_mult :=
    foldl (λ total_mult eff,
        if EffectType.eqb (eff_type eff) EffectType.COST_MULT
           && String.eqb (eff_target eff) element_id
        then (if is_active eff st then (total_mult * resolve eff st)%float else total_mult)
        else total_mult)
      1%float effs in
  Some (if float_ne total_mult 1
        then (λ v, (v * total_mult)%float) <$> cost
        else cost).

Definition _resolve_cap (d : GameDefinition) (st : GameState) (currency_id : string)
    : option (option float) :=
  match get_currency d currency_id with
  | None => Some None
  | Some cdef =>
      match resolve_optional (cd_cap cdef) st with
      | None => Some None
      | Some base_cap =>
          effs ← owned_effects d st;
          let '(cap_flat, cap_mult) :=
            foldl (λ '(cap_flat, cap_mult) eff,
                if negb (String.eqb (eff_target eff) currency_id) then (cap_flat, cap_mult)
                else if negb (is_active eff st) then (cap_flat, cap_mult)
                else match eff_type eff with
                     | EffectType.CAP_FLAT => ((cap_flat + resolve eff st)%float, cap_mult)
                     | EffectType.CAP_MULT => (cap_flat, (cap_mult * resolve eff st)%float)
                     | _ => (cap_flat, cap_mult)
                     end)
              (0%float, 1%float) effs in
          Some (Some ((base_cap + cap_flat) * cap_mult)%float)
      end
  end.

(** [current > cap] clamps; no cap leaves the balance alone. *)
Definition clamp_to_cap (cap : option float) (cs : CurrencyState) : CurrencyState :=
  match cap with
  | Some c => if float_gt (cs_current cs) c then with_current cs c else cs
  | None => cs
  end.

(** The gathering loop of [_recompute_rates]: the global list and the
    per-currency lists of (type, resolved value) pairs. *)
Definition gather_step (st : GameState)
    (acc : list (EffectType.t * float) * gmap string (list (EffectType.t * float)))
    (eff : EffectDef)
    : list (EffectType.t * float) * gmap string (list (EffectType.t * float)) :=
  let '(global_effects, per_currency) := acc in
  if EffectPhase.eqb (eff_phase eff) EffectPhase.IMMEDIATE
     || EffectPhase.eqb (eff_phase eff) EffectPhase.COST
  then acc
  else if negb (is_active eff st) then acc
  else
    let pair := (eff_type eff, resolve eff st) in
    if EffectType.eqb (eff_type eff) EffectType.GLOBAL_MULT
    then (global_effects ++ [pair], per_currency)
    else match per_currency !! eff_target eff with
         | Some l => (global_effects, <[eff_target eff := l ++ [pair]]> per_currency)
         | None => acc
         end.

Definition _recompute_rates (rt : GameRuntime) : option GameRuntime :=
  let d := definition rt in
  let st := state rt in
  effs ← owned_effects d st;
  let per_currency0 : gmap string (list (EffectType.t * float)) :=
    foldl (λ m cdef, <[cd_id cdef := []]> m) ∅ (gd_currencies d) in
  let '(global_effects, per_currency) := foldl (gather_step st) ([], per_currency0) effs in
  st' ← for_each (λ st cdef,
      l ← per_currency !! cd_id cdef;
      let effects := l ++ global_effects in
      let rate := compute_rate (pipeline rt) (cd_id cdef) effects st in
      cs ← currencies st !! cd_id cdef;
      Some (put_currency st (cd_id cdef) (with_current_rate cs rate)))
    (gd_currencies d) st;
  Some (with_state rt st').

Definition _update_element_statuses (d : GameDefinition) (st : GameState) : option GameState :=
  for_each (λ st edef,
      es ← elements st !! ed_id edef;
      let available :=
        if negb (es_unlocked es)
        then match ed_requirements edef with
             | [] => true
             | reqs => forallb (λ r, evaluate r st) reqs
             end
        else true in
      let es := with_available es available in
      let st := put_element st (ed_id edef) es in
      if available
         && match ed_max_count edef with
            | None => true
            | Some max_count => es_count es <? max_count
            end
      then
        let cost := compute (ed_cost_scaling edef) (ed_base_cost edef) (es_count es) in
        cost ← _apply_cost_effects d st (ed_id edef) cost;
        let affordable :=
          forallb (λ '(cid, amt), float_ge (currency_value st cid) amt) (map_to_list cost) in
        Some (put_element st (ed_id edef) (with_affordable es affordable))
      else Some (put_element st (ed_id edef) (with_affordable es false)))
    (gd_elements d) st.

(** The body of the loop of [_check_milestones]. *)
Definition check_milestone (st : GameState) (mdef : MilestoneDef) : GameState :=
  if dict_mem (md_id mdef) (milestones_reached st) then st
  else match md_trigger mdef with
       | Some trigger =>
           if evaluate trigger st then
             let st :=
               set_milestones_reached st
                 (dict_set (md_id mdef) (time_elapsed st) (milestones_reached st)) in
             match md_on_trigger mdef with
             | Some on_trigger => on_trigger st
             | None => st
             end
           else st
       | None => st
       end.

Definition _check_milestones (d : GameDefinition) (st : GameState) : GameState :=
  foldl check_milestone st (gd_milestones d).

Definition _apply_immediate_effect (st : GameState) (eff : EffectDef) : GameState :=
  match eff_type eff with
  | EffectType.GRANT =>
      match currencies st !! eff_target eff with
      | Some cs =>
          let amount := resolve eff st in
          let cs := with_current cs (cs_current cs + amount) in
          let cs := if float_gt amount 0
                    then with_total_earned cs (cs_total_earned cs + amount) else cs in
          put_currency st (eff_target eff) cs
      | None => st
      end
  | EffectType.UNLOCK =>
      match elements st !! eff_target eff with
      | Some es => put_element st (eff_target eff) (with_available (with_unlocked es true) true)
      | None => st
      end
  | _ => st
  end.

Definition _process_auto_clicks (d : GameDefinition) (st : GameState) (delta : float)
    : option GameState :=
  for_each (λ st edef,
      es ← elements st !! ed_id edef;
      if es_count es <=? 0 then Some st
      else Some (foldl (λ st eff,
          if negb (EffectType.eqb (eff_type eff) EffectType.AUTO_CLICK) then st
          else if negb (is_active eff st) then st
          else
            let clicks_per_sec := resolve eff st in
            let total_clicks := (clicks_per_sec * delta)%float in
            match get_click_target d (eff_target eff) with
            | Some ct =>
                let value := (ct_base_value ct * total_clicks)%float in
                match currencies st !! eff_target eff with
                | Some cs =>
                    put_currency st (eff_target eff)
                      (with_total_earned (with_current cs (cs_current cs + value))
                         (cs_total_earned cs + value))
                | None => st
                end
            | None => st
            end)
        st (ed_effects edef)))
    (gd_elements d) st.

(** The production loop of [tick]. *)
Definition apply_production (d : GameDefinition) (st : GameState) (delta : float)
    : option GameState :=
  for_each (λ st cdef,
      cs ← currencies st !! cd_id cdef;
      if float_ne (cs_current_rate cs) 0 then
        let earned := (cs_current_rate cs * delta)%float in
        let cs := with_current cs (cs_current cs + earned) in
        let cs := if float_gt earned 0
                  then with_total_earned cs (cs_total_earned cs + earned) else cs in
        let st := put_currency st (cd_id cdef) cs in
        cap ← _resolve_cap d st (cd_id cdef);
        Some (put_currency st (cd_id cdef) (clamp_to_cap cap cs))
      else Some st)
    (gd_currencies d) st.

Definition tick (rt : GameRuntime) (delta : float) : option GameRuntime :=
  rt ← (if _dirty rt then rt' ← _recompute_rates rt; Some (with_dirty rt' false)
        else Some rt);
  let d := definition rt in
  st ← apply_production d (state rt) delta;
  st ← _process_auto_clicks d st delta;
  let st := set_time_elapsed st (time_elapsed st + delta) in
  st ← _update_element_statuses d st;
  let st := _check_milestones d st in
  let st := foldl (λ st sub, sub st delta) st (_subsystems rt) in
  Some (with_state rt st).

(** [GameRuntime(definition)]: raises [ValueError] on a definition with
    validation errors. *)
Definition GameRuntime_init (d : GameDefinition) : option GameRuntime :=
  match (validate d).1 with
  | [] =>
      st ← _update_element_statuses d (GameState_init d);
      Some (mkGameRuntime d st ProductionPipeline_init true [])
  | _ :: _ => None
  end.

(** The deduction loop of [try_purchase]:
    [self.state.currencies[cur_id].current -= amount]. *)
Definition deduct_costs (st : GameState) (cost : gmap string float) : option GameState :=
  for_each (λ st '(cur_id, amount),
      cs ← currencies st !! cur_id;
      Some (put_currency st cur_id (with_current cs (cs_current cs - amount))))
    (map_to_list cost) st.

Definition apply_immediate_effects (st : GameState) (effs : list EffectDef) : GameState :=
  foldl (λ st eff,
      if EffectPhase.eqb (eff_phase eff) EffectPhase.IMMEDIATE
      then _apply_immediate_effect st eff else st)
    st effs.

Definition try_purchase (rt : GameRuntime) (element_id : string)
    : option (bool * GameRuntime) :=
  let d := definition rt in
  let st := state rt in
  match get_element d element_id with
  | None => Some (false, rt)
  | Some edef =>
      es ← elements st !! element_id;
      if match ed_max_count edef with
         | Some max_count => max_count <=? es_count es
         | None => false
         end
      then Some (false, rt)
      else if negb (es_available es) && negb (es_unlocked es) then Some (false, rt)
      else if negb (forallb (λ req, evaluate req st) (ed_purchase_requirements edef))
      then Some (false, rt)
      else
        let cost := compute (ed_cost_scaling edef) (ed_base_cost edef) (es_count es) in
        cost ← _apply_cost_effects d st element_id cost;
        if negb (forallb (λ '(cur_id, amount), negb (float_lt (currency_value st cur_id) amount))
                   (map_to_list cost))
        then Some (false, rt)
        else
          st ← deduct_costs st cost;
          let st := put_element st element_id (with_count es (es_count es + 1)) in
          let st := apply_immediate_effects st (ed_effects edef) in
          let st := match ed_on_purchase edef with
                    | Some on_purchase => on_purchase st
                    | None => st
                    end in
          st ← _update_element_statuses d st;
          Some (true, mkGameRuntime d st (pipeline rt) true (_subsystems rt))
  end.

(** The click effects [process_click] collects. *)
Definition click_effects (st : GameState) (target_currency : string) (effs : list EffectDef)
    : list (EffectType.t * float) :=
  flat_map (λ eff,
      if (EffectType.eqb (eff_type eff) EffectType.CLICK_FLAT
          || EffectType.eqb (eff_type eff) EffectType.CLICK_MULT)
         && (String.eqb (eff_target eff) target_currency && is_active eff st)
      then [(eff_type eff, resolve eff st)] else [])
    effs.

Definition process_click (rt : GameRuntime) (target_currency : string)
    : option (float * GameRuntime) :=
  let d := definition rt in
  let st := state rt in
  match get_click_target d target_currency with
  | None => Some (0%float, rt)
  | Some ct =>
      effs ← owned_effects d st;
      let value :=
        compute_click_value (pipeline rt) target_currency (ct_base_value ct)
          (click_effects st target_currency effs) st in
      cs ← currencies st !! target_currency;
      let cs := with_total_earned (with_current cs (cs_current cs + value))
                  (cs_total_earned cs + value) in
      let st := put_currency st target_currency cs in
      cap ← _resolve_cap d st target_currency;
      Some (value, with_state rt (put_currency st target_currency (clamp_to_cap cap cs)))
  end.

Definition _resolve_reset_list (d : GameDefinition) (spec : ResetSpec) (kind : string)
    : list string :=
  match spec with
  | ResetStr s =>
      if String.eqb s "all_non_persistent" then
        if String.eqb kind "currency"
        then cd_id <$> filter (λ c, cd_persistent c = false) (gd_currencies d)
        else ed_id <$> filter (λ e, "persistent" ∉ ed_tags e) (gd_elements d)
      else []
  | ResetList l => l
  end.

Definition reset_currencies (d : GameDefinition) (st : GameState) (ids : list string)
    : GameState :=
  foldl (λ st cid,
      match currencies st !! cid with
      | Some cs =>
          let v := match get_currency d cid with
                   | Some cdef => cd_initial_value cdef
                   | None => 0%float
                   end in
          put_currency st cid (mkCurrencyState v v 0)
      | None => st
      end)
    st ids.

Definition reset_elements (d : GameDefinition) (st : GameState) (ids : list string)
    : GameState :=
  foldl (λ st eid,
      match elements st !! eid with
      | Some es =>
          match get_element d eid with
          | Some edef =>
              if bool_decide ("persistent" ∉ ed_tags edef)
              then put_element st eid
                     (with_affordable (with_available (with_count es 0) false) false)
              else st
          | None => st
          end
      | None => st
      end)
    st ids.

Definition trigger_prestige (rt : GameRuntime) (layer_id : string)
    : option (PrestigeResult * GameRuntime) :=
  let d := definition rt in
  let st := state rt in
  match get_prestige_layer d layer_id with
  | None => Some (mkPrestigeResult false 0 [] [] UnknownPrestigeLayer, rt)
  | Some layer =>
      if negb (forallb (λ req, evaluate req st) (pl_requirements layer))
      then Some (mkPrestigeResult false 0 [] [] RequirementsNotMet, rt)
      else match pl_reward_formula layer with
      | None => Some (mkPrestigeResult false 0 [] [] NoRewardFormula, rt)
      | Some reward_formula =>
          let reward := reward_formula st in
          if float_lt reward (pl_minimum_reward layer)
          then Some (mkPrestigeResult false reward [] []
                       (RewardBelowMinimum reward (pl_minimum_reward layer)), rt)
          else
            let currencies_to_reset :=
              _resolve_reset_list d (pl_currencies_reset layer) "currency" in
            let elements_to_reset :=
              _resolve_reset_list d (pl_elements_reset layer) "element" in
            let st := reset_currencies d st currencies_to_reset in
            let st := reset_elements d st elements_to_reset in
            let st :=
              match currencies st !! pl_prestige_currency layer with
              | Some pcs =>
                  put_currency st (pl_prestige_currency layer)
                    (with_total_earned (with_current pcs (cs_current pcs + reward))
                       (cs_total_earned pcs + reward))
              | None => st
              end in
            let st :=
              set_prestige_counts st
                (<[layer_id := default 0 (prestige_counts st !! layer_id) + 1]>
                   (prestige_counts st)) in
            let st := set_run_number st (run_number st + 1) in
            st ← _update_element_statuses d st;
            Some (mkPrestigeResult true reward currencies_to_reset elements_to_reset NoReason,
                  mkGameRuntime d st (pipeline rt) true (_subsystems rt))
      end
  end.

(** *** Queries *)

Definition get_available_purchases (rt : GameRuntime) : option (list ElementStatus) :=
  let d := definition rt in
  let st := state rt in
  for_each (λ result edef,
      es ← elements st !! ed_id edef;
      if negb (es_available es || es_unlocked es) then Some result
      else if match ed_max_count edef with
              | Some max_count => max_count <=? es_count es
              | None => false
              end
      then Some result
      else
        let cost := compute (ed_cost_scaling edef) (ed_base_cost edef) (es_count es) in
        cost ← _apply_cost_effects d st (ed_id edef) cost;
        Some (result ++ [mkElementStatus (ed_id edef) (ed_display_name edef) (es_count es)
                           true (es_affordable es) cost (ed_max_count edef)
                           (ed_category edef) (ed_tags edef)]))
    (gd_elements d) [].

Definition get_affordable_purchases (rt : GameRuntime) : option (list ElementStatus) :=
  l ← get_available_purchases rt;
  Some (filter (λ e, status_affordable e = true) l).

Definition compute_current_cost (rt : GameRuntime) (element_id : string)
    : option (gmap string float) :=
  match get_element (definition rt) element_id with
  | None => Some ∅
  | Some edef =>
      es ← elements (state rt) !! element_id;
      let cost := compute (ed_cost_scaling edef) (ed_base_cost edef) (es_count es) in
      _apply_cost_effects (definition rt) (state rt) element_id cost
  end.

(** The loop of [compute_time_to_afford] over the cost items: [None] is the
    early [return None], [Some max_time] the running maximum. *)
Fixpoint time_to_afford_loop (st : GameState) (items : list (string * float))
    (max_time : float) : option float :=
  match items with
  | [] => Some max_time
  | (cur_id, amount) :: rest =>
      let current := currency_value st cur_id in
      if float_ge current amount then time_to_afford_loop st rest max_time
      else
        let rate := currency_rate st cur_id in
        if float_le rate 0 then None
        else
          let needed := (amount - current)%float in
          let t := (needed / rate)%float in
          time_to_afford_loop st rest (if float_gt t max_time then t else max_time)
  end.

(** The outer option is the call raising; the inner one is Python's
    [float | None]. *)
Definition compute_time_to_afford (rt : GameRuntime) (element_id : string)
    : option (option float) :=
  cost ← compute_current_cost rt element_id;
  if bool_decide (cost = ∅) then Some None
  else Some (time_to_afford_loop (state rt) (map_to_list cost) 0).

(** ** strategy.py *)

(** A strategy with its own state of type [S] ([SaveForBest] remembers what
    it saves for).  [decide_purchases] is handed the live state, and the
    strategies that hold the runtime act on it: the runtime goes in and
    comes out.  [get_clicks] returns the dict as its list of items. *)
Record Strategy (S : Type) := mkStrategy {
  decide_purchases : S → GameRuntime → list ElementStatus → option (list string * S * GameRuntime);
  get_clicks : S → GameState → float → bool → list (string * Z);
  should_prestige : S → GameState → string → bool
}.
Arguments decide_purchases {S}.
Arguments get_clicks {S}.
Arguments should_prestige {S}.

(** [sum(state.currency_rate(cdef.id) for cdef in definition.currencies)] *)
Definition total_rate (d : GameDefinition) (st : GameState) : float :=
  foldl (λ acc cdef, (acc + currency_rate st (cd_id cdef))%float) 0%float (gd_currencies d).

(** The undo of [GreedyROI.decide_purchases], run on the runtime a
    successful [try_purchase] and [_recompute_rates] left: decrement the
    count, refund the cost computed at the decremented count, restore the
    saved rates, mark the rates stale. *)
Definition undo_purchase (rt : GameRuntime) (element_id : string)
    (old_rates : list (string * float)) : option GameRuntime :=
  let d := definition rt in
  let st := state rt in
  es ← elements st !! element_id;
  let es := with_count es (es_count es - 1) in
  let st := put_element st element_id es in
  st ← match get_element d element_id with
       | Some edef =>
           let cost := compute (ed_cost_scaling edef) (ed_base_cost edef) (es_count es) in
           cost ← _apply_cost_effects d st element_id cost;
           for_each (λ st '(cid, amt),
               cs ← currencies st !! cid;
               Some (put_currency st cid (with_current cs (cs_current cs + amt))))
             (map_to_list cost) st
       | None => Some st
       end;
  st ← for_each (λ st '(cid, rate),
           cs ← currencies st !! cid;
           Some (put_currency st cid (with_current_rate cs rate)))
         old_rates st;
  Some (mkGameRuntime d st (pipeline rt) true (_subsystems rt)).

(** One candidate of the scoring loop: the speculative purchase, the
    measured return, and the undo. *)
Definition score_candidate (current_total_rate : float)
    (acc : list (string * float) * GameRuntime) (elem : ElementStatus)
    : option (list (string * float) * GameRuntime) :=
  let '(scored, rt) := acc in
  let cost_total :=
    foldl (λ s '(_, v), (s + v)%float) 0%float (map_to_list (status_current_cost elem)) in
  if float_le cost_total 0 then Some (scored ++ [(status_id elem, infinity)], rt)
  else
    let old_rates :=
      (λ cdef, (cd_id cdef, currency_rate (state rt) (cd_id cdef))) <$>
        gd_currencies (definition rt) in
    r ← try_purchase rt (status_id elem);
    let '(bought, rt) := r in
    if (bought : bool) then
      rt ← _recompute_rates (with_dirty rt true);
      let new_total := total_rate (definition rt) (state rt) in
      let delta_rate := (new_total - current_total_rate)%float in
      let roi := if float_gt cost_total 0 then (delta_rate / cost_total)%float else 0%float in
      rt ← undo_purchase rt (status_id elem) old_rates;
      Some (scored ++ [(status_id elem, roi)], rt)
    else Some (scored, rt).

(** [scored.sort(key=lambda x: -x[1])]: a stable sort on the negated score
    (the order Python gives when no score is a NaN). *)
Fixpoint insert_by_score (x : string * float) (l : list (string * float))
    : list (string * float) :=
  match l with
  | [] => [x]
  | y :: l' =>
      if float_lt (- x.2) (- y.2) then x :: y :: l' else y :: insert_by_score x l'
  end.

Definition sort_by_score (l : list (string * float)) : list (string * float) :=
  foldl (λ sorted x, insert_by_score x sorted) [] l.

Module GreedyROI.
(** [self.runtime] is the runtime whose state is handed in, as the
    simulation driver wires it; [None] is the strategy without a runtime. *)
Definition decide_purchases (has_runtime : bool) (rt : GameRuntime)
    (affordable : list ElementStatus) : option (list string * GameRuntime) :=
  match affordable, has_runtime with
  | [], _ => Some ([], rt)
  | _, false => Some (status_id <$> affordable, rt)
  | _, true =>
      let current_total_rate := total_rate (definition rt) (state rt) in
      r ← for_each (score_candidate current_total_rate) affordable ([], rt);
      let '(scored, rt) := r in
      Some ((sort_by_score scored).*1, rt)
  end.

Definition strategy (has_runtime : bool) : Strategy unit :=
  mkStrategy unit
    (λ _ rt affordable,
       r ← decide_purchases has_runtime rt affordable;
       let '(ids, rt) := r in Some (ids, (), rt))
    (λ _ _ _ _, [])
    (λ _ _ _, false).
End GreedyROI.

(** ** terminal.py *)

Record SimulationContext := mkSimulationContext {
  last_purchase_time : float;
  stall_detected : bool;
  total_purchases : Z
}.

#[warnings="-register-all"]
Inductive TerminalCondition :=
| TimeTerminal (seconds : float)
| MilestoneTerminal (milestone_id : string)
| CurrencyTerminal (currency_id : string) (op : CmpOp) (threshold : float)
| AllPurchasedTerminal (element_ids : list string)
| StallTerminal (max_idle_seconds : float)
| AnyTerminal (conditions : list TerminalCondition)
| AllTerminal (conditions : list TerminalCondition).

Fixpoint is_met (t : TerminalCondition) (st : GameState) (context : SimulationContext) : bool :=
  match t with
  | TimeTerminal seconds => float_ge (time_elapsed st) seconds
  | MilestoneTerminal m => has_milestone st m
  | CurrencyTerminal c op th => compare (currency_value st c) op th
  | AllPurchasedTerminal ids =>
      match ids with
      | [] => false
      | _ => forallb (λ eid, 1 <=? element_count st eid) ids
      end
  | StallTerminal max_idle =>
      if stall_detected context then true
      else float_ge (time_elapsed st - last_purchase_time context) max_idle
  | AnyTerminal cs => existsb (λ c, is_met c st context) cs
  | AllTerminal cs => forallb (λ c, is_met c st context) cs
  end.

(** ** metrics.py: the event logs of the collector *)

Record PurchaseEvent := mkPurchaseEvent {
  pe_time : float;
  pe_element_id : string;
  pe_cost_paid : gmap string float;
  pe_currencies_after : gmap string float
}.

Record MilestoneEvent := mkMilestoneEvent {
  me_time : float;
  me_milestone_id : string
}.

Record PrestigeEvent := mkPrestigeEvent {
  pr_time : float;
  pr_layer_id : string;
  pr_reward_amount : float;
  pr_run_duration : float
}.

Record MetricsCollector := mkMetricsCollector {
  purchases : list PurchaseEvent;
  milestones : list MilestoneEvent;
  prestiges : list PrestigeEvent
}.

Definition MetricsCollector_init : MetricsCollector := mkMetricsCollector [] [] [].

Definition record_purchase (c : MetricsCollector) (st : GameState) (element_id : string)
    (cost_paid : gmap string float) : MetricsCollector :=
  mkMetricsCollector
    (purchases c ++ [mkPurchaseEvent (time_elapsed st) element_id cost_paid
                       (cs_current <$> currencies st)])
    (milestones c) (prestiges c).

Definition record_milestone (c : MetricsCollector) (st : GameState) (milestone_id : string)
    : MetricsCollector :=
  mkMetricsCollector (purchases c)
    (milestones c ++ [mkMilestoneEvent (time_elapsed st) milestone_id])
    (prestiges c).

Definition record_prestige (c : MetricsCollector) (st : GameState) (layer_id : string)
    (reward_amount run_duration : float) : MetricsCollector :=
  mkMetricsCollector (purchases c) (milestones c)
    (prestiges c ++ [mkPrestigeEvent (time_elapsed st) layer_id reward_amount run_duration]).

(** ** simulation.py: tick mode *)

Definition MAX_TICKS : Z := 10000000.

(** What [_run_tick] works on: the runtime, the collector, the context, the
    strategy's state, and the local [milestones_seen].  The time-series
    snapshots of [record_tick] feed nothing back and are left out. *)
Record SimState (S : Type) := mkSimState {
  sim_runtime : GameRuntime;
  sim_collector : MetricsCollector;
  sim_context : SimulationContext;
  sim_strategy_state : S;
  sim_milestones_seen : gset string
}.
Arguments mkSimState {S}.
Arguments sim_runtime {S}.
Arguments sim_collector {S}.
Arguments sim_context {S}.
Arguments sim_strategy_state {S}.
Arguments sim_milestones_seen {S}.

(** Step 2: [for target, count in clicks.items(): for _ in range(count):
    runtime.process_click(target)]. *)
Definition replay_clicks (rt : GameRuntime) (clicks : list (string * Z)) : option GameRuntime :=
  for_each (λ rt '(target, count),
      for_each (λ rt _, r ← process_click rt target; Some r.2)
        (replicate (Z.to_nat count) ()) rt)
    clicks rt.

(** Step 3: the purchase attempts, in the order the strategy gave. *)
Definition buy_in_order (to_buy : list string)
    (acc : GameRuntime * MetricsCollector * SimulationContext)
    : option (GameRuntime * MetricsCollector * SimulationContext) :=
  for_each (λ '(rt, collector, context) element_id,
      cost ← compute_current_cost rt element_id;
      r ← try_purchase rt element_id;
      let '(bought, rt) := r in
      if (bought : bool) then
        _ ← get_affordable_purchases rt;
        Some (rt,
              record_purchase collector (state rt) element_id cost,
              mkSimulationContext (time_elapsed (state rt)) (stall_detected context)
                (total_purchases context + 1))
      else Some (rt, collector, context))
    to_buy acc.

(** Step 4: the prestige layers the strategy wants triggered. *)
Definition evaluate_prestige {S} (strategy : Strategy S) (s : S)
    (acc : GameRuntime * MetricsCollector)
    : option (GameRuntime * MetricsCollector) :=
  for_each (λ '(rt, collector) layer,
      if should_prestige strategy s (state rt) (pl_id layer) then
        r ← trigger_prestige rt (pl_id layer);
        let '(result, rt) := r in
        if success result
        then Some (rt, record_prestige collector (state rt) (pl_id layer)
                         (reward_amount result) (time_elapsed (state rt)))
        else Some (rt, collector)
      else Some (rt, collector))
    (gd_prestige_layers (definition acc.1)) acc.

(** Step 5: [for mid, mtime in state.milestones_reached.items(): if mid not
    in milestones_seen: …]. *)
Definition record_new_milestones (st : GameState)
    (acc : gset string * MetricsCollector) : gset string * MetricsCollector :=
  foldl (λ '(milestones_seen, collector) '(mid, _),
      if bool_decide (mid ∉ milestones_seen)
      then ({[mid]} ∪ milestones_seen, record_milestone collector st mid)
      else (milestones_seen, collector))
    acc (milestones_reached st).

(** The safety check at the end of an iteration. *)
Definition nan_or_inf_detected (st : GameState) : bool :=
  existsb (λ '(_, cs), is_nan (cs_current cs) || is_infinity (cs_current cs))
    (map_to_list (currencies st)).

(** One pass through the body of the [while] loop; the flag tells whether
    the NaN/Inf check returned from the run. *)
Definition tick_iteration {S} (strategy : Strategy S) (tick_resolution : float)
    (sim : SimState S) : option (SimState S * bool) :=
  rt ← tick (sim_runtime sim) tick_resolution;
  let clicks :=
    get_clicks strategy (sim_strategy_state sim) (state rt) tick_resolution false in
  rt ← replay_clicks rt clicks;
  affordable ← get_affordable_purchases rt;
  r ← decide_purchases strategy (sim_strategy_state sim) rt affordable;
  let '(to_buy, s, rt) := r in
  r ← buy_in_order to_buy (rt, sim_collector sim, sim_context sim);
  let '(rt, collector, context) := r in
  r ← evaluate_prestige strategy s (rt, collector);
  let '(rt, collector) := r in
  let '(milestones_seen, collector) :=
    record_new_milestones (state rt) (sim_milestones_seen sim, collector) in
  Some (mkSimState rt collector context s milestones_seen, nan_or_inf_detected (state rt)).

Inductive Outcome := TerminalConditionMet | MaxTicksReached | AbortedNaNInf.

Definition outcome_string (o : Outcome) : string :=
  match o with
  | TerminalConditionMet => "Terminal condition met"
  | MaxTicksReached => "Max ticks reached"
  | AbortedNaNInf => "Aborted: NaN/Inf detected"
  end.

(** The [while] loop; [budget] counts the iterations [tick_count] still
    allows before [tick_count > MAX_TICKS] breaks out. *)
Fixpoint tick_loop {S} (strategy : Strategy S) (terminal : TerminalCondition)
    (tick_resolution : float) (budget : nat) (sim : SimState S)
    : option (SimState S * Outcome) :=
  if is_met terminal (state (sim_runtime sim)) (sim_context sim)
  then Some (sim, TerminalConditionMet)
  else match budget with
       | O => Some (sim, MaxTicksReached)
       | S budget' =>
           r ← tick_iteration strategy tick_resolution sim;
           let '(sim, aborted) := r in
           if (aborted : bool) then Some (sim, AbortedNaNInf)
           else tick_loop strategy terminal tick_resolution budget' sim
       end.

(** The fields of the report the run fills from the collector's event logs
    (the derived pacing statistics are left out). *)
Record SimulationReport := mkSimulationReport {
  report_outcome : string;
  report_total_time : float;
  report_purchases : list PurchaseEvent;
  report_milestones : list MilestoneEvent;
  report_prestiges : list PrestigeEvent;
  report_milestone_times : list (string * float)
}.

Definition build_report (collector : MetricsCollector) (outcome : string)
    (total_time : float) : SimulationReport :=
  mkSimulationReport outcome total_time
    (purchases collector) (milestones collector) (prestiges collector)
    (foldl (λ d m, dict_set (me_milestone_id m) (me_time m) d) [] (milestones collector)).

(** [Simulation(definition, strategy, terminal, tick_resolution)]: a fresh
    runtime, collector and context. *)
Definition Simulation_init {S} (d : GameDefinition) (s0 : S) : option (SimState S) :=
  rt ← GameRuntime_init d;
  Some (mkSimState rt MetricsCollector_init (mkSimulationContext 0 false 0) s0 ∅).

Definition run_from {S} (strategy : Strategy S) (terminal : TerminalCondition)
    (tick_resolution : float) (budget : nat) (sim : SimState S)
    : option (SimulationReport * SimState S) :=
  r ← tick_loop strategy terminal tick_resolution budget sim;
  let '(sim, outcome) := r in
  Some (build_report (sim_collector sim) (outcome_string outcome)
          (time_elapsed (state (sim_runtime sim))), sim).

Definition _run_tick {S} (strategy : Strategy S) (terminal : TerminalCondition)
    (tick_resolution : float) (sim : SimState S)
    : option (SimulationReport * SimState S) :=
  run_from strategy terminal tick_resolution (Z.to_nat MAX_TICKS) sim.

(** ** The public operations, as a run of the runtime sees them *)

Inductive RuntimeOp :=
| Tick (delta : float)
| TryPurchase (element_id : string)
| ProcessClick (target_currency : string)
| TriggerPrestige (layer_id : string).

Definition apply_op (rt : GameRuntime) (op : RuntimeOp) : option GameRuntime :=
  match op with
  | Tick delta => tick rt delta
  | TryPurchase element_id => r ← try_purchase rt element_id; Some r.2
  | ProcessClick target_currency => r ← process_click rt target_currency; Some r.2
  | TriggerPrestige layer_id => r ← trigger_prestige rt layer_id; Some r.2
  end.

Definition apply_ops (rt : GameRuntime) (ops : list RuntimeOp) : option GameRuntime :=
  for_each apply_op ops rt.

(** ** The pipeline formula, as the specification words it *)

Definition values_of (ty : EffectType.t) (effects : list (EffectType.t * float)) : list float :=
  flat_map (λ e, if EffectType.eqb e.1 ty then [e.2] else []) effects.

Definition float_sum (l : list float) : float := foldl PrimFloat.add 0%float l.

Definition float_product (l : list float) : float := foldl PrimFloat.mul 1%float l.

Definition rate_formula (effects : list (EffectType.t * float)) : float :=
  (float_sum (values_of EffectType.PRODUCTION_FLAT effects)
   * (1 + float_sum (values_of EffectType.PRODUCTION_ADD_PCT effects))
   * float_product (values_of EffectType.PRODUCTION_MULT effects)
   * float_product (values_of EffectType.GLOBAL_MULT effects))%float.

Definition recognized_by_rate (e : EffectType.t * float) : bool :=
  match e.1 with
  | EffectType.PRODUCTION_FLAT | EffectType.PRODUCTION_ADD_PCT
  | EffectType.PRODUCTION_MULT | EffectType.GLOBAL_MULT => true
  | _ => false
  end.

(** ** Small games used as concrete instances *)

Module Fixtures.

Definition no_state : GameState := mkGameState 0 ∅ ∅ [] ∅ 1.

Definition currency (id : string) (initial_value : float) (persistent : bool) : CurrencyDef :=
  mkCurrencyDef id id initial_value None persistent None.

Definition element (id : string) (base_cost : gmap string float) (effects : list EffectDef)
    : ElementDef :=
  mkElementDef id id base_cost CostScaling_fixed None effects [] [] None ∅ "".

(** One currency, one generator that costs the whole starting balance. *)
Definition miner_game : GameDefinition :=
  mkGameDefinition
    [currency "gold" 100 false]
    [element "miner" {["gold" := 100%float]}
       [Effect.per_count "miner" EffectType.PRODUCTION_FLAT "gold" 5 None]]
    [] [] [].

(** A chest bought with gold that grants gems on purchase. *)
Definition chest_game : GameDefinition :=
  mkGameDefinition
    [currency "gold" 100 false; currency "gems" 0 false]
    [element "chest" {["gold" := 100%float]}
       [Effect.static EffectType.GRANT "gems" 50 None]]
    [] [] [].

(** A free element that lowers the value of a click. *)
Definition curse_game : GameDefinition :=
  mkGameDefinition
    [currency "gold" 10 false]
    [element "curse" ∅ [Effect.static EffectType.CLICK_FLAT "gold" (-3) None]]
    [] [] [mkClickTarget "gold" 1].

(** A prestige layer whose explicit reset list names a persistent currency. *)
Definition prestige_game (minimum_reward reward : float) : GameDefinition :=
  mkGameDefinition
    [currency "gold" 1000 false; currency "gems" 0 true; currency "pts" 0 true]
    [element "miner" {["gold" := 100%float]} []]
    []
    [mkPrestigeLayerDef "ascend" "pts" (Some (λ _, reward))
       (ResetList ["gold"; "gems"]) (ResetList ["miner"])
       [ResourceRequirement "gold" OpGe 500] minimum_reward]
    [mkClickTarget "gems" 1].

(** A free element: [ElementDef("farm")]. *)
Definition farm_game : GameDefinition :=
  mkGameDefinition [currency "gold" 0 false] [element "farm" ∅ []] [] [] [].

(** A per-count multiplier, the combination [validate] means to warn about. *)
Definition multiplier_game : GameDefinition :=
  mkGameDefinition
    [currency "gold" 0 false]
    [element "press" {["gold" := 10%float]}
       [Effect.per_count "press" EffectType.PRODUCTION_MULT "gold" 2 None]]
    [] [] [].

(** A milestone whose trigger holds from the start, and a key that unlocks
    a vault gated behind a requirement that never holds. *)
Definition vault_game : GameDefinition :=
  mkGameDefinition
    [currency "gold" 100 false]
    [element "key" {["gold" := 10%float]} [Effect.static EffectType.UNLOCK "vault" 0 None];
     mkElementDef "vault" "vault" {["gold" := 10%float]} CostScaling_fixed None []
       [CountRequirement "key" OpGe 1000] [] None ∅ ""]
    [mkMilestoneDef "started" "" (Some (TimeRequirement OpGe 0)) None]
    [mkPrestigeLayerDef "ascend" "gold" (Some (λ _, 1%float))
       (ResetList []) (ResetList ["vault"; "key"]) [] 0]
    [].

(** A strategy that buys whatever is affordable, in definition order. *)
Definition buy_everything : Strategy unit :=
  mkStrategy unit
    (λ _ rt affordable, Some (status_id <$> affordable, (), rt))
    (λ _ _ _ _, [])
    (λ _ _ _, false).

(** The runtime [GameRuntime(d)] builds ([d] is valid in every use below). *)
Definition runtime_of (d : GameDefinition) : GameRuntime :=
  default (mkGameRuntime d (GameState_init d) ProductionPipeline_init true [])
    (GameRuntime_init d).

(** The runtime after a list of operations that do not raise. *)
Definition after (rt : GameRuntime) (ops : list RuntimeOp) : GameRuntime :=
  default rt (apply_ops rt ops).

End Fixtures.

(** ** Relations between the state before and after a step *)

(** Only the [available] and [affordable] flags may differ. *)
Definition flags_only (st st' : GameState) : Prop :=
  time_elapsed st' = time_elapsed st
  ∧ currencies st' = currencies st
  ∧ milestones_reached st' = milestones_reached st
  ∧ prestige_counts st' = prestige_counts st
  ∧ run_number st' = run_number st
  ∧ ∀ id, es_count <$> elements st' !! id = es_count <$> elements st !! id
          ∧ es_unlocked <$> elements st' !! id = es_unlocked <$> elements st !! id.

(** Only the currency states may differ. *)
Definition currencies_only (st st' : GameState) : Prop :=
  time_elapsed st' = time_elapsed st
  ∧ elements st' = elements st
  ∧ milestones_reached st' = milestones_reached st
  ∧ prestige_counts st' = prestige_counts st
  ∧ run_number st' = run_number st.

(** Every recorded milestone is still recorded, with the same time. *)
Definition milestones_kept (st st' : GameState) : Prop :=
  ∀ mid t, dict_get mid (milestones_reached st) = Some t →
           dict_get mid (milestones_reached st') = Some t.

(** Every unlocked element is still unlocked. *)
Definition unlocked_kept (st st' : GameState) : Prop :=
  ∀ id es, elements st !! id = Some es → es_unlocked es = true →
           ∃ es', elements st' !! id = Some es' ∧ es_unlocked es' = true.

(** The definition, the pipeline and the subsystems of a runtime are fixed. *)
Definition same_static (rt rt' : GameRuntime) : Prop :=
  definition rt' = definition rt ∧ pipeline rt' = pipeline rt
  ∧ _subsystems rt' = _subsystems rt.

(** What the runtime's own writes to the state guarantee for a relation
    [R]: it is closed under the writes the runtime performs (any write to
    currencies, the clock and the counters; a write to an element that the
    state holds and that does not clear [unlocked]; a new entry in the
    milestone dict). *)
Record EngineInvariant (R : GameState → GameState → Prop) : Prop := mkEngineInvariant {
  ei_preorder : PreOrder R;
  ei_currencies : ∀ st c, R st (set_currencies st c);
  ei_element : ∀ st id es es',
    elements st !! id = Some es →
    (es_unlocked es = true → es_unlocked es' = true) →
    R st (put_element st id es');
  ei_time : ∀ st t, R st (set_time_elapsed st t);
  ei_milestone : ∀ st id t,
    dict_mem id (milestones_reached st) = false →
    R st (set_milestones_reached st (dict_set id t (milestones_reached st)));
  ei_prestige_counts : ∀ st p, R st (set_prestige_counts st p);
  ei_run_number : ∀ st n, R st (set_run_number st n)
}.

(** The callables a game plugs into the runtime respect [R]. *)
Definition hooks_respect (R : GameState → GameState → Prop) (rt : GameRuntime) : Prop :=
  (∀ edef f st, edef ∈ gd_elements (definition rt) →
                ed_on_purchase edef = Some f → R st (f st))
  ∧ (∀ mdef f st, mdef ∈ gd_milestones (definition rt) →
                  md_on_trigger mdef = Some f → R st (f st))
  ∧ (∀ sub st delta, sub ∈ _subsystems rt → R st (sub st delta)).

(** The log and the seen-set: no id is logged twice, and every logged id
    is in the set. *)
Definition log_guarded (seen : gset string) (collector : MetricsCollector) : Prop :=
  NoDup (me_milestone_id <$> milestones collector)
  ∧ ∀ mid, mid ∈ me_milestone_id <$> milestones collector → mid ∈ seen.

(** A runtime whose game plugs in no callable at all. *)
Definition has_no_hooks (rt : GameRuntime) : bool :=
  forallb (λ edef, bool_decide (ed_on_purchase edef = None)) (gd_elements (definition rt))
  && forallb (λ mdef, bool_decide (md_on_trigger mdef = None)) (gd_milestones (definition rt))
  && bool_decide (_subsystems rt = []).

(** ** runtime.py: the extension points *)

Definition set_production_pipeline (rt : GameRuntime) (currency_id : string) (fn : PipelineFn)
    : GameRuntime :=
  mkGameRuntime (definition rt) (state rt) (set_custom (pipeline rt) currency_id fn)
    (_dirty rt) (_subsystems rt).

Definition add_subsystem (rt : GameRuntime) (subsystem : Subsystem) : GameRuntime :=
  mkGameRuntime (definition rt) (state rt) (pipeline rt) (_dirty rt)
    (_subsystems rt ++ [subsystem]).

(** ** The click formula, as the specification words it:
    (base_value + Σ CLICK_FLAT) × Π CLICK_MULT *)

Definition click_formula (base_value : float) (effects : list (EffectType.t * float)) : float :=
  (foldl PrimFloat.add base_value (values_of EffectType.CLICK_FLAT effects)
   * float_product (values_of EffectType.CLICK_MULT effects))%float.

Definition recognized_by_click (e : EffectType.t * float) : bool :=
  match e.1 with
  | EffectType.CLICK_FLAT | EffectType.CLICK_MULT => true
  | _ => false
  end.

(** ** What [validate] checks, in words *)

(** The target of an effect is a known currency for the nine currency-bound
    types, a known element for COST_MULT and UNLOCK; GLOBAL_MULT and CUSTOM
    effects are not checked. *)
Definition effect_target_known (d : GameDefinition) (eff : EffectDef) : Prop :=
  match eff_type eff with
  | EffectType.PRODUCTION_FLAT | EffectType.PRODUCTION_ADD_PCT
  | EffectType.PRODUCTION_MULT | EffectType.CLICK_FLAT | EffectType.CLICK_MULT
  | EffectType.CAP_FLAT | EffectType.CAP_MULT | EffectType.AUTO_CLICK
  | EffectType.GRANT => eff_target eff ∈ cd_id <$> gd_currencies d
  | EffectType.COST_MULT | EffectType.UNLOCK => eff_target eff ∈ ed_id <$> gd_elements d
  | _ => True
  end.

Definition reset_ids_known (spec : ResetSpec) (known : list string) : Prop :=
  match spec with
  | ResetList l => ∀ id, id ∈ l → id ∈ known
  | ResetStr _ => True
  end.

(** No currency, element or milestone id is repeated, and every reference
    to a currency or an element (in costs, effect targets, click targets
    and prestige layers) names a defined one.  Prestige layer ids and click
    targets may repeat: [validate] does not look at that. *)
Definition well_formed (d : GameDefinition) : Prop :=
  NoDup (cd_id <$> gd_currencies d)
  ∧ NoDup (ed_id <$> gd_elements d)
  ∧ NoDup (md_id <$> gd_milestones d)
  ∧ (∀ e cur_id, e ∈ gd_elements d → is_Some (ed_base_cost e !! cur_id) →
       cur_id ∈ cd_id <$> gd_currencies d)
  ∧ (∀ e eff, e ∈ gd_elements d → eff ∈ ed_effects e → effect_target_known d eff)
  ∧ (∀ ct, ct ∈ gd_click_targets d → ct_currency ct ∈ cd_id <$> gd_currencies d)
  ∧ (∀ p, p ∈ gd_prestige_layers d →
       pl_prestige_currency p ∈ cd_id <$> gd_currencies d
       ∧ reset_ids_known (pl_currencies_reset p) (cd_id <$> gd_currencies d)
       ∧ reset_ids_known (pl_elements_reset p) (ed_id <$> gd_elements d)).

(** ** What keeps the runtime from raising *)

(** The state holds an entry for every currency and element of the
    definition. *)
Definition state_covers (d : GameDefinition) (st : GameState) : Prop :=
  (∀ cdef, cdef ∈ gd_currencies d → is_Some (currencies st !! cd_id cdef))
  ∧ (∀ edef, edef ∈ gd_elements d → is_Some (elements st !! ed_id edef)).

(** The two dicts of the state have the keys they had. *)
Definition same_domains (st st' : GameState) : Prop :=
  dom (currencies st') = dom (currencies st)
  ∧ dom (elements st') = dom (elements st).

(** A cost scaling prices in the currencies of the base cost only (the
    built-in scalings do; a custom function need not). *)
Definition scaling_keeps_keys (d : GameDefinition) : Prop :=
  ∀ e count, e ∈ gd_elements d →
    dom (compute (ed_cost_scaling e) (ed_base_cost e) count) ⊆ dom (ed_base_cost e).

(** What the runtime's writes guarantee for a relation [R], stated with
    what each write knows: a currency or an element is written only under a
    key the state holds (and an element write does not clear [unlocked]); a
    milestone is added only under a new key; the counters are overwritten.
    (The clock is written by [tick] alone and is left to the lemmas on
    [tick].) *)
Record WriteInvariant (R : GameState → GameState → Prop) : Prop := mkWriteInvariant {
  wi_preorder : PreOrder R;
  wi_currency : ∀ st id cs cs',
    currencies st !! id = Some cs → R st (put_currency st id cs');
  wi_element : ∀ st id es es',
    elements st !! id = Some es →
    (es_unlocked es = true → es_unlocked es' = true) →
    R st (put_element st id es');
  wi_milestone : ∀ st id t,
    dict_mem id (milestones_reached st) = false →
    R st (set_milestones_reached st (dict_set id t (milestones_reached st)));
  wi_prestige_counts : ∀ st p, R st (set_prestige_counts st p);
  wi_run_number : ∀ st n, R st (set_run_number st n)
}.

(** The clock stands still. *)
Definition time_kept (st st' : GameState) : Prop := time_elapsed st' = time_elapsed st.

(** ** The purchase log and the purchase counter of a simulation *)

(** From one point of a run to a later one: the purchase log has grown by
    appending, and the counter by the number of events appended. *)
Definition purchases_counted (a a' : MetricsCollector * SimulationContext) : Prop :=
  ∃ more, purchases a'.1 = purchases a.1 ++ more
          ∧ total_purchases a'.2 = total_purchases a.2 + Z.of_nat (length more).

(** What each outcome of a tick-mode run says about the state it stopped in. *)
Definition outcome_holds (terminal : TerminalCondition) (o : Outcome)
    (st : GameState) (context : SimulationContext) : Prop :=
  match o with
  | TerminalConditionMet => is_met terminal st context = true
  | MaxTicksReached => is_met terminal st context = false
  | AbortedNaNInf => nan_or_inf_detected st = true
  end.

(** ** What an entry of [get_available_purchases] says *)

(** The status [s] is the one built for the element [edef] in state [es]:
    id, count, limit, the cached [affordable] flag, and the scaled cost
    after COST_MULT effects. *)
Definition status_describes (rt : GameRuntime) (s : ElementStatus)
    (edef : ElementDef) (es : ElementState) : Prop :=
  edef ∈ gd_elements (definition rt)
  ∧ elements (state rt) !! ed_id edef = Some es
  ∧ status_id s = ed_id edef
  ∧ status_count s = es_count es
  ∧ status_available s = true
  ∧ status_affordable s = es_affordable es
  ∧ status_max_count s = ed_max_count edef
  ∧ _apply_cost_effects (definition rt) (state rt) (ed_id edef)
      (compute (ed_cost_scaling edef) (ed_base_cost edef) (es_count es))
    = Some (status_current_cost s).

(** Available or unlocked, and below the limit when there is one. *)
Definition purchasable (edef : ElementDef) (es : ElementState) : Prop :=
  (es_available es = true ∨ es_unlocked es = true)
  ∧ ∀ max_count, ed_max_count edef = Some max_count → es_count es < max_count.

(** * Properties *)

(** ** Facts on binary64 arithmetic *)

Section FloatFacts.
Import SpecFloat.

(** 2^52 * m has 52 more binary digits than m. *)
Lemma digits2_pos_shift52 (m : positive) :
  Z.pos (digits2_pos (4503599627370496 * m)) = Z.pos (digits2_pos m) + 52.
Proof.
  change (4503599627370496 * m)%positive with (Pos.iter xO m 52%positive).
  cbv [Pos.iter]. cbn [digits2_pos]. lia.
Qed.

(** Shifting 2^52 * m right by 52 bits loses nothing. *)
Lemma shr_shift52 (m : positive) :
  iter_pos shr_1 52
    {| shr_m := Z.pos (4503599627370496 * m); shr_r := false; shr_s := false |}
  = {| shr_m := Z.pos m; shr_r := false; shr_s := false |}.
Proof.
  change (4503599627370496 * m)%positive with (Pos.iter xO m 52%positive).
  reflexivity.
Qed.

Lemma SF64mul_one_r (x : spec_float) :
  valid_binary prec emax x = true →
  SF64mul x (S754_finite false 4503599627370496 (-52)) = x.
Proof.
  destruct x as [s|s| |s m e]; intros Hv.
  - destruct s; reflexivity.
  - destruct s; reflexivity.
  - reflexivity.
  - cbv [SF64mul SFmul].
    rewrite Bool.xorb_false_r.
    cbv [valid_binary bounded canonical_mantissa] in Hv.
    apply andb_prop in Hv as [Hc Hb].
    apply Z.eqb_eq in Hc.
    rewrite Pos.mul_comm.
    cbv [binary_round_aux].
    cbv [shr_fexp Zdigits2]. rewrite digits2_pos_shift52.
    replace (Z.pos (digits2_pos m) + 52 + (e + -52)) with (Z.pos (digits2_pos m) + e) by lia.
    rewrite Hc.
    replace (e - (e + -52)) with 52 by lia.
    cbv [shr shr_record_of_loc].
    rewrite shr_shift52.
    cbv [shr_m loc_of_shr_record round_nearest_even].
    replace (e + -52 + 52) with e by lia.
    rewrite Hc, Z.sub_diag. rewrite Hb. reflexivity.
Qed.

(** [x * 1.0] is [x], bit for bit, for every float. *)
Lemma float_mul_1_r (x : float) : (x * 1)%float = x.
Proof.
  rewrite <- (SF2Prim_Prim2SF x) at 2.
  rewrite <- (SF2Prim_Prim2SF (x * 1)).
  f_equal. rewrite mul_spec.
  change (Prim2SF 1) with (S754_finite false 4503599627370496 (-52)).
  apply SF64mul_one_r, Prim2SF_valid.
Qed.

(** Anything above a non-negative float is non-negative. *)
Lemma float_nonneg_lt (m t : float) :
  PrimFloat.leb 0 m = true → PrimFloat.ltb m t = true → PrimFloat.leb 0 t = true.
Proof.
  rewrite !leb_spec, ltb_spec.
  change (Prim2SF 0) with (S754_zero false).
  destruct (Prim2SF m) as [sm|sm| |sm mm em], (Prim2SF t) as [st|st| |st mt et];
    cbv [SFleb SFltb SFcompare]; try discriminate; try reflexivity;
    repeat match goal with b : bool |- _ => destruct b end;
    try discriminate; try reflexivity.
Qed.

End FloatFacts.

(** ** Loops that may raise *)

Lemma for_each_app {A S} (body : S → A → option S) (l1 l2 : list A) (s : S) :
  for_each body (l1 ++ l2) s = s' ← for_each body l1 s; for_each body l2 s'.
Proof.
  revert s. induction l1 as [|x l1 IH]; intros s; simpl; [done|].
  destruct (body s x); simpl; [apply IH | done].
Qed.

(** A relation every step of the body respects is respected by the loop. *)
Lemma for_each_preserves {A S} (R : S → S → Prop) `{!PreOrder R}
    (body : S → A → option S) (l : list A) (s s' : S) :
  (∀ s1 x s2, x ∈ l → body s1 x = Some s2 → R s1 s2) →
  for_each body l s = Some s' → R s s'.
Proof.
  revert s. induction l as [|x l IH]; intros s Hstep Hrun; simpl in Hrun.
  - by simplify_eq.
  - destruct (body s x) as [s1|] eqn:Hb; simpl in Hrun; [|done].
    transitivity s1.
    + eapply Hstep; [left | done].
    + apply IH; [|done]. intros ?????. eapply Hstep; [by right | done].
Qed.

Lemma foldl_preserves {A S} (R : S → S → Prop) `{!PreOrder R}
    (body : S → A → S) (l : list A) (s : S) :
  (∀ s1 x, x ∈ l → R s1 (body s1 x)) → R s (foldl body s l).
Proof.
  revert s. induction l as [|x l IH]; intros s Hstep; simpl; [done|].
  transitivity (body s x); [apply Hstep; left|].
  apply IH. intros ???. apply Hstep. by right.
Qed.

(** ** The production pipeline (pipeline.py) *)

Lemma foldl_rate_step (effects : list (EffectType.t * float)) (acc : RateAcc) :
  foldl rate_step acc effects =
  mkRateAcc
    (foldl PrimFloat.add (flat_sum acc) (values_of EffectType.PRODUCTION_FLAT effects))
    (foldl PrimFloat.add (add_pct acc) (values_of EffectType.PRODUCTION_ADD_PCT effects))
    (foldl PrimFloat.mul (mult acc) (values_of EffectType.PRODUCTION_MULT effects))
    (foldl PrimFloat.mul (global_mult acc) (values_of EffectType.GLOBAL_MULT effects)).
Proof.
  revert acc. induction effects as [|[ty v] effects IH]; intros acc.
  - by destruct acc.
  - simpl. rewrite IH. by destruct ty.
Qed.

Lemma values_of_recognized (ty : EffectType.t) (effects : list (EffectType.t * float)) :
  recognized_by_rate (ty, 0%float) = true →
  values_of ty (filter (λ e, recognized_by_rate e = true) effects) = values_of ty effects.
Proof.
  intros Hty. induction effects as [|[ty' v] effects IH]; [done|].
  rewrite filter_cons. unfold values_of in *. case_decide as Hr; simpl.
  - by rewrite IH.
  - rewrite IH. destruct ty, ty'; try done; by destruct Hr.
Qed.

(** C2.  Without a custom pipeline for the currency, [compute_rate] is
    flat_sum × (1 + add_pct_sum) × Π mult × Π global_mult over the values of
    the four production types; an empty effect list gives rate 0; the click
    value of an empty effect list is the base value itself; and effects of
    any other type do not change the rate. *)
Theorem compute_rate_formula (p : ProductionPipeline) (currency_id : string) (st : GameState) :
  _custom p !! currency_id = None →
  (∀ effects, compute_rate p currency_id effects st = rate_formula effects)
  ∧ compute_rate p currency_id [] st = 0%float
  ∧ (∀ base_value, compute_click_value p currency_id base_value [] st = base_value)
  ∧ (∀ effects,
       compute_rate p currency_id (filter (λ e, recognized_by_rate e = true) effects) st
       = compute_rate p currency_id effects st).
Proof.
  intros Hnone.
  assert (Hformula : ∀ effects, compute_rate p currency_id effects st = rate_formula effects).
  { intros effects. unfold compute_rate, PipelineFn in *.
    rewrite Hnone, foldl_rate_step. reflexivity. }
  split; [exact Hformula|]. split; [|split].
  - rewrite Hformula. reflexivity.
  - intros base_value. unfold compute_click_value. simpl. apply float_mul_1_r.
  - intros effects. rewrite !Hformula. unfold rate_formula.
    by rewrite !values_of_recognized.
Qed.

(** ** What each runtime function leaves alone *)

Lemma by_id_elem_of {A} (key : A → string) (xs : list A) (id : string) (x : A) :
  by_id key xs id = Some x → x ∈ xs ∧ key x = id.
Proof.
  unfold by_id.
  assert (H : ∀ (m : gmap string A),
             (∀ k y, m !! k = Some y → y ∈ xs ∧ key y = k) →
             ∀ l, (∀ y, y ∈ l → y ∈ xs) →
             foldl (λ m x, <[key x := x]> m) m l !! id = Some x → x ∈ xs ∧ key x = id).
  { intros m Hm l. revert m Hm. induction l as [|y l IH]; intros m Hm Hl; simpl.
    - apply Hm.
    - apply IH.
      + intros k z. rewrite lookup_insert. case_decide; [|apply Hm].
        intros [= <-]. split; [apply Hl; left | done].
      + intros z Hz. apply Hl. by right. }
  apply H; [|done]. intros k y. by rewrite lookup_empty.
Qed.

Lemma get_element_elem_of d id edef :
  get_element d id = Some edef → edef ∈ gd_elements d ∧ ed_id edef = id.
Proof. apply by_id_elem_of. Qed.

#[local] Instance flags_only_preorder : PreOrder flags_only.
Proof.
  split.
  - by repeat split.
  - intros x y z (?&?&?&?&?&Hxy) (?&?&?&?&?&Hyz).
    repeat split; try congruence.
    + destruct (Hxy id), (Hyz id). congruence.
    + destruct (Hxy id), (Hyz id). congruence.
Qed.

Lemma flags_only_put_element st id es es' :
  elements st !! id = Some es →
  es_count es' = es_count es → es_unlocked es' = es_unlocked es →
  flags_only st (put_element st id es').
Proof.
  intros Hes Hc Hu. repeat split; simpl; destruct (decide (id = id0)) as [<-|];
    rewrite ?lookup_insert_eq, ?lookup_insert_ne by done; rewrite ?Hes; simpl; congruence.
Qed.

Lemma _update_element_statuses_flags_only d st st' :
  _update_element_statuses d st = Some st' → flags_only st st'.
Proof.
  unfold _update_element_statuses.
  apply (for_each_preserves flags_only).
  intros s1 edef s2 _ Hbody.
  destruct (elements s1 !! ed_id edef) as [es|] eqn:Hes; simpl in Hbody; [|done].
  set (av := if negb (es_unlocked es) then _ else true) in Hbody.
  set (s1' := put_element s1 (ed_id edef) (with_available es av)) in Hbody.
  assert (H1 : flags_only s1 s1') by (by eapply flags_only_put_element).
  assert (Hes' : elements s1' !! ed_id edef = Some (with_available es av))
    by apply lookup_insert_eq.
  destruct (av && _) eqn:Hc in Hbody.
  - destruct (_apply_cost_effects d s1' (ed_id edef) _) as [cost|]; simpl in Hbody; [|done].
    injection Hbody as <-.
    etransitivity; [exact H1|]. by eapply flags_only_put_element.
  - injection Hbody as <-.
    etransitivity; [exact H1|]. by eapply flags_only_put_element.
Qed.

#[local] Instance currencies_only_preorder : PreOrder currencies_only.
Proof.
  split.
  - by repeat split.
  - intros x y z (?&?&?&?&?) (?&?&?&?&?). repeat split; congruence.
Qed.

Lemma deduct_costs_currencies_only st cost st' :
  deduct_costs st cost = Some st' → currencies_only st st'.
Proof.
  unfold deduct_costs. apply (for_each_preserves currencies_only).
  intros s1 [cid amt] s2 _ Hb.
  destruct (currencies s1 !! cid); simpl in Hb; [|done].
  by injection Hb as <-.
Qed.

(** ** Relations every public operation respects *)

Section Engine.
Context (R : GameState → GameState → Prop) (HR : EngineInvariant R).

#[local] Instance engine_preorder : PreOrder R := ei_preorder R HR.

Lemma engine_put_currency st id cs : R st (put_currency st id cs).
Proof. apply (ei_currencies R HR). Qed.

Lemma engine_recompute_rates rt rt' :
  _recompute_rates rt = Some rt' → R (state rt) (state rt') ∧ same_static rt rt'.
Proof.
  unfold _recompute_rates. intros H.
  destruct (owned_effects _ _) as [effs|]; simpl in H; [|done].
  destruct (foldl (gather_step _) _ effs) as [ge pc].
  destruct (for_each _ _ _) as [st'|] eqn:Hloop; simpl in H; [|done].
  injection H as <-. split; [|done]. simpl.
  revert Hloop. apply (for_each_preserves R).
  intros s1 cdef s2 _ Hb.
  destruct (pc !! cd_id cdef); simpl in Hb; [|done].
  destruct (currencies s1 !! cd_id cdef); simpl in Hb; [|done].
  injection Hb as <-. apply engine_put_currency.
Qed.

Lemma engine_apply_production d st delta st' :
  apply_production d st delta = Some st' → R st st'.
Proof.
  unfold apply_production. apply (for_each_preserves R).
  intros s1 cdef s2 _ Hb.
  destruct (currencies s1 !! cd_id cdef) as [cs|]; simpl in Hb; [|done].
  destruct (float_ne _ _); [|by injection Hb as <-].
  destruct (_resolve_cap _ _ _) as [cap|]; simpl in Hb; [|done].
  injection Hb as <-.
  etransitivity; apply engine_put_currency.
Qed.

Lemma engine_process_auto_clicks d st delta st' :
  _process_auto_clicks d st delta = Some st' → R st st'.
Proof.
  unfold _process_auto_clicks. apply (for_each_preserves R).
  intros s1 edef s2 _ Hb.
  destruct (elements s1 !! ed_id edef) as [es|]; simpl in Hb; [|done].
  destruct (es_count es <=? 0); injection Hb as <-; [done|].
  apply (foldl_preserves R). intros s eff _.
  destruct (negb (EffectType.eqb _ _)); [done|].
  destruct (negb (is_active _ _)); [done|].
  destruct (get_click_target _ _); [|done].
  destruct (currencies s !! _); [|done].
  apply engine_put_currency.
Qed.

Lemma engine_update_element_statuses d st st' :
  _update_element_statuses d st = Some st' → R st st'.
Proof.
  unfold _update_element_statuses. apply (for_each_preserves R).
  intros s1 edef s2 _ Hbody.
  destruct (elements s1 !! ed_id edef) as [es|] eqn:Hes; simpl in Hbody; [|done].
  set (av := if negb (es_unlocked es) then _ else true) in Hbody.
  set (s1' := put_element s1 (ed_id edef) (with_available es av)) in Hbody.
  assert (H1 : R s1 s1') by (by eapply (ei_element R HR)).
  assert (Hes' : elements s1' !! ed_id edef = Some (with_available es av))
    by apply lookup_insert_eq.
  destruct (av && _) eqn:Hc in Hbody.
  - destruct (_apply_cost_effects d s1' (ed_id edef) _) as [cost|]; simpl in Hbody; [|done].
    injection Hbody as <-.
    etransitivity; [exact H1|]. by eapply (ei_element R HR).
  - injection Hbody as <-.
    etransitivity; [exact H1|]. by eapply (ei_element R HR).
Qed.

Lemma engine_check_milestone st mdef :
  (∀ f s, md_on_trigger mdef = Some f → R s (f s)) →
  R st (check_milestone st mdef).
Proof.
  intros Hhook. unfold check_milestone.
  destruct (dict_mem _ _) eqn:Hmem; [done|].
  destruct (md_trigger mdef) as [trigger|]; [|done].
  destruct (evaluate trigger st); [|done].
  etransitivity; [by apply (ei_milestone R HR)|].
  destruct (md_on_trigger mdef) as [f|] eqn:Hf; [|done].
  by eapply Hhook.
Qed.

Lemma engine_check_milestones d st :
  (∀ mdef f s, mdef ∈ gd_milestones d → md_on_trigger mdef = Some f → R s (f s)) →
  R st (_check_milestones d st).
Proof.
  intros Hhook. unfold _check_milestones. apply (foldl_preserves R).
  intros s mdef Hin. apply engine_check_milestone. intros f s'. by apply Hhook.
Qed.

Lemma engine_apply_immediate_effect st eff : R st (_apply_immediate_effect st eff).
Proof.
  unfold _apply_immediate_effect.
  destruct (eff_type eff); try done.
  - destruct (currencies st !! _); [apply engine_put_currency | done].
  - destruct (elements st !! _) eqn:Hes; [|done]. by eapply (ei_element R HR).
Qed.

Lemma engine_apply_immediate_effects st effs : R st (apply_immediate_effects st effs).
Proof.
  unfold apply_immediate_effects. apply (foldl_preserves R). intros s eff _.
  destruct (EffectPhase.eqb _ _); [apply engine_apply_immediate_effect | done].
Qed.

Lemma engine_deduct_costs st cost st' : deduct_costs st cost = Some st' → R st st'.
Proof.
  unfold deduct_costs. apply (for_each_preserves R).
  intros s1 [cid amt] s2 _ Hb.
  destruct (currencies s1 !! cid); simpl in Hb; [|done].
  injection Hb as <-. apply engine_put_currency.
Qed.

Lemma engine_reset_currencies d st ids : R st (reset_currencies d st ids).
Proof.
  unfold reset_currencies. apply (foldl_preserves R). intros s cid _.
  destruct (currencies s !! cid); [apply engine_put_currency | done].
Qed.

Lemma engine_reset_elements d st ids : R st (reset_elements d st ids).
Proof.
  unfold reset_elements. apply (foldl_preserves R). intros s eid _.
  destruct (elements s !! eid) eqn:Hes; [|done].
  destruct (get_element d eid); [|done].
  case_bool_decide; [|done]. by eapply (ei_element R HR).
Qed.

Lemma engine_try_purchase rt element_id b rt' :
  hooks_respect R rt →
  try_purchase rt element_id = Some (b, rt') →
  R (state rt) (state rt') ∧ same_static rt rt'.
Proof.
  intros (Hpurchase & _ & _). unfold try_purchase. intros H.
  destruct (get_element _ _) as [edef|] eqn:Hdef; [|by injection H as <- <-].
  destruct (elements _ !! _) as [es|] eqn:Hes; simpl in H; [|done].
  destruct (match ed_max_count edef with Some _ => _ | None => _ end);
    [by injection H as <- <-|].
  destruct (negb (es_available es) && _); [by injection H as <- <-|].
  destruct (negb (forallb _ (ed_purchase_requirements edef))); [by injection H as <- <-|].
  destruct (_apply_cost_effects _ _ _ _) as [cost|]; simpl in H; [|done].
  destruct (negb (forallb _ (map_to_list cost))); [by injection H as <- <-|].
  destruct (deduct_costs _ _) as [st1|] eqn:Hded; simpl in H; [|done].
  destruct (_update_element_statuses _ _) as [st2|] eqn:Hupd; simpl in H; [|done].
  injection H as <- <-. split; [|done]. simpl.
  pose proof (deduct_costs_currencies_only _ _ _ Hded) as (_ & Hel & _).
  apply engine_deduct_costs in Hded. apply engine_update_element_statuses in Hupd.
  etransitivity; [exact Hded|]. etransitivity; [|exact Hupd].
  set (paid := put_element st1 element_id (with_count es (es_count es + 1))).
  transitivity paid; [eapply (ei_element R HR); [by rewrite Hel | done]|].
  transitivity (apply_immediate_effects paid (ed_effects edef));
    [apply engine_apply_immediate_effects|].
  destruct (ed_on_purchase edef) as [f|] eqn:Hf; [|done].
  eapply Hpurchase; [|done]. by eapply get_element_elem_of.
Qed.

Lemma engine_process_click rt target v rt' :
  process_click rt target = Some (v, rt') →
  R (state rt) (state rt') ∧ same_static rt rt'.
Proof.
  unfold process_click. intros H.
  destruct (get_click_target _ _) as [ct|]; [|by injection H as <- <-].
  destruct (owned_effects _ _) as [effs|]; simpl in H; [|done].
  destruct (currencies _ !! _) as [cs|]; simpl in H; [|done].
  destruct (_resolve_cap _ _ _) as [cap|]; simpl in H; [|done].
  injection H as <- <-. split; [|done]. simpl.
  etransitivity; apply engine_put_currency.
Qed.

Lemma engine_trigger_prestige rt layer_id res rt' :
  trigger_prestige rt layer_id = Some (res, rt') →
  R (state rt) (state rt') ∧ same_static rt rt'.
Proof.
  unfold trigger_prestige. intros H.
  destruct (get_prestige_layer _ _) as [layer|]; [|by injection H as <- <-].
  destruct (negb (forallb _ _)); [by injection H as <- <-|].
  destruct (pl_reward_formula layer) as [formula|]; [|by injection H as <- <-].
  destruct (float_lt _ _); [by injection H as <- <-|].
  destruct (_update_element_statuses _ _) as [st2|] eqn:Hupd; simpl in H; [|done].
  injection H as <- <-. split; [|done]. simpl.
  apply engine_update_element_statuses in Hupd.
  etransitivity; [|exact Hupd].
  etransitivity; [|apply (ei_run_number R HR)].
  etransitivity; [|apply (ei_prestige_counts R HR)].
  etransitivity; [apply engine_reset_currencies|].
  etransitivity; [apply engine_reset_elements|].
  destruct (currencies _ !! _); [apply engine_put_currency | done].
Qed.

Lemma engine_tick rt delta rt' :
  hooks_respect R rt →
  tick rt delta = Some rt' → R (state rt) (state rt') ∧ same_static rt rt'.
Proof.
  intros (_ & Hmilestone & Hsub). unfold tick. intros H.
  destruct (if _dirty rt then _ else Some rt) as [rt1|] eqn:Hrec; simpl in H; [|done].
  assert (R (state rt) (state rt1) ∧ same_static rt rt1) as [H1 (Hd & Hp & Hs)].
  { destruct (_dirty rt); [|by injection Hrec as <-].
    destruct (_recompute_rates rt) as [rt2|] eqn:Hrr; simpl in Hrec; [|done].
    injection Hrec as <-. apply engine_recompute_rates in Hrr. exact Hrr. }
  destruct (apply_production _ _ _) as [st1|] eqn:Hprod; simpl in H; [|done].
  destruct (_process_auto_clicks _ _ _) as [st2|] eqn:Hauto; simpl in H; [|done].
  destruct (_update_element_statuses _ _) as [st3|] eqn:Hupd; simpl in H; [|done].
  injection H as <-. split; [|done]. simpl.
  etransitivity; [exact H1|].
  etransitivity; [eapply engine_apply_production, Hprod|].
  etransitivity; [eapply engine_process_auto_clicks, Hauto|].
  etransitivity; [apply (ei_time R HR)|].
  etransitivity; [eapply engine_update_element_statuses, Hupd|].
  transitivity (_check_milestones (definition rt1) st3);
    [apply engine_check_milestones; rewrite Hd; exact Hmilestone|].
  apply (foldl_preserves R). intros s sub Hin. apply Hsub. by rewrite <- Hs.
Qed.

Lemma hooks_respect_static rt rt' :
  same_static rt rt' → hooks_respect R rt → hooks_respect R rt'.
Proof. intros (Hd & _ & Hs). unfold hooks_respect. by rewrite Hd, Hs. Qed.

Lemma engine_apply_op rt op rt' :
  hooks_respect R rt →
  apply_op rt op = Some rt' → R (state rt) (state rt') ∧ same_static rt rt'.
Proof.
  intros Hh H. destruct op; simpl in H.
  - by eapply engine_tick.
  - destruct (try_purchase _ _) as [[b r]|] eqn:E; simpl in H; [|done].
    injection H as <-. by eapply engine_try_purchase.
  - destruct (process_click _ _) as [[v r]|] eqn:E; simpl in H; [|done].
    injection H as <-. by eapply engine_process_click.
  - destruct (trigger_prestige _ _) as [[v r]|] eqn:E; simpl in H; [|done].
    injection H as <-. by eapply engine_trigger_prestige.
Qed.

Lemma engine_apply_ops rt ops rt' :
  hooks_respect R rt →
  apply_ops rt ops = Some rt' → R (state rt) (state rt') ∧ same_static rt rt'.
Proof.
  unfold apply_ops. revert rt. induction ops as [|op ops IH]; intros rt Hh H; simpl in H.
  - by injection H as <-.
  - destruct (apply_op rt op) as [rt1|] eqn:E; simpl in H; [|done].
    destruct (engine_apply_op _ _ _ Hh E) as [H1 Hs1].
    destruct (IH rt1 (hooks_respect_static _ _ Hs1 Hh) H) as [H2 (?&?&?)].
    split; [by etransitivity|].
    destruct Hs1 as (?&?&?). repeat split; congruence.
Qed.

End Engine.

(** ** milestones_kept and unlocked_kept are respected by the runtime's writes *)

Lemma dict_get_set_other {V} (d : list (string * V)) (k k' : string) (v v' : V) :
  dict_mem k d = false → dict_get k' d = Some v' → dict_get k' (dict_set k v d) = Some v'.
Proof.
  induction d as [|[k0 v0] d IH]; simpl; [done|].
  destruct (String.eqb k0 k) eqn:E0; [done|]. simpl.
  destruct (String.eqb k0 k'); [done|]. apply IH.
Qed.

Lemma dict_get_set_new {V} (d : list (string * V)) (k : string) (v : V) :
  dict_mem k d = false → dict_get k (dict_set k v d) = Some v.
Proof.
  induction d as [|[k0 v0] d IH]; simpl.
  - by rewrite String.eqb_refl.
  - destruct (String.eqb k0 k) eqn:E0; [done|]. simpl. by rewrite E0.
Qed.

Lemma dict_mem_get {V} (d : list (string * V)) (k : string) :
  dict_mem k d = true ↔ is_Some (dict_get k d).
Proof.
  induction d as [|[k0 v0] d IH]; simpl.
  - split; [done | by intros [? ?]].
  - destruct (String.eqb k0 k); [|done]. split; [by eexists | done].
Qed.

Lemma milestones_kept_invariant : EngineInvariant milestones_kept.
Proof.
  split; try (by intros; intros ???).
  - split; [by intros ???|]. intros x y z Hxy Hyz mid t H. by apply Hyz, Hxy.
  - intros st id t Hmem mid t' H. simpl. by apply dict_get_set_other.
Qed.

Lemma unlocked_kept_invariant : EngineInvariant unlocked_kept.
Proof.
  split; try (by intros; intros ????; eexists).
  - split; [by intros ????; eexists|].
    intros x y z Hxy Hyz id es H Hu.
    destruct (Hxy _ _ H Hu) as (es' & H' & Hu'). by apply (Hyz _ _ H' Hu').
  - intros st id es es' Hes Hmono id0 es0 H0 Hu. simpl.
    destruct (decide (id = id0)) as [<-|Hne].
    + rewrite lookup_insert_eq. eexists; split; [done|]. apply Hmono. congruence.
    + rewrite lookup_insert_ne by done. by eexists.
Qed.

(** ** The sticky unlock (runtime.py, _update_element_statuses) *)

(** After a status update every unlocked element of the definition is
    available, whatever its requirements evaluate to. *)
Lemma update_statuses_unlocked_available d st st' edef es :
  _update_element_statuses d st = Some st' →
  edef ∈ gd_elements d →
  elements st !! ed_id edef = Some es → es_unlocked es = true →
  ∃ es', elements st' !! ed_id edef = Some es'
         ∧ es_unlocked es' = true ∧ es_available es' = true.
Proof.
  unfold _update_element_statuses. set (id := ed_id edef).
  set (body := λ (st : GameState) (edef : ElementDef), _).
  intros Hrun Hin Hes Hu.
  assert (Hgen : ∀ l s s',
    for_each body l s = Some s' →
    (∃ e, elements s !! id = Some e ∧ es_unlocked e = true) →
    ((∃ e, elements s !! id = Some e ∧ es_unlocked e = true ∧ es_available e = true)
     ∨ ∃ x, x ∈ l ∧ ed_id x = id) →
    ∃ e, elements s' !! id = Some e ∧ es_unlocked e = true ∧ es_available e = true).
  { clear. induction l as [|x l IH]; intros s s' Hrun HQ HP; simpl in Hrun.
    - injection Hrun as <-. destruct HP as [HP|(x & Hx & _)]; [done|]. by apply elem_of_nil in Hx.
    - destruct (body s x) as [s1|] eqn:Hb; simpl in Hrun; [|done].
      assert (Hs1 : (∃ e, elements s1 !! id = Some e ∧ es_unlocked e = true)
                    ∧ ((∃ e, elements s !! id = Some e ∧ es_unlocked e = true
                             ∧ es_available e = true) ∨ ed_id x = id →
                       ∃ e, elements s1 !! id = Some e ∧ es_unlocked e = true
                            ∧ es_available e = true)).
      { unfold body in Hb.
        destruct (elements s !! ed_id x) as [ex|] eqn:Hex; simpl in Hb; [|done].
        set (av := if negb (es_unlocked ex) then _ else true) in Hb.
        destruct HQ as (e & He & Hue).
        assert (Hav : ed_id x = id → av = true).
        { intros Hid. unfold av. rewrite Hid in Hex.
          replace ex with e by congruence. by rewrite Hue. }
        assert (Hfin : ∀ b, 
          let s2 := put_element (put_element s (ed_id x) (with_available ex av))
                      (ed_id x) (with_affordable (with_available ex av) b) in
          (∃ e, elements s2 !! id = Some e ∧ es_unlocked e = true)
          ∧ ((∃ e, elements s !! id = Some e ∧ es_unlocked e = true
                   ∧ es_available e = true) ∨ ed_id x = id →
             ∃ e, elements s2 !! id = Some e ∧ es_unlocked e = true
                  ∧ es_available e = true)).
        { intros b s2. unfold s2. simpl.
          destruct (decide (ed_id x = id)) as [Hid|Hne].
          - rewrite Hid, lookup_insert_eq. rewrite Hid in Hex.
            assert (ex = e) as -> by congruence.
            split; [by eexists|]. intros _. eexists; split; [done|]. simpl.
            split; [done|]. unfold av. by rewrite Hue.
          - rewrite !lookup_insert_ne by done.
            split; [by eexists|]. intros [HP'|?]; [done | congruence]. }
        destruct (av && _) in Hb.
        - destruct (_apply_cost_effects _ _ _ _); simpl in Hb; [|done].
          injection Hb as <-. apply Hfin.
        - injection Hb as <-. apply Hfin. }
      destruct Hs1 as [HQ1 HP1].
      eapply IH; [done | done |].
      destruct HP as [HP|(y & Hy & Hyid)].
      + left. apply HP1. by left.
      + apply elem_of_cons in Hy as [->|Hy].
        * left. apply HP1. by right.
        * right. by exists y. }
  eapply Hgen; [exact Hrun | by eexists | right; by exists edef].
Qed.

(** C10.  Provided the game's own callables leave unlocked elements
    unlocked: over every sequence of public operations an unlocked element
    stays unlocked, a prestige reset naming it included; an UNLOCK effect
    sets the flag; and every status update makes every unlocked element of
    the definition available, whatever its requirements evaluate to. *)
Theorem unlocked_is_a_one_way_latch (rt : GameRuntime) :
  hooks_respect unlocked_kept rt →
  (∀ ops rt', apply_ops rt ops = Some rt' → unlocked_kept (state rt) (state rt'))
  ∧ (∀ layer_id res rt', trigger_prestige rt layer_id = Some (res, rt') →
       unlocked_kept (state rt) (state rt'))
  ∧ (∀ st eff es, eff_type eff = EffectType.UNLOCK →
       elements st !! eff_target eff = Some es →
       ∃ es', elements (_apply_immediate_effect st eff) !! eff_target eff = Some es'
              ∧ es_unlocked es' = true)
  ∧ (∀ st st' edef es,
       _update_element_statuses (definition rt) st = Some st' →
       edef ∈ gd_elements (definition rt) →
       elements st !! ed_id edef = Some es → es_unlocked es = true →
       ∃ es', elements st' !! ed_id edef = Some es'
              ∧ es_unlocked es' = true ∧ es_available es' = true).
Proof.
  intros Hhooks. repeat split.
  - intros ops rt' H. by eapply (engine_apply_ops _ unlocked_kept_invariant).
  - intros layer_id res rt' H.
    by eapply (engine_trigger_prestige _ unlocked_kept_invariant).
  - intros st eff es Hty Hes. unfold _apply_immediate_effect. rewrite Hty, Hes. simpl.
    rewrite lookup_insert_eq. by eexists.
  - intros st st' edef es. apply update_statuses_unlocked_available.
Qed.

(** ** Milestones fire once (runtime.py, _check_milestones; simulation.py) *)

(** A milestone that is already recorded is skipped: the state is returned
    as it is, the trigger and the callback are not consulted. *)
Lemma check_milestone_reached st mdef :
  has_milestone st (md_id mdef) = true → check_milestone st mdef = st.
Proof. unfold has_milestone, check_milestone. by intros ->. Qed.

Lemma milestones_kept_has_milestone st st' mid :
  milestones_kept st st' → has_milestone st mid = true → has_milestone st' mid = true.
Proof.
  unfold has_milestone. rewrite !dict_mem_get. intros Hk [t Ht]. exists t. by apply Hk.
Qed.

(** The milestones recorded in [st0] can be dropped from the list the loop
    walks over. *)
Lemma check_milestones_skip_reached (ms : list MilestoneDef) (st0 st : GameState) :
  (∀ mdef f s, mdef ∈ ms → md_on_trigger mdef = Some f → milestones_kept s (f s)) →
  milestones_kept st0 st →
  foldl check_milestone st ms
  = foldl check_milestone st
      (filter (λ mdef, has_milestone st0 (md_id mdef) = false) ms).
Proof.
  revert st. induction ms as [|m ms IH]; intros st Hhook Hkept; [done|].
  rewrite filter_cons. simpl.
  assert (Hms : ∀ mdef f s, mdef ∈ ms → md_on_trigger mdef = Some f →
                            milestones_kept s (f s)).
  { intros ??? Hin. apply Hhook. by right. }
  destruct (has_milestone st0 (md_id m)) eqn:Hm.
  - rewrite decide_False by done.
    rewrite check_milestone_reached by (by eapply milestones_kept_has_milestone).
    by apply IH.
  - rewrite decide_True by done. simpl. apply IH; [done|].
    pose proof (ei_preorder _ milestones_kept_invariant).
    transitivity st; [done|].
    apply (engine_check_milestone _ milestones_kept_invariant).
    intros f s. apply Hhook. by left.
Qed.

(** Recording a purchase or a prestige leaves the milestone log alone. *)
Lemma buy_in_order_milestones to_buy acc acc' :
  buy_in_order to_buy acc = Some acc' → milestones acc'.1.2 = milestones acc.1.2.
Proof.
  unfold buy_in_order.
  set (Rm := λ a a' : GameRuntime * MetricsCollector * SimulationContext,
              milestones a'.1.2 = milestones a.1.2).
  assert (PreOrder Rm) by (split; [by intros ? | intros ??? H1 H2; unfold Rm in *; congruence]).
  apply (for_each_preserves Rm). unfold Rm.
  intros [[rt c] ctx] eid [[rt' c'] ctx'] _ Hb. simpl.
  destruct (compute_current_cost rt eid); simpl in Hb; [|done].
  destruct (try_purchase rt eid) as [[[] r]|]; simpl in Hb; [| |done].
  - destruct (get_affordable_purchases r); simpl in Hb; [|done]. by injection Hb as <- <- <-.
  - by injection Hb as <- <- <-.
Qed.

Lemma evaluate_prestige_milestones {S} (strategy : Strategy S) s acc acc' :
  evaluate_prestige strategy s acc = Some acc' → milestones acc'.2 = milestones acc.2.
Proof.
  unfold evaluate_prestige.
  set (Rm := λ a a' : GameRuntime * MetricsCollector, milestones a'.2 = milestones a.2).
  assert (PreOrder Rm) by (split; [by intros ? | intros ??? H1 H2; unfold Rm in *; congruence]).
  apply (for_each_preserves Rm). unfold Rm.
  intros [rt c] layer [rt' c'] _ Hb. simpl.
  destruct (should_prestige _ _ _ _); [|by injection Hb as <- <-].
  destruct (trigger_prestige rt (pl_id layer)) as [[res r]|]; simpl in Hb; [|done].
  destruct (success res); by injection Hb as <- <-.
Qed.

Lemma record_new_milestones_guarded st seen collector :
  log_guarded seen collector →
  log_guarded (record_new_milestones st (seen, collector)).1
              (record_new_milestones st (seen, collector)).2.
Proof.
  unfold record_new_milestones. generalize (milestones_reached st) as l.
  intros l. revert seen collector.
  induction l as [|[mid t] l IH]; intros seen collector Hg; simpl; [done|].
  case_bool_decide as Hseen; [|by apply IH].
  apply IH. destruct Hg as [Hnd Hsub]. split; simpl.
  - rewrite fmap_app. simpl. apply NoDup_app. split; [done|]. split.
    + intros x Hx. rewrite list_elem_of_singleton. intros ->. by apply Hseen, Hsub.
    + apply NoDup_singleton.
  - intros x. rewrite fmap_app, elem_of_app. simpl.
    rewrite list_elem_of_singleton. intros [Hx| ->]; [|set_solver].
    apply elem_of_union_r. by apply Hsub.
Qed.

Lemma tick_iteration_guarded {S} (strategy : Strategy S) res sim sim' aborted :
  tick_iteration strategy res sim = Some (sim', aborted) →
  log_guarded (sim_milestones_seen sim) (sim_collector sim) →
  log_guarded (sim_milestones_seen sim') (sim_collector sim').
Proof.
  unfold tick_iteration. intros H Hg.
  destruct (tick _ _) as [rt1|]; simpl in H; [|done].
  destruct (replay_clicks _ _) as [rt2|]; simpl in H; [|done].
  destruct (get_affordable_purchases _) as [aff|]; simpl in H; [|done].
  destruct (decide_purchases _ _ _ _) as [[[to_buy s] rt3]|]; simpl in H; [|done].
  destruct (buy_in_order _ _) as [[[rt4 c4] ctx4]|] eqn:Hbuy; simpl in H; [|done].
  destruct (evaluate_prestige _ _ _) as [[rt5 c5]|] eqn:Hpre; simpl in H; [|done].
  apply buy_in_order_milestones in Hbuy. apply evaluate_prestige_milestones in Hpre.
  simpl in Hbuy, Hpre.
  assert (Hg5 : log_guarded (sim_milestones_seen sim) c5).
  { unfold log_guarded. rewrite Hpre, Hbuy. exact Hg. }
  pose proof (record_new_milestones_guarded (state rt5) _ _ Hg5) as Hrec.
  destruct (record_new_milestones _ _) as [seen' c6]. by injection H as <- <-.
Qed.

Lemma tick_loop_guarded {S} (strategy : Strategy S) terminal res budget sim sim' outcome :
  tick_loop strategy terminal res budget sim = Some (sim', outcome) →
  log_guarded (sim_milestones_seen sim) (sim_collector sim) →
  log_guarded (sim_milestones_seen sim') (sim_collector sim').
Proof.
  revert sim. induction budget as [|budget IH]; intros sim H Hg; simpl in H.
  - destruct (is_met _ _ _); by injection H as <- <-.
  - destruct (is_met _ _ _); [by injection H as <- <-|].
    destruct (tick_iteration _ _ _) as [[sim1 []]|] eqn:Hit; simpl in H; [| |done].
    + injection H as <- <-. by eapply tick_iteration_guarded.
    + eapply IH; [done|]. by eapply tick_iteration_guarded.
Qed.

(** C6.  Provided the game's own callables leave recorded milestones
    alone: over every sequence of public operations a recorded milestone
    keeps its recorded time; a milestone fires with the elapsed time as its
    recorded time; the milestones already recorded can be dropped from the
    list [_check_milestones] walks over without changing its result (their
    triggers and callbacks are not consulted again); and, with no
    assumption at all, no milestone id occurs twice in the milestone log of
    a tick-mode run of a fresh simulation, [_run_tick] included. *)
Theorem milestone_fires_at_most_once (rt : GameRuntime) :
  hooks_respect milestones_kept rt →
  (∀ ops rt', apply_ops rt ops = Some rt' → milestones_kept (state rt) (state rt'))
  ∧ (∀ st mdef trigger,
       has_milestone st (md_id mdef) = false →
       md_trigger mdef = Some trigger → evaluate trigger st = true →
       md_on_trigger mdef = None →
       dict_get (md_id mdef) (milestones_reached (check_milestone st mdef))
       = Some (time_elapsed st))
  ∧ (∀ st,
       _check_milestones (definition rt) st
       = foldl check_milestone st
           (filter (λ mdef, has_milestone st (md_id mdef) = false)
              (gd_milestones (definition rt))))
  ∧ (∀ S (strategy : Strategy S) terminal tick_resolution budget s0 sim report sim',
       Simulation_init (definition rt) s0 = Some sim →
       run_from strategy terminal tick_resolution budget sim = Some (report, sim') →
       NoDup (me_milestone_id <$> report_milestones report))
  ∧ (∀ S (strategy : Strategy S) terminal tick_resolution s0 sim report sim',
       Simulation_init (definition rt) s0 = Some sim →
       _run_tick strategy terminal tick_resolution sim = Some (report, sim') →
       NoDup (me_milestone_id <$> report_milestones report)).
Proof.
  intros Hhooks.
  assert (Hrun : ∀ S (strategy : Strategy S) terminal tick_resolution budget s0 sim report sim',
       Simulation_init (definition rt) s0 = Some sim →
       run_from strategy terminal tick_resolution budget sim = Some (report, sim') →
       NoDup (me_milestone_id <$> report_milestones report)).
  { intros S strategy terminal res budget s0 sim report sim' Hinit Hr.
    unfold Simulation_init in Hinit.
    destruct (GameRuntime_init _) as [rt0|]; simpl in Hinit; [|done].
    injection Hinit as <-. unfold run_from in Hr.
    destruct (tick_loop _ _ _ _ _) as [[sim1 outcome]|] eqn:Hloop; simpl in Hr; [|done].
    injection Hr as <- <-. simpl.
    apply tick_loop_guarded in Hloop; [apply Hloop|].
    split; simpl; [apply NoDup_nil_2 | by intros ? ?%elem_of_nil]. }
  split; [|split; [|split; [|split]]].
  - intros ops rt' H. by eapply (engine_apply_ops _ milestones_kept_invariant).
  - intros st mdef trigger Hnot Htrig Hev Hcb. unfold check_milestone.
    unfold has_milestone in Hnot. rewrite Hnot, Htrig, Hev, Hcb. simpl.
    by apply dict_get_set_new.
  - intros st. unfold _check_milestones. apply check_milestones_skip_reached.
    + destruct Hhooks as (_ & Hm & _). intros mdef f s Hin Hf. by eapply Hm.
    + by intros ??.
  - exact Hrun.
  - intros S strategy terminal res s0 sim report sim'. unfold _run_tick. apply Hrun.
Qed.

(** ** Prestige below the minimum reward (runtime.py, trigger_prestige) *)

Lemma trigger_prestige_failure_unchanged rt layer_id res rt' :
  trigger_prestige rt layer_id = Some (res, rt') → success res = false → rt' = rt.
Proof.
  unfold trigger_prestige. intros H Hfail.
  destruct (get_prestige_layer _ _) as [layer|]; [|by injection H as <- <-].
  destruct (negb (forallb _ _)); [by injection H as <- <-|].
  destruct (pl_reward_formula layer) as [formula|]; [|by injection H as <- <-].
  destruct (float_lt _ _); [by injection H as <- <-|].
  destruct (_update_element_statuses _ _); simpl in H; [|done].
  injection H as <- <-. done.
Qed.

(** C7.  When a call reaches the reward formula of a layer (the layer is
    known and its requirements hold) and the formula evaluates below the
    layer's minimum, [trigger_prestige] returns: the result is a failure, it
    carries the computed reward and a non-empty reason, and the runtime it
    leaves is the runtime it was given; more generally every failure
    result leaves the runtime as it was. *)
Theorem prestige_below_minimum_rejected (rt : GameRuntime) (layer_id : string)
    (layer : PrestigeLayerDef) (formula : GameState → float) :
  get_prestige_layer (definition rt) layer_id = Some layer →
  forallb (λ req, evaluate req (state rt)) (pl_requirements layer) = true →
  pl_reward_formula layer = Some formula →
  float_lt (formula (state rt)) (pl_minimum_reward layer) = true →
  (∃ res, trigger_prestige rt layer_id = Some (res, rt)
          ∧ success res = false
          ∧ reward_amount res = formula (state rt)
          ∧ reason res = RewardBelowMinimum (formula (state rt)) (pl_minimum_reward layer)
          ∧ ∀ fmt2, reason_string fmt2 (reason res) ≠ "")
  ∧ (∀ res rt', trigger_prestige rt layer_id = Some (res, rt') →
                success res = false → rt' = rt).
Proof.
  intros Hlayer Hreq Hformula Hlow. split.
  - unfold trigger_prestige. rewrite Hlayer, Hreq, Hformula. simpl. rewrite Hlow.
    eexists. split; [done|]. simpl. repeat split. intros fmt2. discriminate.
  - intros res rt'. apply trigger_prestige_failure_unchanged.
Qed.

(** ** Purchases are atomic (runtime.py, try_purchase) *)

(** What the deduction loop does to each currency. *)
Lemma deduct_items (l : list (string * float)) (st st' : GameState) :
  NoDup l.*1 →
  for_each (λ st '(cur_id, amount),
      cs ← currencies st !! cur_id;
      Some (put_currency st cur_id (with_current cs (cs_current cs - amount))))
    l st = Some st' →
  (∀ cur_id amount, (cur_id, amount) ∈ l →
     ∃ cs, currencies st !! cur_id = Some cs
           ∧ currencies st' !! cur_id = Some (with_current cs (cs_current cs - amount)))
  ∧ (∀ cur_id, cur_id ∉ l.*1 → currencies st' !! cur_id = currencies st !! cur_id).
Proof.
  revert st. induction l as [|[c a] l IH]; intros st Hnd Hrun; simpl in Hrun.
  - injection Hrun as <-. split; [by intros ?? ?%elem_of_nil | done].
  - destruct (currencies st !! c) as [cs|] eqn:Hc; simpl in Hrun; [|done].
    apply NoDup_cons in Hnd as [Hfresh Hnd].
    destruct (IH _ Hnd Hrun) as [Hin Hout]. simpl in *. split.
    + intros cur amount [[= -> ->]|Hmem]%elem_of_cons.
      * exists cs. split; [done|]. rewrite (Hout _ Hfresh). apply lookup_insert_eq.
      * destruct (Hin _ _ Hmem) as (cs' & H1 & H2).
        assert (c ≠ cur).
        { intros ->. apply Hfresh. apply list_elem_of_fmap. by exists (cur, amount). }
        rewrite lookup_insert_ne in H1 by done. by exists cs'.
    + intros cur Hcur. apply not_elem_of_cons in Hcur as [Hne Hcur].
      rewrite (Hout _ Hcur). by rewrite lookup_insert_ne.
Qed.

Lemma deduct_costs_exact st cost st' :
  deduct_costs st cost = Some st' →
  (∀ cur_id amount, cost !! cur_id = Some amount →
     ∃ cs, currencies st !! cur_id = Some cs
           ∧ currencies st' !! cur_id = Some (with_current cs (cs_current cs - amount)))
  ∧ (∀ cur_id, cost !! cur_id = None → currencies st' !! cur_id = currencies st !! cur_id).
Proof.
  intros H. destruct (deduct_items _ _ _ (NoDup_fst_map_to_list cost) H) as [Hin Hout].
  split.
  - intros cur amount Hc. apply Hin. by apply elem_of_map_to_list.
  - intros cur Hc. apply Hout. intros Hmem.
    apply list_elem_of_fmap in Hmem as ([c a] & -> & Hmem).
    apply elem_of_map_to_list in Hmem. simpl in Hc. congruence.
Qed.

(** Immediate effects change no count, and touch a balance only through a
    GRANT that targets it. *)
Lemma apply_immediate_effects_counts st effs id :
  es_count <$> elements (apply_immediate_effects st effs) !! id
  = es_count <$> elements st !! id.
Proof.
  unfold apply_immediate_effects.
  set (Rc := λ s s' : GameState, es_count <$> elements s' !! id = es_count <$> elements s !! id).
  assert (PreOrder Rc) by (split; [by intros ? | intros ??? H1 H2; unfold Rc in *; congruence]).
  apply (foldl_preserves Rc). intros s eff _. unfold Rc.
  destruct (EffectPhase.eqb _ _); [|done]. unfold _apply_immediate_effect.
  destruct (eff_type eff); try done.
  - by destruct (currencies s !! _).
  - destruct (elements s !! eff_target eff) as [es|] eqn:Hes; [|done]. simpl.
    destruct (decide (eff_target eff = id)) as [<-|].
    + by rewrite lookup_insert_eq, Hes.
    + by rewrite lookup_insert_ne.
Qed.

Lemma apply_immediate_effects_currency st effs cur_id :
  (∀ eff, eff ∈ effs → eff_type eff = EffectType.GRANT → eff_target eff ≠ cur_id) →
  currencies (apply_immediate_effects st effs) !! cur_id = currencies st !! cur_id.
Proof.
  intros Hno. unfold apply_immediate_effects.
  set (Rc := λ s s' : GameState, currencies s' !! cur_id = currencies s !! cur_id).
  assert (PreOrder Rc) by (split; [by intros ? | intros ??? H1 H2; unfold Rc in *; congruence]).
  apply (foldl_preserves Rc). intros s eff Hin. unfold Rc.
  destruct (EffectPhase.eqb _ _); [|done]. unfold _apply_immediate_effect.
  destruct (eff_type eff) eqn:Hty; try done.
  - destruct (currencies s !! eff_target eff); [|done]. simpl.
    rewrite lookup_insert_ne; [done|]. by apply Hno.
  - by destruct (elements s !! _).
Qed.


Lemma has_no_hooks_respect (R : GameState → GameState → Prop) (rt : GameRuntime) :
  has_no_hooks rt = true → hooks_respect R rt.
Proof.
  unfold has_no_hooks. intros [[He Hm]%andb_prop Hs%bool_decide_eq_true_1]%andb_prop.
  rewrite forallb_forall in He, Hm. repeat split.
  - intros edef f st Hin Hf. apply list_elem_of_In, He, bool_decide_eq_true_1 in Hin. congruence.
  - intros mdef f st Hin Hf. apply list_elem_of_In, Hm, bool_decide_eq_true_1 in Hin. congruence.
  - intros sub st delta Hin. rewrite Hs in Hin. by apply elem_of_nil in Hin.
Qed.

(** ** Where the code departs from the specification *)

(** The part of the reset that holds: a listed currency the state and the
    definition know ends the reset loop at (initial, initial, rate 0). *)
Lemma reset_currencies_initial d st ids cid cs cdef :
  cid ∈ ids → currencies st !! cid = Some cs → get_currency d cid = Some cdef →
  currencies (reset_currencies d st ids) !! cid
  = Some (mkCurrencyState (cd_initial_value cdef) (cd_initial_value cdef) 0).
Proof.
  intros Hin Hcs Hdef. unfold reset_currencies.
  set (done_ := mkCurrencyState (cd_initial_value cdef) (cd_initial_value cdef) 0).
  set (step := λ (st : GameState) (cid : string), _).
  assert (Hstep_other : ∀ s c, is_Some (currencies s !! cid) →
            is_Some (currencies (step s c) !! cid)
            ∧ (currencies s !! cid = Some done_ → currencies (step s c) !! cid = Some done_)
            ∧ (c = cid → currencies (step s c) !! cid = Some done_)).
  { intros s c [x Hx]. unfold step.
    destruct (decide (c = cid)) as [->|Hne].
    - rewrite Hx, Hdef. simpl. rewrite lookup_insert_eq. by repeat split.
    - destruct (currencies s !! c); simpl; rewrite ?lookup_insert_ne by done;
        rewrite Hx; by repeat split. }
  assert (Hgen : ∀ l s, is_Some (currencies s !! cid) →
            (currencies s !! cid = Some done_ ∨ cid ∈ l) →
            currencies (foldl step s l) !! cid = Some done_).
  { induction l as [|c l IH]; intros s Hs H; simpl.
    - destruct H as [H|H]; [done | by apply elem_of_nil in H].
    - destruct (Hstep_other s c Hs) as (Hs' & Hkeep & Hset).
      apply IH; [done|]. destruct H as [H|[->|H]%elem_of_cons]; auto. }
  apply Hgen; [by eexists | by right].
Qed.

(** C3.  A prestige layer whose explicit [currencies_reset] list names a
    persistent currency resets it: "gems" is persistent, holds 1 after a
    click, and holds its initial value 0 after the successful prestige.
    (The element loop of the same function skips elements tagged
    persistent; the currency loop has no such test.) *)
Theorem explicit_reset_list_resets_persistent_currency :
  let rt := Fixtures.after (Fixtures.runtime_of (Fixtures.prestige_game 1 10))
              [ProcessClick "gems"] in
  (cd_persistent <$> get_currency (definition rt) "gems") = Some true
  ∧ (currency_value (state rt) "gems", total_earned (state rt) "gems") = (1, 1)%float
  ∧ (r ← trigger_prestige rt "ascend";
     Some (success r.1, currencies_reset r.1,
           currency_value (state r.2) "gems", total_earned (state r.2) "gems"))
    = Some (true, ["gold"; "gems"], 0%float, 0%float).
Proof. vm_compute. repeat split. Qed.

(** C4.  GreedyROI's speculative purchase and undo does not give back the
    state it started from.  In the miner game the only candidate costs the
    whole balance: after [decide_purchases] the count, the balance and the
    rate are as before, but the element's [affordable] flag, true before,
    is false.  In the chest game the chest's GRANT is not undone: "gems"
    goes from 0 to 50 in balance and in total earned, with no purchase
    made. *)
Theorem greedy_roi_undo_is_not_a_round_trip :
  (let rt := Fixtures.runtime_of Fixtures.miner_game in
   (es_affordable <$> elements (state rt) !! "miner") = Some true
   ∧ (affordable ← get_affordable_purchases rt;
      r ← GreedyROI.decide_purchases true rt affordable;
      Some (r.1, element_count (state r.2) "miner", currency_value (state r.2) "gold",
            es_affordable <$> elements (state r.2) !! "miner"))
     = Some (["miner"], 0, 100%float, Some false))
  ∧ (let rt := Fixtures.runtime_of Fixtures.chest_game in
     (currency_value (state rt) "gems", total_earned (state rt) "gems") = (0, 0)%float
     ∧ (affordable ← get_affordable_purchases rt;
        r ← GreedyROI.decide_purchases true rt affordable;
        Some (r.1, element_count (state r.2) "chest", currency_value (state r.2) "gold",
              currency_value (state r.2) "gems", total_earned (state r.2) "gems"))
       = Some (["chest"], 0, 100%float, 50%float, 50%float)).
Proof. vm_compute. repeat split. Qed.

(** C5.  A click whose value is negative lowers total_earned: with the
    curse owned (CLICK_FLAT -3 on a base click value of 1) a click is worth
    -2, and total_earned goes from 10 to 8.  ([tick] and GRANT add to
    total_earned only when the amount is positive; [process_click] and the
    auto-click loop add unconditionally.) *)
Theorem process_click_can_lower_total_earned :
  let rt := Fixtures.after (Fixtures.runtime_of Fixtures.curse_game) [TryPurchase "curse"] in
  total_earned (state rt) "gold" = 10%float
  ∧ (r ← process_click rt "gold"; Some (r.1, total_earned (state r.2) "gold"))
    = Some ((-2)%float, 8%float)
  ∧ float_lt 8 10 = true.
Proof. vm_compute. repeat split. Qed.

(** What the loop of [compute_time_to_afford] returns on a cost with
    items: None exactly when some item is not met and its currency's rate
    is not above 0; otherwise a float that is not below 0 (it can be an
    infinity), and 0 when every item is met. *)
Lemma time_to_afford_loop_spec st items max_time :
  PrimFloat.leb 0 max_time = true →
  (time_to_afford_loop st items max_time = None ↔
     ∃ cur_id amount, (cur_id, amount) ∈ items
       ∧ float_ge (currency_value st cur_id) amount = false
       ∧ float_le (currency_rate st cur_id) 0 = true)
  ∧ (∀ t, time_to_afford_loop st items max_time = Some t → PrimFloat.leb 0 t = true)
  ∧ ((∀ cur_id amount, (cur_id, amount) ∈ items →
        float_ge (currency_value st cur_id) amount = true) →
     time_to_afford_loop st items max_time = Some max_time).
Proof.
  revert max_time. induction items as [|[c a] items IH]; intros m Hm; simpl.
  - split; [|split].
    + split; [done|]. intros (?&?&Hin&_). by apply elem_of_nil in Hin.
    + intros t [= <-]. exact Hm.
    + done.
  - destruct (float_ge (currency_value st c) a) eqn:Hge.
    + destruct (IH m Hm) as (Hnone & Hpos & Hall). split; [|split].
      * rewrite Hnone. split.
        -- intros (c' & a' & Hin & H1 & H2). exists c', a'. split; [by right | done].
        -- intros (c' & a' & [[= -> ->]|Hin]%elem_of_cons & H1 & H2); [congruence|].
           by exists c', a'.
      * exact Hpos.
      * intros H. apply Hall. intros ???. apply H. by right.
    + destruct (float_le (currency_rate st c) 0) eqn:Hrate.
      * split; [|split].
        -- split; [|done]. intros _. exists c, a. split; [by left | done].
        -- done.
        -- intros H. rewrite (H c a) in Hge by left. done.
      * set (t := ((a - currency_value st c) / currency_rate st c)%float).
        assert (Hm' : PrimFloat.leb 0 (if float_gt t m then t else m) = true).
        { destruct (float_gt t m) eqn:Hgt; [|done]. by eapply float_nonneg_lt. }
        destruct (IH _ Hm') as (Hnone & Hpos & Hall). split; [|split].
        -- rewrite Hnone. split.
           ++ intros (c' & a' & Hin & H1 & H2). exists c', a'. split; [by right | done].
           ++ intros (c' & a' & [[= -> ->]|Hin]%elem_of_cons & H1 & H2); [congruence|].
              by exists c', a'.
        -- exact Hpos.
        -- intros H. rewrite (H c a) in Hge by left. done.
Qed.

(** With a balance of 0, a cost of 1 and the smallest positive rate the
    quotient overflows: the time returned is an infinity. *)
Example time_to_afford_overflows :
  let st := mkGameState 0 {["gold" := mkCurrencyState 0 0 (Z.ldexp 1 (-1074))]} ∅ [] ∅ 1 in
  float_gt (currency_rate st "gold") 0 = true
  ∧ time_to_afford_loop st [("gold", 1%float)] 0 = Some infinity.
Proof. vm_compute. split; reflexivity. Qed.

(** C8.  For an element that costs nothing (the default [base_cost]) the
    cost is met now: the status refresh marks it affordable, and a purchase
    succeeds.  [compute_time_to_afford] returns None for it, the value that
    stands for "never", instead of 0. *)
Theorem time_to_afford_of_a_free_element_is_none :
  let rt := Fixtures.runtime_of Fixtures.farm_game in
  compute_current_cost rt "farm" = Some ∅
  ∧ (es_affordable <$> elements (state rt) !! "farm") = Some true
  ∧ (r ← try_purchase rt "farm"; Some r.1) = Some true
  ∧ compute_time_to_afford rt "farm" = Some None.
Proof. vm_compute. repeat split. Qed.

Lemma per_count_warnings_unmarked (e : ElementDef) :
  (∀ eff, eff ∈ ed_effects e → eff_created_by eff = None) → per_count_warnings e = [].
Proof.
  unfold per_count_warnings. induction (ed_effects e) as [|eff l IH]; intros H; [done|].
  simpl. rewrite (H eff) by left. simpl. apply IH. intros ??. apply H. by right.
Qed.

(** C9.  No effect built by [Effect.per_count] carries the marker
    [_created_by] the warning loop of [validate] looks for, so a definition
    whose effects come from the helpers gets no warning, whatever the
    effect types: the game with a per-count PRODUCTION_MULT validates with
    no error and no warning. *)
Theorem per_count_multiplier_gets_no_warning :
  (∀ element type target per_unit condition,
     eff_created_by (Effect.per_count element type target per_unit condition) = None)
  ∧ (∀ d, (∀ e eff, e ∈ gd_elements d → eff ∈ ed_effects e → eff_created_by eff = None) →
          (validate d).2 = [])
  ∧ (∃ e eff, e ∈ gd_elements Fixtures.multiplier_game ∧ eff ∈ ed_effects e
              ∧ eff = Effect.per_count "press" EffectType.PRODUCTION_MULT "gold" 2 None)
  ∧ validate Fixtures.multiplier_game = ([], []).
Proof.
  split; [done|]. split; [|split].
  - intros d H. unfold validate. simpl.
    induction (gd_elements d) as [|e l IH]; [done|]. simpl.
    rewrite per_count_warnings_unmarked; [apply IH|].
    + intros ????. eapply H; [by right | done].
    + intros ??. eapply H; [by left | done].
  - eexists _, _. split; [by left|]. split; [by left | done].
  - vm_compute. done.
Qed.

(** ** The theorems at concrete games *)

Lemma compute_rate_formula_witness :
  _custom ProductionPipeline_init !! "gold" = None
  ∧ compute_rate ProductionPipeline_init "gold"
      [(EffectType.PRODUCTION_FLAT, 10%float); (EffectType.PRODUCTION_ADD_PCT, 0.5%float);
       (EffectType.CLICK_FLAT, 7%float);
       (EffectType.PRODUCTION_MULT, 2%float); (EffectType.GLOBAL_MULT, 3%float)]
      Fixtures.no_state = 90%float
  ∧ compute_click_value ProductionPipeline_init "gold" 1 [] Fixtures.no_state = 1%float.
Proof.
  destruct (compute_rate_formula ProductionPipeline_init "gold" Fixtures.no_state eq_refl)
    as (Hformula & _ & Hclick & _).
  split; [reflexivity|]. split.
  - rewrite Hformula. reflexivity.
  - apply Hclick.
Defined.


Lemma milestone_fires_at_most_once_witness :
  let rt := Fixtures.runtime_of Fixtures.vault_game in
  hooks_respect milestones_kept rt
  ∧ (∃ rt' t, apply_ops rt [Tick 1; TryPurchase "key"; Tick 1; TriggerPrestige "ascend"; Tick 1]
              = Some rt'
            ∧ dict_get "started" (milestones_reached (state (Fixtures.after rt [Tick 1])))
              = Some t
            ∧ dict_get "started" (milestones_reached (state rt')) = Some t)
  ∧ ∃ sim report sim',
      Simulation_init (definition rt) () = Some sim
      ∧ run_from Fixtures.buy_everything (TimeTerminal 3) 1 10 sim = Some (report, sim')
      ∧ (me_milestone_id <$> report_milestones report) = ["started"]
      ∧ NoDup (me_milestone_id <$> report_milestones report).
Proof.
  intros rt.
  assert (Hhooks : hooks_respect milestones_kept rt)
    by (apply has_no_hooks_respect; vm_compute; reflexivity).
  destruct (milestone_fires_at_most_once rt Hhooks) as (Hops & _ & _ & Hrun & _).
  split; [exact Hhooks|]. split.
  - set (rt1 := Fixtures.after rt [Tick 1]).
    set (rt' := Fixtures.after rt1 [TryPurchase "key"; Tick 1; TriggerPrestige "ascend"; Tick 1]).
    exists rt', 1%float.
    assert (H1 : apply_ops rt [Tick 1] = Some rt1) by (vm_compute; reflexivity).
    assert (H2 : apply_ops rt [Tick 1; TryPurchase "key"; Tick 1; TriggerPrestige "ascend"; Tick 1]
                 = Some rt') by (vm_compute; reflexivity).
    assert (Ht : dict_get "started" (milestones_reached (state rt1)) = Some 1%float)
      by (vm_compute; reflexivity).
    split; [exact H2|]. split; [exact Ht|].
    assert (H3 : apply_ops rt1 [TryPurchase "key"; Tick 1; TriggerPrestige "ascend"; Tick 1]
                 = Some rt') by (vm_compute; reflexivity).
    assert (Hhooks1 : hooks_respect milestones_kept rt1)
      by (apply has_no_hooks_respect; vm_compute; reflexivity).
    destruct (milestone_fires_at_most_once rt1 Hhooks1) as (Hops1 & _).
    exact (Hops1 _ _ H3 _ _ Ht).
  - set (sim := default (mkSimState rt MetricsCollector_init (mkSimulationContext 0 false 0) () ∅)
                  (Simulation_init (definition rt) ())).
    set (r := run_from Fixtures.buy_everything (TimeTerminal 3) 1 10 sim).
    assert (Hinit : Simulation_init (definition rt) () = Some sim) by (vm_compute; reflexivity).
    destruct r as [[report sim']|] eqn:Hr.
    + exists sim, report, sim'. split; [exact Hinit|]. split; [exact Hr|]. split.
      * assert (Hlog : (λ p, me_milestone_id <$> report_milestones p.1) <$> r
                       = Some ["started"]) by (vm_compute; reflexivity).
        rewrite Hr in Hlog. simpl in Hlog. by injection Hlog.
      * exact (Hrun unit Fixtures.buy_everything (TimeTerminal 3) 1%float 10%nat ()
                 sim report sim' Hinit Hr).
    + exfalso. assert (Hsome : is_Some r) by (vm_compute; eauto).
      rewrite Hr in Hsome. by destruct Hsome.
Defined.

Lemma prestige_below_minimum_rejected_witness :
  let rt := Fixtures.runtime_of (Fixtures.prestige_game 1 0.5) in
  ∃ layer formula res,
    get_prestige_layer (definition rt) "ascend" = Some layer
    ∧ forallb (λ req, evaluate req (state rt)) (pl_requirements layer) = true
    ∧ pl_reward_formula layer = Some formula
    ∧ float_lt (formula (state rt)) (pl_minimum_reward layer) = true
    ∧ trigger_prestige rt "ascend" = Some (res, rt)
    ∧ success res = false
    ∧ reward_amount res = 0.5%float
    ∧ reason res = RewardBelowMinimum 0.5 1.
Proof.
  intros rt.
  set (layer := mkPrestigeLayerDef "ascend" "pts" (Some (λ _, 0.5%float))
                  (ResetList ["gold"; "gems"]) (ResetList ["miner"])
                  [ResourceRequirement "gold" OpGe 500] 1).
  assert (Hlayer : get_prestige_layer (definition rt) "ascend" = Some layer)
    by (vm_compute; reflexivity).
  assert (Hreq : forallb (λ req, evaluate req (state rt)) (pl_requirements layer) = true)
    by (vm_compute; reflexivity).
  assert (Hlow : float_lt ((λ _ : GameState, 0.5%float) (state rt))
                   (pl_minimum_reward layer) = true) by (vm_compute; reflexivity).
  destruct (prestige_below_minimum_rejected rt "ascend" layer (λ _, 0.5%float)
              Hlayer Hreq eq_refl Hlow) as ((res & Hcall & Hfail & Hreward & Hreason & _) & _).
  exists layer, (λ _, 0.5%float), res.
  repeat split; done.
Defined.

Lemma unlocked_is_a_one_way_latch_witness :
  let rt := Fixtures.after (Fixtures.runtime_of Fixtures.vault_game) [TryPurchase "key"] in
  hooks_respect unlocked_kept rt
  ∧ (es_unlocked <$> elements (state rt) !! "vault") = Some true
  ∧ ∃ rt', apply_ops rt [Tick 1; TriggerPrestige "ascend"; ProcessClick "gold"; Tick 1]
           = Some rt'
           ∧ (element_count (state rt) "key", element_count (state rt') "key") = (1, 0)
           ∧ ∃ es', elements (state rt') !! "vault" = Some es' ∧ es_unlocked es' = true.
Proof.
  intros rt.
  assert (Hhooks : hooks_respect unlocked_kept rt)
    by (apply has_no_hooks_respect; vm_compute; reflexivity).
  destruct (unlocked_is_a_one_way_latch rt Hhooks) as (Hops & _).
  split; [exact Hhooks|]. split; [vm_compute; reflexivity|].
  set (rt' := Fixtures.after rt [Tick 1; TriggerPrestige "ascend"; ProcessClick "gold"; Tick 1]).
  assert (H : apply_ops rt [Tick 1; TriggerPrestige "ascend"; ProcessClick "gold"; Tick 1]
              = Some rt') by (vm_compute; reflexivity).
  exists rt'. split; [exact H|]. split; [vm_compute; reflexivity|].
  apply (Hops _ _ H "vault" (mkElementState 0 true true true)); vm_compute; reflexivity.
Defined.

(** * Further properties of the code *)

(** ** More facts on binary64 arithmetic *)

Section MoreFloatFacts.
Import SpecFloat.

(** A finite float is neither a NaN nor an infinity in its specification. *)
Lemma is_finite_spec (x : float) :
  is_finite x = true →
  (∃ s, Prim2SF x = S754_zero s) ∨ (∃ s m e, Prim2SF x = S754_finite s m e).
Proof.
  unfold is_finite, is_nan, is_infinity. rewrite !FloatAxioms.eqb_spec, abs_spec.
  change (Prim2SF infinity) with (S754_infinity false).
  destruct (Prim2SF x) as [s|s| |s m e]; intros H.
  - left. by exists s.
  - by destruct s.
  - done.
  - right. by exists s, m, e.
Qed.

(** [1.0 + x * 0.0] is [1.0] for every finite [x]. *)
Lemma float_one_plus_zero_product (x : float) :
  is_finite x = true → (1 + x * 0)%float = 1%float.
Proof.
  intros Hfin. apply Prim2SF_inj. rewrite add_spec, mul_spec.
  change (Prim2SF 0) with (S754_zero false).
  change (Prim2SF 1) with (S754_finite false 4503599627370496 (-52)).
  destruct (is_finite_spec x Hfin) as [[s ->]|(s & m & e & ->)]; by destruct s.
Qed.

(** No float is below itself. *)
Lemma float_ltb_irrefl (x : float) : PrimFloat.ltb x x = false.
Proof.
  rewrite ltb_spec. destruct (Prim2SF x) as [s|s| |s m e]; cbv [SFltb SFcompare].
  - done.
  - by destruct s.
  - done.
  - rewrite Z.compare_refl, Pos.compare_cont_refl. by destruct s.
Qed.

(** [x + 0.0] is [x] unless [x] is the negative zero. *)
Lemma float_add_0_r (x : float) :
  Prim2SF x ≠ S754_zero true → (x + 0)%float = x.
Proof.
  intros Hx. apply Prim2SF_inj. rewrite add_spec.
  change (Prim2SF 0) with (S754_zero false).
  destruct (Prim2SF x) as [s|s| |s m e]; try done.
  destruct s; [done | reflexivity].
Qed.

End MoreFloatFacts.

(** ** pipeline.py *)

Lemma foldl_click_step (effects : list (EffectType.t * float)) (acc : float * float) :
  foldl click_step acc effects =
  (foldl PrimFloat.add acc.1 (values_of EffectType.CLICK_FLAT effects),
   foldl PrimFloat.mul acc.2 (values_of EffectType.CLICK_MULT effects)).
Proof.
  revert acc. induction effects as [|[ty v] effects IH]; intros [f m]; [done|].
  simpl. rewrite IH. by destruct ty.
Qed.

(** X1.  The click value is (base_value + Σ CLICK_FLAT) × Π CLICK_MULT over
    the values of the two click types, taken in list order; effects of any
    other type do not change it, and a custom pipeline registered for the
    currency is not consulted. *)
Theorem compute_click_value_formula (p : ProductionPipeline) (currency_id : string)
    (base_value : float) (effects : list (EffectType.t * float)) (st : GameState) :
  compute_click_value p currency_id base_value effects st = click_formula base_value effects
  ∧ compute_click_value p currency_id base_value
      (filter (λ e, recognized_by_click e = true) effects) st
    = compute_click_value p currency_id base_value effects st
  ∧ ∀ fn, compute_click_value (set_custom p currency_id fn) currency_id base_value effects st
          = compute_click_value p currency_id base_value effects st.
Proof.
  assert (Hf : ∀ l, compute_click_value p currency_id base_value l st
                    = click_formula base_value l).
  { intros l. unfold compute_click_value. by rewrite foldl_click_step. }
  split; [apply Hf|]. split; [|done].
  assert (Hv : ∀ ty, recognized_by_click (ty, 0%float) = true →
            values_of ty (filter (λ e, recognized_by_click e = true) effects)
            = values_of ty effects).
  { intros ty Hty. induction effects as [|[ty' v] l IH]; [done|].
    rewrite filter_cons. unfold values_of in *. case_decide as Hr; simpl.
    - by rewrite IH.
    - rewrite IH. destruct ty, ty'; try done; by destruct Hr. }
  rewrite !Hf. unfold click_formula. by rewrite !Hv.
Qed.

(** X2.  [set_custom] overrides the rate of the currency it is registered
    for, and of no other: the rate of that currency is whatever the custom
    function returns on the currency id, the effect list and the state; a
    later registration for the same currency replaces an earlier one; every
    other currency's rate is computed as before. *)
Theorem set_custom_overrides_one_currency (p : ProductionPipeline) (currency_id : string)
    (fn : PipelineFn) (effects : list (EffectType.t * float)) (st : GameState) :
  compute_rate (set_custom p currency_id fn) currency_id effects st
  = fn currency_id effects st
  ∧ (∀ fn', compute_rate (set_custom (set_custom p currency_id fn') currency_id fn)
              currency_id effects st = fn currency_id effects st)
  ∧ (∀ other, other ≠ currency_id →
       compute_rate (set_custom p currency_id fn) other effects st
       = compute_rate p other effects st).
Proof.
  unfold compute_rate, set_custom, PipelineFn. simpl. split; [|split].
  - by rewrite lookup_insert_eq.
  - intros fn'. by rewrite lookup_insert_eq.
  - intros other Hne. by rewrite lookup_insert_ne.
Qed.

(** ** cost_scaling.py *)

(** X3.  At count 0 the fixed and the linear scaling give the base cost
    itself, for every finite increment (with an infinite or NaN increment
    the linear multiplier at count 0 is a NaN); the scaled cost always has
    the currencies of the base cost and no others. *)
Theorem cost_scaling_at_count_zero (base_cost : gmap string float) :
  (∀ count, compute CostScaling_fixed base_cost count = base_cost)
  ∧ (∀ increment_pct, is_finite increment_pct = true →
       compute (CostScaling_linear increment_pct) base_cost 0 = base_cost)
  ∧ (∀ increment_pct count,
       dom (compute (CostScaling_linear increment_pct) base_cost count) = dom base_cost)
  ∧ is_nan (1 + infinity * float_of_int 0)%float = true.
Proof.
  split; [done|]. split; [|split].
  - intros pct Hfin. simpl.
    change (float_of_int 0) with 0%float. rewrite float_one_plus_zero_product by done.
    apply map_eq. intros k. rewrite lookup_fmap.
    destruct (base_cost !! k); simpl; [|done]. by rewrite float_mul_1_r.
  - intros pct count. simpl. apply dom_fmap_L.
  - reflexivity.
Qed.

(** ** definition.py: validate *)

Lemma flat_map_nil {A B} (f : A → list B) (l : list A) :
  flat_map f l = [] ↔ ∀ x, x ∈ l → f x = [].
Proof.
  induction l as [|x l IH]; simpl.
  - split; [by intros _ ? ?%elem_of_nil | done].
  - rewrite app_nil, IH. split.
    + intros [Hx Hl] y [->|Hy]%elem_of_cons; auto.
    + intros H. split; [apply H; left | intros y Hy; apply H; by right].
Qed.

Lemma error_unless_nil {E} (P : Prop) `{!Decision P} (e : E) :
  (if bool_decide (¬ P) then [e] else []) = [] ↔ P.
Proof.
  case_bool_decide as H; split; try done.
Qed.

Lemma duplicate_ids_nil {E} (mk : string → E) (ids : list string) :
  duplicate_ids mk ids = [] ↔ NoDup ids.
Proof.
  unfold duplicate_ids.
  set (step := λ '(seen, errs) id, _).
  assert (H : ∀ l (seen : gset string) (errs : list E),
            (foldl step (seen, errs) l).2 = []
            ↔ errs = [] ∧ NoDup l ∧ ∀ x, x ∈ l → x ∉ seen).
  { induction l as [|x l IH]; intros seen errs; simpl.
    - split; [intros ->; split; [done|]; split; [constructor | by intros ? ?%elem_of_nil]
             | by intros [-> _]].
    - rewrite IH, NoDup_cons. case_bool_decide as Hx.
      + split.
        * intros [[_ [=]]%app_nil _].
        * intros (_ & _ & Hseen). destruct (Hseen x); [by left | done].
      + split.
        * intros (-> & Hnd & Hseen). split; [done|]. split; [split; [|done]|].
          -- intros Hin. apply (Hseen x Hin). by apply elem_of_union_l, elem_of_singleton.
          -- intros y [->|Hy]%elem_of_cons; [done|]. intros Hys.
             apply (Hseen y Hy). by apply elem_of_union_r.
        * intros (-> & [Hxl Hnd] & Hseen). split; [done|]. split; [done|].
          intros y Hy. apply not_elem_of_union. split.
          -- apply not_elem_of_singleton. intros ->. done.
          -- apply Hseen. by right. }
  rewrite H. split; [by intros (_ & ? & _)|].
  intros Hnd. split; [done|]. split; [done|]. intros x _. apply not_elem_of_empty.
Qed.

Lemma effect_target_errors_nil d e eff :
  effect_target_errors (list_to_set (cd_id <$> gd_currencies d))
    (list_to_set (ed_id <$> gd_elements d)) e eff = []
  ↔ effect_target_known d eff.
Proof.
  unfold effect_target_errors, effect_target_known.
  destruct (eff_type eff); try done;
    rewrite error_unless_nil, elem_of_list_to_set; done.
Qed.

Lemma reset_errors_nil {E} (mk : string → E) (known : list string) (spec : ResetSpec) :
  match spec with
  | ResetList l =>
      flat_map (λ id, if bool_decide (id ∉ (list_to_set known : gset string))
                      then [mk id] else []) l
  | ResetStr _ => []
  end = [] ↔ reset_ids_known spec known.
Proof.
  destruct spec as [l|s]; simpl; [|done]. rewrite flat_map_nil.
  apply forall_proper. intros id. apply forall_proper. intros _.
  by rewrite error_unless_nil, elem_of_list_to_set.
Qed.

Lemma cost_errors_nil d :
  (∀ x, x ∈ gd_elements d →
     flat_map (λ cur_id, if bool_decide
                  (cur_id ∉ (list_to_set (cd_id <$> gd_currencies d) : gset string))
                then [UnknownCostCurrency (ed_id x) cur_id] else [])
       (map_to_list (ed_base_cost x)).*1 = [])
  ↔ (∀ e cur_id, e ∈ gd_elements d → is_Some (ed_base_cost e !! cur_id) →
       cur_id ∈ cd_id <$> gd_currencies d).
Proof.
  split.
  - intros H e cur He [v Hv]. specialize (H e He). rewrite flat_map_nil in H.
    assert (Hin : cur ∈ (map_to_list (ed_base_cost e)).*1).
    { apply list_elem_of_fmap. exists (cur, v). split; [done|].
      by apply elem_of_map_to_list. }
    specialize (H cur Hin).
    by rewrite error_unless_nil, elem_of_list_to_set in H.
  - intros H e He. rewrite flat_map_nil. intros cur Hin.
    rewrite error_unless_nil, elem_of_list_to_set.
    apply list_elem_of_fmap in Hin as ([c v] & -> & Hin).
    apply elem_of_map_to_list in Hin. apply (H e); [done | by eexists].
Qed.

Lemma click_errors_nil d :
  (∀ x, x ∈ gd_click_targets d →
     (if bool_decide (ct_currency x ∉ (list_to_set (cd_id <$> gd_currencies d) : gset string))
      then [ClickTargetUnknownCurrency (ct_currency x)] else []) = [])
  ↔ (∀ ct, ct ∈ gd_click_targets d → ct_currency ct ∈ cd_id <$> gd_currencies d).
Proof.
  apply forall_proper. intros ct. apply forall_proper. intros _.
  by rewrite error_unless_nil, elem_of_list_to_set.
Qed.

(** What the runtime relies on once [validate] has passed: costs and click
    targets name defined currencies. *)
Lemma validate_nil_references d :
  (validate d).1 = [] →
  (∀ e cur_id, e ∈ gd_elements d → is_Some (ed_base_cost e !! cur_id) →
     cur_id ∈ cd_id <$> gd_currencies d)
  ∧ (∀ ct, ct ∈ gd_click_targets d → ct_currency ct ∈ cd_id <$> gd_currencies d).
Proof.
  unfold validate. simpl. rewrite !app_nil, !flat_map_nil.
  intros (_ & _ & _ & Hcost & _ & Hct & _). split.
  - by apply cost_errors_nil.
  - by apply click_errors_nil.
Qed.

(** X4.  [validate] returns no error exactly for the well-formed
    definitions: currency, element and milestone ids are not repeated, and
    every currency or element named in a cost, as an effect target (by
    effect type), as a click target or in a prestige layer is defined. *)
Theorem validate_no_error_iff_well_formed (d : GameDefinition) :
  (validate d).1 = [] ↔ well_formed d.
Proof.
  unfold validate, well_formed. simpl.
  rewrite !app_nil, !duplicate_ids_nil, !flat_map_nil.
  apply and_iff_compat_l. apply and_iff_compat_l. apply and_iff_compat_l.
  rewrite cost_errors_nil. apply and_iff_compat_l.
  assert (Heff : (∀ x, x ∈ gd_elements d →
      flat_map (effect_target_errors (list_to_set (cd_id <$> gd_currencies d))
                  (list_to_set (ed_id <$> gd_elements d)) x) (ed_effects x) = [])
    ↔ (∀ e eff, e ∈ gd_elements d → eff ∈ ed_effects e → effect_target_known d eff)).
  { split.
    - intros H e eff He Heff. specialize (H e He). rewrite flat_map_nil in H.
      by apply (effect_target_errors_nil d e eff), H.
    - intros H e He. rewrite flat_map_nil. intros eff Heff.
      apply effect_target_errors_nil. by apply (H e). }
  rewrite Heff. apply and_iff_compat_l.
  rewrite click_errors_nil. apply and_iff_compat_l.
  apply forall_proper. intros p. apply forall_proper. intros _.
  unfold prestige_errors. rewrite !app_nil.
  rewrite error_unless_nil, elem_of_list_to_set.
  rewrite (reset_errors_nil (PrestigeResetsUnknownCurrency (pl_id p))).
  rewrite (reset_errors_nil (PrestigeResetsUnknownElement (pl_id p))).
  done.
Qed.

(** ** Relations every write of the runtime respects *)

Section Writes.
Context (R : GameState → GameState → Prop) (HR : WriteInvariant R).

#[local] Instance writes_preorder : PreOrder R := wi_preorder R HR.

Lemma writes_recompute_rates rt rt' :
  _recompute_rates rt = Some rt' → R (state rt) (state rt') ∧ same_static rt rt'.
Proof.
  unfold _recompute_rates. intros H.
  destruct (owned_effects _ _) as [effs|]; simpl in H; [|done].
  destruct (foldl (gather_step _) _ effs) as [ge pc].
  destruct (for_each _ _ _) as [st'|] eqn:Hloop; simpl in H; [|done].
  injection H as <-. split; [|done]. simpl.
  revert Hloop. apply (for_each_preserves R).
  intros s1 cdef s2 _ Hb.
  destruct (pc !! cd_id cdef); simpl in Hb; [|done].
  destruct (currencies s1 !! cd_id cdef) eqn:Hc; simpl in Hb; [|done].
  injection Hb as <-. by eapply (wi_currency R HR).
Qed.

Lemma writes_apply_production d st delta st' :
  apply_production d st delta = Some st' → R st st'.
Proof.
  unfold apply_production. apply (for_each_preserves R).
  intros s1 cdef s2 _ Hb.
  destruct (currencies s1 !! cd_id cdef) as [cs|] eqn:Hc; simpl in Hb; [|done].
  destruct (float_ne _ _); [|by injection Hb as <-].
  destruct (_resolve_cap _ _ _) as [cap|]; simpl in Hb; [|done].
  injection Hb as <-.
  etransitivity; [by eapply (wi_currency R HR)|].
  eapply (wi_currency R HR). apply lookup_insert_eq.
Qed.

Lemma writes_process_auto_clicks d st delta st' :
  _process_auto_clicks d st delta = Some st' → R st st'.
Proof.
  unfold _process_auto_clicks. apply (for_each_preserves R).
  intros s1 edef s2 _ Hb.
  destruct (elements s1 !! ed_id edef) as [es|]; simpl in Hb; [|done].
  destruct (es_count es <=? 0); injection Hb as <-; [done|].
  apply (foldl_preserves R). intros s eff _.
  destruct (negb (EffectType.eqb _ _)); [done|].
  destruct (negb (is_active _ _)); [done|].
  destruct (get_click_target _ _); [|done].
  destruct (currencies s !! _) eqn:Hc; [|done].
  by eapply (wi_currency R HR).
Qed.

Lemma writes_update_element_statuses d st st' :
  _update_element_statuses d st = Some st' → R st st'.
Proof.
  unfold _update_element_statuses. apply (for_each_preserves R).
  intros s1 edef s2 _ Hbody.
  destruct (elements s1 !! ed_id edef) as [es|] eqn:Hes; simpl in Hbody; [|done].
  set (av := if negb (es_unlocked es) then _ else true) in Hbody.
  set (s1' := put_element s1 (ed_id edef) (with_available es av)) in Hbody.
  assert (H1 : R s1 s1') by (by eapply (wi_element R HR)).
  assert (Hes' : elements s1' !! ed_id edef = Some (with_available es av))
    by apply lookup_insert_eq.
  destruct (av && _) eqn:Hc in Hbody.
  - destruct (_apply_cost_effects d s1' (ed_id edef) _) as [cost|]; simpl in Hbody; [|done].
    injection Hbody as <-.
    etransitivity; [exact H1|]. by eapply (wi_element R HR).
  - injection Hbody as <-.
    etransitivity; [exact H1|]. by eapply (wi_element R HR).
Qed.

Lemma writes_check_milestone st mdef :
  (∀ f s, md_on_trigger mdef = Some f → R s (f s)) →
  R st (check_milestone st mdef).
Proof.
  intros Hhook. unfold check_milestone.
  destruct (dict_mem _ _) eqn:Hmem; [done|].
  destruct (md_trigger mdef) as [trigger|]; [|done].
  destruct (evaluate trigger st); [|done].
  etransitivity; [by apply (wi_milestone R HR)|].
  destruct (md_on_trigger mdef) as [f|] eqn:Hf; [|done].
  by eapply Hhook.
Qed.

Lemma writes_check_milestones d st :
  (∀ mdef f s, mdef ∈ gd_milestones d → md_on_trigger mdef = Some f → R s (f s)) →
  R st (_check_milestones d st).
Proof.
  intros Hhook. unfold _check_milestones. apply (foldl_preserves R).
  intros s mdef Hin. apply writes_check_milestone. intros f s'. by apply Hhook.
Qed.

Lemma writes_apply_immediate_effects st effs : R st (apply_immediate_effects st effs).
Proof.
  unfold apply_immediate_effects. apply (foldl_preserves R). intros s eff _.
  destruct (EffectPhase.eqb _ _); [|done]. unfold _apply_immediate_effect.
  destruct (eff_type eff); try done.
  - destruct (currencies s !! _) eqn:Hc; [by eapply (wi_currency R HR) | done].
  - destruct (elements s !! _) eqn:Hes; [|done]. by eapply (wi_element R HR).
Qed.

Lemma writes_deduct_costs st cost st' : deduct_costs st cost = Some st' → R st st'.
Proof.
  unfold deduct_costs. apply (for_each_preserves R).
  intros s1 [cid amt] s2 _ Hb.
  destruct (currencies s1 !! cid) eqn:Hc; simpl in Hb; [|done].
  injection Hb as <-. by eapply (wi_currency R HR).
Qed.

Lemma writes_reset_currencies d st ids : R st (reset_currencies d st ids).
Proof.
  unfold reset_currencies. apply (foldl_preserves R). intros s cid _.
  destruct (currencies s !! cid) eqn:Hc; [by eapply (wi_currency R HR) | done].
Qed.

Lemma writes_reset_elements d st ids : R st (reset_elements d st ids).
Proof.
  unfold reset_elements. apply (foldl_preserves R). intros s eid _.
  destruct (elements s !! eid) eqn:Hes; [|done].
  destruct (get_element d eid); [|done].
  case_bool_decide; [|done]. by eapply (wi_element R HR).
Qed.

Lemma writes_try_purchase rt element_id b rt' :
  hooks_respect R rt →
  try_purchase rt element_id = Some (b, rt') →
  R (state rt) (state rt') ∧ same_static rt rt'.
Proof.
  intros (Hpurchase & _ & _). unfold try_purchase. intros H.
  destruct (get_element _ _) as [edef|] eqn:Hdef; [|by injection H as <- <-].
  destruct (elements _ !! _) as [es|] eqn:Hes; simpl in H; [|done].
  destruct (match ed_max_count edef with Some _ => _ | None => _ end);
    [by injection H as <- <-|].
  destruct (negb (es_available es) && _); [by injection H as <- <-|].
  destruct (negb (forallb _ (ed_purchase_requirements edef))); [by injection H as <- <-|].
  destruct (_apply_cost_effects _ _ _ _) as [cost|]; simpl in H; [|done].
  destruct (negb (forallb _ (map_to_list cost))); [by injection H as <- <-|].
  destruct (deduct_costs _ _) as [st1|] eqn:Hded; simpl in H; [|done].
  destruct (_update_element_statuses _ _) as [st2|] eqn:Hupd; simpl in H; [|done].
  injection H as <- <-. split; [|done]. simpl.
  pose proof (deduct_costs_currencies_only _ _ _ Hded) as (_ & Hel & _).
  apply writes_deduct_costs in Hded. apply writes_update_element_statuses in Hupd.
  etransitivity; [exact Hded|]. etransitivity; [|exact Hupd].
  set (paid := put_element st1 element_id (with_count es (es_count es + 1))).
  transitivity paid; [eapply (wi_element R HR); [by rewrite Hel | done]|].
  transitivity (apply_immediate_effects paid (ed_effects edef));
    [apply writes_apply_immediate_effects|].
  destruct (ed_on_purchase edef) as [f|] eqn:Hf; [|done].
  eapply Hpurchase; [|done]. by eapply get_element_elem_of.
Qed.

Lemma writes_process_click rt target v rt' :
  process_click rt target = Some (v, rt') →
  R (state rt) (state rt') ∧ same_static rt rt'.
Proof.
  unfold process_click. intros H.
  destruct (get_click_target _ _) as [ct|]; [|by injection H as <- <-].
  destruct (owned_effects _ _) as [effs|]; simpl in H; [|done].
  destruct (currencies _ !! _) as [cs|] eqn:Hc; simpl in H; [|done].
  destruct (_resolve_cap _ _ _) as [cap|]; simpl in H; [|done].
  injection H as <- <-. split; [|done]. simpl.
  etransitivity; [by eapply (wi_currency R HR)|].
  eapply (wi_currency R HR). apply lookup_insert_eq.
Qed.

Lemma writes_trigger_prestige rt layer_id res rt' :
  trigger_prestige rt layer_id = Some (res, rt') →
  R (state rt) (state rt') ∧ same_static rt rt'.
Proof.
  unfold trigger_prestige. intros H.
  destruct (get_prestige_layer _ _) as [layer|]; [|by injection H as <- <-].
  destruct (negb (forallb _ _)); [by injection H as <- <-|].
  destruct (pl_reward_formula layer) as [formula|]; [|by injection H as <- <-].
  destruct (float_lt _ _); [by injection H as <- <-|].
  destruct (_update_element_statuses _ _) as [st2|] eqn:Hupd; simpl in H; [|done].
  injection H as <- <-. split; [|done]. simpl.
  apply writes_update_element_statuses in Hupd.
  etransitivity; [|exact Hupd].
  etransitivity; [|apply (wi_run_number R HR)].
  etransitivity; [|apply (wi_prestige_counts R HR)].
  etransitivity; [apply writes_reset_currencies|].
  etransitivity; [apply writes_reset_elements|].
  destruct (currencies _ !! _) eqn:Hc; [by eapply (wi_currency R HR) | done].
Qed.

(** [tick], for a relation the advance of the clock respects as well. *)
Lemma writes_tick rt delta rt' :
  (∀ st t, R st (set_time_elapsed st t)) →
  hooks_respect R rt →
  tick rt delta = Some rt' → R (state rt) (state rt') ∧ same_static rt rt'.
Proof.
  intros Htime (_ & Hmilestone & Hsub). unfold tick. intros H.
  destruct (if _dirty rt then _ else Some rt) as [rt1|] eqn:Hrec; simpl in H; [|done].
  assert (R (state rt) (state rt1) ∧ same_static rt rt1) as [H1 (Hd & Hp & Hs)].
  { destruct (_dirty rt); [|by injection Hrec as <-].
    destruct (_recompute_rates rt) as [rt2|] eqn:Hrr; simpl in Hrec; [|done].
    injection Hrec as <-. apply writes_recompute_rates in Hrr. exact Hrr. }
  destruct (apply_production _ _ _) as [st1|] eqn:Hprod; simpl in H; [|done].
  destruct (_process_auto_clicks _ _ _) as [st2|] eqn:Hauto; simpl in H; [|done].
  destruct (_update_element_statuses _ _) as [st3|] eqn:Hupd; simpl in H; [|done].
  injection H as <-. split; [|done]. simpl.
  etransitivity; [exact H1|].
  etransitivity; [eapply writes_apply_production, Hprod|].
  etransitivity; [eapply writes_process_auto_clicks, Hauto|].
  etransitivity; [apply Htime|].
  etransitivity; [eapply writes_update_element_statuses, Hupd|].
  transitivity (_check_milestones (definition rt1) st3);
    [apply writes_check_milestones; rewrite Hd; exact Hmilestone|].
  apply (foldl_preserves R). intros s sub Hin. apply Hsub. by rewrite <- Hs.
Qed.

Lemma writes_hooks_static rt rt' :
  same_static rt rt' → hooks_respect R rt → hooks_respect R rt'.
Proof. intros (Hd & _ & Hs). unfold hooks_respect. by rewrite Hd, Hs. Qed.

Lemma writes_apply_op rt op rt' :
  (∀ st t, R st (set_time_elapsed st t)) →
  hooks_respect R rt →
  apply_op rt op = Some rt' → R (state rt) (state rt') ∧ same_static rt rt'.
Proof.
  intros Htime Hh H. destruct op; simpl in H.
  - by eapply writes_tick.
  - destruct (try_purchase _ _) as [[b r]|] eqn:E; simpl in H; [|done].
    injection H as <-. by eapply writes_try_purchase.
  - destruct (process_click _ _) as [[v r]|] eqn:E; simpl in H; [|done].
    injection H as <-. by eapply writes_process_click.
  - destruct (trigger_prestige _ _) as [[v r]|] eqn:E; simpl in H; [|done].
    injection H as <-. by eapply writes_trigger_prestige.
Qed.

End Writes.

Lemma same_domains_writes : WriteInvariant same_domains.
Proof.
  split; try (by intros; split).
  - split; [by split|]. intros x y z [? ?] [? ?]. split; congruence.
  - intros st id cs cs' Hc. split; [|done]. simpl.
    apply dom_insert_lookup_L. by eexists.
  - intros st id es es' He _. split; [done|]. simpl.
    apply dom_insert_lookup_L. by eexists.
Qed.

Lemma time_kept_writes : WriteInvariant time_kept.
Proof. split; try done. split; [done|]. intros x y z H1 H2. unfold time_kept in *. congruence. Qed.

(** ** The key sets of the state, and the clock *)

Lemma writes_apply_ops (R : GameState → GameState → Prop) (HR : WriteInvariant R)
    (ops : list RuntimeOp) : ∀ rt rt',
  (∀ st t, R st (set_time_elapsed st t)) →
  hooks_respect R rt →
  apply_ops rt ops = Some rt' → R (state rt) (state rt') ∧ same_static rt rt'.
Proof.
  pose proof (wi_preorder R HR) as Hpre.
  induction ops as [|op ops IH]; intros rt rt' Htime Hh H.
  - injection H as <-. by split.
  - unfold apply_ops in H. simpl in H.
    destruct (apply_op rt op) as [rt1|] eqn:Hop; simpl in H; [|done].
    destruct (writes_apply_op R HR _ _ _ Htime Hh Hop) as [H1 Hs1].
    destruct (IH rt1 rt' Htime (writes_hooks_static R _ _ Hs1 Hh) H) as [H2 Hs2].
    split; [by etransitivity|].
    destruct Hs1 as (? & ? & ?), Hs2 as (? & ? & ?). repeat split; congruence.
Qed.

(** X5.  No run of [tick], [try_purchase], [process_click] and
    [trigger_prestige] adds a key to [state.currencies] or [state.elements]
    or drops one, as long as the game's own callables (purchase and
    milestone callbacks, subsystems) do not: the runtime writes a currency
    or an element only under a key the state already holds. *)
Theorem operations_keep_the_key_sets (rt : GameRuntime) (ops : list RuntimeOp)
    (rt' : GameRuntime) :
  hooks_respect same_domains rt →
  apply_ops rt ops = Some rt' →
  dom (currencies (state rt')) = dom (currencies (state rt))
  ∧ dom (elements (state rt')) = dom (elements (state rt)).
Proof.
  intros Hh H.
  destruct (writes_apply_ops same_domains same_domains_writes ops rt rt') as [Hd _];
    [by intros; split | done | done | exact Hd].
Qed.

(** X6.  Only [tick] moves the clock, and by [delta] exactly: a purchase, a
    click and a prestige leave [time_elapsed] where it was (the callables
    the game plugs in are assumed not to touch it). *)
Theorem clock_advances_in_tick_only (rt : GameRuntime) :
  hooks_respect time_kept rt →
  (∀ delta rt', tick rt delta = Some rt' →
     time_elapsed (state rt') = (time_elapsed (state rt) + delta)%float)
  ∧ (∀ element_id b rt', try_purchase rt element_id = Some (b, rt') →
       time_elapsed (state rt') = time_elapsed (state rt))
  ∧ (∀ target v rt', process_click rt target = Some (v, rt') →
       time_elapsed (state rt') = time_elapsed (state rt))
  ∧ (∀ layer_id res rt', trigger_prestige rt layer_id = Some (res, rt') →
       time_elapsed (state rt') = time_elapsed (state rt)).
Proof.
  intros Hh. pose proof time_kept_writes as HR. repeat split.
  - intros delta rt' H. destruct Hh as (_ & Hmilestone & Hsub). unfold tick in H.
    destruct (if _dirty rt then _ else Some rt) as [rt1|] eqn:Hrec; simpl in H; [|done].
    assert (time_kept (state rt) (state rt1) ∧ same_static rt rt1) as [H1 (Hd & Hp & Hs)].
    { destruct (_dirty rt); [|by injection Hrec as <-].
      destruct (_recompute_rates rt) as [rt2|] eqn:Hrr; simpl in Hrec; [|done].
      injection Hrec as <-. by apply (writes_recompute_rates time_kept HR) in Hrr. }
    destruct (apply_production _ _ _) as [st1|] eqn:Hprod; simpl in H; [|done].
    destruct (_process_auto_clicks _ _ _) as [st2|] eqn:Hauto; simpl in H; [|done].
    destruct (_update_element_statuses _ _) as [st3|] eqn:Hupd; simpl in H; [|done].
    injection H as <-. simpl.
    apply (writes_apply_production time_kept HR) in Hprod.
    apply (writes_process_auto_clicks time_kept HR) in Hauto.
    apply (writes_update_element_statuses time_kept HR) in Hupd.
    assert (H4 : time_kept st3 (_check_milestones (definition rt1) st3)).
    { apply (writes_check_milestones time_kept HR). rewrite Hd. exact Hmilestone. }
    assert (H5 : time_kept (_check_milestones (definition rt1) st3)
                   (foldl (λ st sub, sub st delta) (_check_milestones (definition rt1) st3)
                      (_subsystems rt1))).
    { assert (PreOrder time_kept) by apply (wi_preorder _ HR).
      apply (foldl_preserves time_kept). intros s sub Hin. apply Hsub. by rewrite <- Hs. }
    unfold time_kept in *. simpl in Hupd. congruence.
  - intros element_id b rt' H. by apply (writes_try_purchase time_kept HR) in H as [H _].
  - intros target v rt' H. by apply (writes_process_click time_kept HR) in H as [H _].
  - intros layer_id res rt' H. by apply (writes_trigger_prestige time_kept HR) in H as [H _].
Qed.

(** ** What a successful prestige does *)

Lemma flags_only_element_count st st' eid :
  flags_only st st' → element_count st' eid = element_count st eid.
Proof.
  intros (_ & _ & _ & _ & _ & H). destruct (H eid) as [Hc _]. unfold element_count.
  destruct (elements st' !! eid), (elements st !! eid); simpl in Hc; congruence.
Qed.

Lemma reset_currencies_elements d st ids :
  elements (reset_currencies d st ids) = elements st
  ∧ prestige_counts (reset_currencies d st ids) = prestige_counts st
  ∧ run_number (reset_currencies d st ids) = run_number st
  ∧ milestones_reached (reset_currencies d st ids) = milestones_reached st.
Proof.
  unfold reset_currencies.
  set (Rk := λ s s' : GameState, elements s' = elements s
               ∧ prestige_counts s' = prestige_counts s ∧ run_number s' = run_number s
               ∧ milestones_reached s' = milestones_reached s).
  assert (PreOrder Rk).
  { split; [by intros ? | intros ??? (?&?&?&?) (?&?&?&?); unfold Rk; repeat split; congruence]. }
  apply (foldl_preserves Rk). intros s cid _. unfold Rk.
  by destruct (currencies s !! cid).
Qed.

Lemma reset_currencies_other d st ids cid :
  cid ∉ ids → currencies (reset_currencies d st ids) !! cid = currencies st !! cid.
Proof.
  revert st. induction ids as [|c ids IH]; intros st Hnin; [done|].
  apply not_elem_of_cons in Hnin as [Hne Hnin].
  unfold reset_currencies in *. simpl. rewrite IH by done.
  destruct (currencies st !! c); [|done]. simpl. by rewrite lookup_insert_ne.
Qed.

Lemma reset_elements_currencies d st ids :
  currencies (reset_elements d st ids) = currencies st
  ∧ prestige_counts (reset_elements d st ids) = prestige_counts st
  ∧ run_number (reset_elements d st ids) = run_number st
  ∧ milestones_reached (reset_elements d st ids) = milestones_reached st.
Proof.
  unfold reset_elements.
  set (Rk := λ s s' : GameState, currencies s' = currencies s
               ∧ prestige_counts s' = prestige_counts s ∧ run_number s' = run_number s
               ∧ milestones_reached s' = milestones_reached s).
  assert (PreOrder Rk).
  { split; [by intros ? | intros ??? (?&?&?&?) (?&?&?&?); unfold Rk; repeat split; congruence]. }
  apply (foldl_preserves Rk). intros s eid _. unfold Rk.
  destruct (elements s !! eid); [|done]. destruct (get_element d eid); [|done].
  by case_bool_decide.
Qed.

Lemma reset_elements_other d st ids eid :
  eid ∉ ids → elements (reset_elements d st ids) !! eid = elements st !! eid.
Proof.
  revert st. induction ids as [|e ids IH]; intros st Hnin; [done|].
  apply not_elem_of_cons in Hnin as [Hne Hnin].
  unfold reset_elements in *. simpl. rewrite IH by done.
  destruct (elements st !! e); [|done]. destruct (get_element d e); [|done].
  case_bool_decide; [|done]. simpl. by rewrite lookup_insert_ne.
Qed.

Lemma reset_elements_persistent d st ids eid edef :
  get_element d eid = Some edef → "persistent" ∈ ed_tags edef →
  elements (reset_elements d st ids) !! eid = elements st !! eid.
Proof.
  intros Hdef Htag. unfold reset_elements.
  set (Rk := λ s s' : GameState, elements s' !! eid = elements s !! eid).
  assert (PreOrder Rk) by (split; [by intros ? | intros ??? H1 H2; unfold Rk in *; congruence]).
  apply (foldl_preserves Rk). intros s e _. unfold Rk.
  destruct (elements s !! e) eqn:He; [|done].
  destruct (get_element d e) as [edef'|] eqn:Hdef'; [|done].
  case_bool_decide as Hp; [|done]. simpl.
  destruct (decide (e = eid)) as [->|Hne]; [|by rewrite lookup_insert_ne].
  rewrite Hdef in Hdef'. injection Hdef' as <-. done.
Qed.

Lemma reset_elements_zero_stays d st ids eid :
  element_count st eid = 0 → element_count (reset_elements d st ids) eid = 0.
Proof.
  unfold reset_elements.
  set (Rk := λ s s' : GameState, element_count s eid = 0 → element_count s' eid = 0).
  assert (PreOrder Rk) by (split; [by intros ? ? | intros ??? H1 H2 ?; by apply H2, H1]).
  apply (foldl_preserves Rk). intros s e _. unfold Rk, element_count.
  destruct (elements s !! e) eqn:He; [|done].
  destruct (get_element d e); [|done]. case_bool_decide; [|done]. simpl.
  destruct (decide (e = eid)) as [->|Hne];
    [by rewrite lookup_insert_eq | by rewrite lookup_insert_ne].
Qed.

Lemma reset_elements_zero d st ids eid edef :
  eid ∈ ids → get_element d eid = Some edef → "persistent" ∉ ed_tags edef →
  element_count (reset_elements d st ids) eid = 0.
Proof.
  intros Hin Hdef Htag. revert st.
  induction ids as [|e ids IH]; intros st; [by apply elem_of_nil in Hin|].
  destruct (decide (e = eid)) as [->|Hne].
  - change (reset_elements d st (eid :: ids)) with
      (reset_elements d
         (match elements st !! eid with
          | Some es =>
              match get_element d eid with
              | Some edef =>
                  if bool_decide ("persistent" ∉ ed_tags edef)
                  then put_element st eid
                         (with_affordable (with_available (with_count es 0) false) false)
                  else st
              | None => st
              end
          | None => st
          end) ids).
    apply reset_elements_zero_stays. rewrite Hdef. rewrite bool_decide_eq_true_2 by done.
    unfold element_count. destruct (elements st !! eid) eqn:He.
    + simpl. by rewrite lookup_insert_eq.
    + by rewrite He.
  - apply elem_of_cons in Hin as [->|Hin]; [done|]. by apply (IH Hin).
Qed.

(** The shape of a successful prestige: the layer and its formula are
    found, and the new state is the status refresh of the state after the
    resets, the reward and the two counters. *)
Lemma trigger_prestige_success rt layer_id res rt' :
  trigger_prestige rt layer_id = Some (res, rt') → success res = true →
  ∃ layer formula,
    get_prestige_layer (definition rt) layer_id = Some layer
    ∧ pl_reward_formula layer = Some formula
    ∧ float_lt (formula (state rt)) (pl_minimum_reward layer) = false
    ∧ res = mkPrestigeResult true (formula (state rt))
              (_resolve_reset_list (definition rt) (pl_currencies_reset layer) "currency")
              (_resolve_reset_list (definition rt) (pl_elements_reset layer) "element")
              NoReason
    ∧ let st1 := reset_elements (definition rt)
                   (reset_currencies (definition rt) (state rt) (currencies_reset res))
                   (elements_reset res) in
      let st2 := match currencies st1 !! pl_prestige_currency layer with
                 | Some pcs =>
                     put_currency st1 (pl_prestige_currency layer)
                       (with_total_earned
                          (with_current pcs (cs_current pcs + formula (state rt)))
                          (cs_total_earned pcs + formula (state rt)))
                 | None => st1
                 end in
      let st3 := set_run_number
                   (set_prestige_counts st2
                      (<[layer_id := default 0 (prestige_counts st2 !! layer_id) + 1]>
                         (prestige_counts st2)))
                   (run_number st2 + 1) in
      ∃ st4, _update_element_statuses (definition rt) st3 = Some st4
             ∧ rt' = mkGameRuntime (definition rt) st4 (pipeline rt) true (_subsystems rt).
Proof.
  unfold trigger_prestige. intros H Hs.
  destruct (get_prestige_layer _ _) as [layer|] eqn:Hlayer;
    [|injection H as <- <-; by simpl in Hs].
  destruct (negb (forallb _ _)); [injection H as <- <-; by simpl in Hs|].
  destruct (pl_reward_formula layer) as [formula|] eqn:Hformula;
    [|injection H as <- <-; by simpl in Hs].
  destruct (float_lt _ _) eqn:Hlt; [injection H as <- <-; by simpl in Hs|].
  destruct (_update_element_statuses _ _) as [st4|] eqn:Hupd; simpl in H; [|done].
  injection H as <- <-. exists layer, formula.
  do 4 (split; [done|]). simpl. by exists st4.
Qed.

(** X7.  A successful prestige raises [run_number] by one and the layer's
    counter in [prestige_counts] by one (from 0 when the layer has no entry),
    leaves the other counters and the milestones alone, and marks the rates
    stale.  An element on the reset list whose definition is not tagged
    "persistent" is back at count 0; an element tagged "persistent" keeps
    its count even when the list names it, and so does every element the
    list does not name. *)
Theorem successful_prestige_counters_and_elements (rt : GameRuntime) (layer_id : string)
    (res : PrestigeResult) (rt' : GameRuntime) :
  trigger_prestige rt layer_id = Some (res, rt') →
  success res = true →
  run_number (state rt') = run_number (state rt) + 1
  ∧ prestige_counts (state rt') !! layer_id
    = Some (default 0 (prestige_counts (state rt) !! layer_id) + 1)
  ∧ (∀ other, other ≠ layer_id →
       prestige_counts (state rt') !! other = prestige_counts (state rt) !! other)
  ∧ milestones_reached (state rt') = milestones_reached (state rt)
  ∧ _dirty rt' = true
  ∧ (∀ eid edef, eid ∈ elements_reset res →
       get_element (definition rt) eid = Some edef → "persistent" ∉ ed_tags edef →
       element_count (state rt') eid = 0)
  ∧ (∀ eid edef, get_element (definition rt) eid = Some edef →
       "persistent" ∈ ed_tags edef →
       element_count (state rt') eid = element_count (state rt) eid)
  ∧ (∀ eid, eid ∉ elements_reset res →
       element_count (state rt') eid = element_count (state rt) eid).
Proof.
  intros H Hs.
  destruct (trigger_prestige_success _ _ _ _ H Hs)
    as (layer & formula & Hlayer & Hformula & Hmin & Hres & st4 & Hupd & ->).
  set (d := definition rt) in *.
  set (st0 := reset_currencies d (state rt) (currencies_reset res)) in *.
  set (st1 := reset_elements d st0 (elements_reset res)) in *.
  apply _update_element_statuses_flags_only in Hupd as Hflags.
  destruct Hflags as (_ & _ & Hm & Hp & Hr & _).
  destruct (reset_currencies_elements d (state rt) (currencies_reset res))
    as (He0 & Hp0 & Hr0 & Hm0).
  destruct (reset_elements_currencies d st0 (elements_reset res)) as (_ & Hp1 & Hr1 & Hm1).
  fold st0 in He0, Hp0, Hr0, Hm0. fold st1 in Hp1, Hr1, Hm1.
  assert (Hcount : ∀ eid, element_count st4 eid = element_count st1 eid).
  { intros eid. rewrite (flags_only_element_count _ _ eid
      (_update_element_statuses_flags_only _ _ _ Hupd)).
    unfold element_count. simpl. by destruct (currencies st1 !! _). }
  simpl. rewrite Hr, Hp, Hm. simpl.
  destruct (currencies st1 !! pl_prestige_currency layer) eqn:Hpc; simpl;
    (split; [congruence|]); (split; [rewrite lookup_insert_eq; congruence|]);
    (split; [intros other Hne; rewrite lookup_insert_ne by done; congruence|]);
    (split; [congruence|]); (split; [done|]).
  all: split; [|split].
  all: try (intros eid edef Hin Hdef Htag; rewrite Hcount;
            by apply (reset_elements_zero d st0 _ eid edef)).
  all: try (intros eid edef Hdef Htag; rewrite Hcount; unfold element_count, st1;
            by rewrite (reset_elements_persistent d st0 _ eid edef Hdef Htag), He0).
  all: intros eid Hnin; rewrite Hcount; unfold element_count, st1;
       by rewrite (reset_elements_other d st0 _ eid Hnin), He0.
Qed.

Lemma NoDup_fmap_elem_inj {A B} (f : A → B) (l : list A) (x y : A) :
  NoDup (f <$> l) → x ∈ l → y ∈ l → f x = f y → x = y.
Proof.
  induction l as [|a l IH]; intros Hnd Hx Hy Hf; [by apply elem_of_nil in Hx|].
  rewrite fmap_cons in Hnd. apply NoDup_cons in Hnd as [Hna Hnd].
  apply elem_of_cons in Hx as [->|Hx]; apply elem_of_cons in Hy as [->|Hy]; try done.
  - exfalso. apply Hna. rewrite Hf. by apply list_elem_of_fmap_2.
  - exfalso. apply Hna. rewrite <- Hf. by apply list_elem_of_fmap_2.
  - by apply IH.
Qed.

(** X8.  The currencies after a successful prestige.  A currency on the
    reset list is back at its initial value, with [total_earned] at the
    initial value and rate 0; a currency off the list is untouched.  The
    reward is then added to the prestige currency, to [current] and to
    [total_earned] alike, with no look at the cap.  With the
    "all_non_persistent" sentinel no persistent currency is on the list. *)
Theorem successful_prestige_currencies (rt : GameRuntime) (layer_id : string)
    (res : PrestigeResult) (rt' : GameRuntime) (layer : PrestigeLayerDef) :
  trigger_prestige rt layer_id = Some (res, rt') →
  success res = true →
  get_prestige_layer (definition rt) layer_id = Some layer →
  (∀ cid cs cdef, cid ≠ pl_prestige_currency layer → cid ∈ currencies_reset res →
     currencies (state rt) !! cid = Some cs → get_currency (definition rt) cid = Some cdef →
     currencies (state rt') !! cid
     = Some (mkCurrencyState (cd_initial_value cdef) (cd_initial_value cdef) 0))
  ∧ (∀ cid, cid ≠ pl_prestige_currency layer → cid ∉ currencies_reset res →
       currencies (state rt') !! cid = currencies (state rt) !! cid)
  ∧ (∀ pcs, pl_prestige_currency layer ∉ currencies_reset res →
       currencies (state rt) !! pl_prestige_currency layer = Some pcs →
       currencies (state rt') !! pl_prestige_currency layer
       = Some (mkCurrencyState (cs_current pcs + reward_amount res)
                 (cs_total_earned pcs + reward_amount res) (cs_current_rate pcs)))
  ∧ (∀ pcs cdef, pl_prestige_currency layer ∈ currencies_reset res →
       currencies (state rt) !! pl_prestige_currency layer = Some pcs →
       get_currency (definition rt) (pl_prestige_currency layer) = Some cdef →
       currencies (state rt') !! pl_prestige_currency layer
       = Some (mkCurrencyState (cd_initial_value cdef + reward_amount res)
                 (cd_initial_value cdef + reward_amount res) 0))
  ∧ (pl_currencies_reset layer = ResetStr "all_non_persistent" →
     NoDup (cd_id <$> gd_currencies (definition rt)) →
     ∀ cid cdef, get_currency (definition rt) cid = Some cdef →
       cd_persistent cdef = true → cid ∉ currencies_reset res).
Proof.
  intros H Hs Hlayer.
  destruct (trigger_prestige_success _ _ _ _ H Hs)
    as (layer' & formula & Hlayer' & Hformula & Hmin & Hres & st4 & Hupd & ->).
  rewrite Hlayer in Hlayer'. injection Hlayer' as <-.
  set (d := definition rt) in *.
  set (st0 := reset_currencies d (state rt) (currencies_reset res)) in *.
  set (st1 := reset_elements d st0 (elements_reset res)) in *.
  apply _update_element_statuses_flags_only in Hupd as (_ & Hc & _).
  destruct (reset_elements_currencies d st0 (elements_reset res)) as (Hc1 & _).
  fold st1 in Hc1.
  assert (Hreward : reward_amount res = formula (state rt)) by (by rewrite Hres).
  simpl. rewrite Hc, Hreward. simpl. clear Hc.
  split; [|split; [|split; [|split]]].
  - intros cid cs cdef Hne Hin Hcs Hdef.
    assert (currencies st1 !! cid
            = Some (mkCurrencyState (cd_initial_value cdef) (cd_initial_value cdef) 0)) as Hgoal
      by (rewrite Hc1; by apply (reset_currencies_initial d _ _ cid cs cdef)).
    destruct (currencies st1 !! pl_prestige_currency layer); simpl;
      rewrite ?lookup_insert_ne by done; exact Hgoal.
  - intros cid Hne Hnin.
    assert (currencies st1 !! cid = currencies (state rt) !! cid) as Hgoal
      by (rewrite Hc1; by apply reset_currencies_other).
    destruct (currencies st1 !! pl_prestige_currency layer); simpl;
      rewrite ?lookup_insert_ne by done; exact Hgoal.
  - intros pcs Hnin Hpcs.
    assert (currencies st1 !! pl_prestige_currency layer = Some pcs) as ->
      by (rewrite Hc1; unfold st0; by rewrite reset_currencies_other).
    simpl. by rewrite lookup_insert_eq.
  - intros pcs cdef Hin Hpcs Hdef.
    assert (currencies st1 !! pl_prestige_currency layer
            = Some (mkCurrencyState (cd_initial_value cdef) (cd_initial_value cdef) 0)) as ->
      by (rewrite Hc1; by apply (reset_currencies_initial d _ _ _ pcs cdef)).
    simpl. by rewrite lookup_insert_eq.
  - intros Hspec Hnd cid cdef Hdef Hpers Hin.
    rewrite Hres in Hin. simpl in Hin. rewrite Hspec in Hin.
    change (_resolve_reset_list d (ResetStr "all_non_persistent") "currency")
      with (cd_id <$> filter (λ c, cd_persistent c = false) (gd_currencies d)) in Hin.
    apply list_elem_of_fmap in Hin as (c & Hid & [Hp Hc]%list_elem_of_filter).
    apply by_id_elem_of in Hdef as [Hcdef Hcid].
    assert (c = cdef) by (apply (NoDup_fmap_elem_inj cd_id (gd_currencies d)); congruence).
    congruence.
Qed.

(** ** No KeyError: the runtime on a validated definition *)

Lemma for_each_total {A S} (I : S → Prop) (body : S → A → option S) (items : list A) :
  ∀ s, I s → (∀ s x, x ∈ items → I s → ∃ s', body s x = Some s' ∧ I s') →
  ∃ s', for_each body items s = Some s' ∧ I s'.
Proof.
  induction items as [|x items IH]; intros s Hs Hbody; simpl.
  - by exists s.
  - destruct (Hbody s x) as (s1 & -> & H1); [left | done |]. simpl.
    apply IH; [done|]. intros s2 y Hy. apply Hbody. by right.
Qed.

(** Rewrites the loop in the goal with its result, leaving the step to
    prove; [I] is the loop invariant. *)
Ltac loop_total I st' Hst' :=
  match goal with
  | |- context [for_each ?body ?items ?s] =>
      let H := fresh in
      assert (H : ∃ s', for_each body items s = Some s' ∧ I s');
      [apply (for_each_total I) | destruct H as (st' & -> & Hst')]
  end.

Lemma state_covers_same_domains d st st' :
  same_domains st st' → state_covers d st → state_covers d st'.
Proof.
  intros [Hc He] [H1 H2]. split.
  - intros cdef Hin. apply elem_of_dom. rewrite Hc. apply elem_of_dom. by apply H1.
  - intros edef Hin. apply elem_of_dom. rewrite He. apply elem_of_dom. by apply H2.
Qed.

Lemma state_covers_put_currency d st id cs :
  state_covers d st → state_covers d (put_currency st id cs).
Proof.
  intros [H1 H2]. split; [|done]. intros cdef Hin. simpl.
  apply lookup_insert_is_Some'. right. by apply H1.
Qed.

Lemma state_covers_put_element d st id es :
  state_covers d st → state_covers d (put_element st id es).
Proof.
  intros [H1 H2]. split; [done|]. intros edef Hin. simpl.
  apply lookup_insert_is_Some'. right. by apply H2.
Qed.

Lemma foldl_insert_is_Some {A V} (key : A → string) (val : A → V) (l : list A) :
  ∀ (m : gmap string V) k, is_Some (m !! k) ∨ k ∈ key <$> l →
    is_Some (foldl (λ m x, <[key x := val x]> m) m l !! k).
Proof.
  induction l as [|a l IH]; intros m k [H|H]; simpl.
  - done.
  - by apply elem_of_nil in H.
  - apply IH. left. apply lookup_insert_is_Some'. by right.
  - rewrite fmap_cons in H. apply elem_of_cons in H as [->|H].
    + apply IH. left. apply lookup_insert_is_Some'. by left.
    + apply IH. by right.
Qed.

Lemma GameState_init_covers d : state_covers d (GameState_init d).
Proof.
  split.
  - intros cdef Hin. simpl.
    apply (foldl_insert_is_Some cd_id
             (λ cdef, mkCurrencyState (cd_initial_value cdef) (cd_initial_value cdef) 0)).
    right. by apply list_elem_of_fmap_2.
  - intros edef Hin. simpl.
    apply (foldl_insert_is_Some ed_id (λ _, mkElementState 0 false false false)).
    right. by apply list_elem_of_fmap_2.
Qed.

Lemma owned_effects_total d st :
  state_covers d st → is_Some (owned_effects d st).
Proof.
  intros [_ He]. unfold owned_effects.
  loop_total (λ _ : list EffectDef, True) effs Heffs; [done| |by eexists].
  intros acc edef Hin _. destruct (He edef Hin) as [es ->]. simpl. by eexists.
Qed.

Lemma _apply_cost_effects_total d st element_id cost :
  state_covers d st →
  ∃ cost', _apply_cost_effects d st element_id cost = Some cost' ∧ dom cost' = dom cost.
Proof.
  intros Hc. unfold _apply_cost_effects.
  destruct (owned_effects_total d st Hc) as [effs ->]. simpl.
  eexists. split; [done|]. destruct (float_ne _ _); [apply dom_fmap_L | done].
Qed.

Lemma _resolve_cap_total d st currency_id :
  state_covers d st → is_Some (_resolve_cap d st currency_id).
Proof.
  intros Hc. unfold _resolve_cap.
  destruct (get_currency d currency_id); [|by eexists].
  destruct (resolve_optional _ _); [|by eexists].
  destruct (owned_effects_total d st Hc) as [effs ->]. simpl.
  destruct (foldl _ _ effs). by eexists.
Qed.

Lemma gather_step_keys st effs : ∀ acc k,
  is_Some (acc.2 !! k) → is_Some ((foldl (gather_step st) acc effs).2 !! k).
Proof.
  induction effs as [|eff effs IH]; intros acc k H; simpl; [done|].
  apply IH. destruct acc as [g pc]. unfold gather_step. simpl in *.
  destruct (_ || _); [done|]. destruct (negb _); [done|].
  destruct (EffectType.eqb _ _); [done|].
  destruct (pc !! eff_target eff); [|done]. simpl.
  apply lookup_insert_is_Some'. by right.
Qed.

Lemma _recompute_rates_total rt :
  state_covers (definition rt) (state rt) →
  ∃ rt', _recompute_rates rt = Some rt'
         ∧ state_covers (definition rt) (state rt') ∧ same_static rt rt'.
Proof.
  intros Hc. unfold _recompute_rates.
  destruct (owned_effects_total _ _ Hc) as [effs ->]. simpl.
  destruct (foldl (gather_step _) _ effs) as [ge pc] eqn:Hg.
  assert (Hpc : ∀ cdef, cdef ∈ gd_currencies (definition rt) → is_Some (pc !! cd_id cdef)).
  { intros cdef Hin. change pc with (ge, pc).2. rewrite <- Hg. apply gather_step_keys. simpl.
    apply (foldl_insert_is_Some cd_id (λ _, [])). right. by apply list_elem_of_fmap_2. }
  loop_total (state_covers (definition rt)) st' Hst'; [done| |].
  - intros s cdef Hin Hs. destruct (Hpc cdef Hin) as [l ->]. simpl.
    destruct Hs as [H1 H2]. destruct (H1 cdef Hin) as [cs ->]. simpl.
    eexists. split; [done|]. by apply state_covers_put_currency.
  - simpl. eexists. by split.
Qed.

Lemma apply_production_total d st delta :
  state_covers d st →
  ∃ st', apply_production d st delta = Some st' ∧ state_covers d st'.
Proof.
  intros Hc. unfold apply_production. apply (for_each_total (state_covers d)); [done|].
  intros s cdef Hin Hs. destruct (proj1 Hs cdef Hin) as [cs ->]. simpl.
  destruct (float_ne _ _); [|by eexists].
  match goal with
  | |- context [_resolve_cap d ?s' ?i] =>
      destruct (_resolve_cap_total d s' i) as [cap ->];
      [by apply state_covers_put_currency|]
  end.
  simpl. eexists. split; [done|]. by do 2 apply state_covers_put_currency.
Qed.

Lemma _process_auto_clicks_total d st delta :
  state_covers d st →
  ∃ st', _process_auto_clicks d st delta = Some st' ∧ state_covers d st'.
Proof.
  intros Hc. unfold _process_auto_clicks. apply (for_each_total (state_covers d)); [done|].
  intros s edef Hin Hs. destruct (proj2 Hs edef Hin) as [es ->]. simpl.
  destruct (es_count es <=? 0); eexists; (split; [done|]); [done|].
  set (Rc := λ s s' : GameState, state_covers d s → state_covers d s').
  assert (PreOrder Rc) by (split; [by intros ? ? | intros ??? H1 H2 ?; by apply H2, H1]).
  revert Hs. apply (foldl_preserves Rc). intros s1 eff _ Hs1.
  destruct (negb (EffectType.eqb _ _)); [done|].
  destruct (negb (is_active _ _)); [done|].
  destruct (get_click_target _ _); [|done].
  destruct (currencies s1 !! _); [|done].
  by apply state_covers_put_currency.
Qed.

Lemma _update_element_statuses_total d st :
  state_covers d st →
  ∃ st', _update_element_statuses d st = Some st' ∧ state_covers d st'.
Proof.
  intros Hc. unfold _update_element_statuses.
  apply (for_each_total (state_covers d)); [done|].
  intros s edef Hin Hs. destruct (proj2 Hs edef Hin) as [es ->]. simpl.
  match goal with
  | |- context [_apply_cost_effects d ?s' ?i ?c] =>
      destruct (_apply_cost_effects_total d s' i c) as (cost & -> & _);
      [by apply state_covers_put_element|]
  end.
  simpl. destruct (_ && _); eexists; (split; [done|]);
    by do 2 apply state_covers_put_element.
Qed.

Lemma state_covers_known_currency d st cur_id :
  state_covers d st → cur_id ∈ cd_id <$> gd_currencies d → is_Some (currencies st !! cur_id).
Proof. intros [H _] (cdef & -> & Hin)%list_elem_of_fmap. by apply H. Qed.

Lemma deduct_costs_total st cost :
  (∀ k, k ∈ dom cost → is_Some (currencies st !! k)) →
  ∃ st', deduct_costs st cost = Some st' ∧ same_domains st st'.
Proof.
  intros Hk.
  assert (∃ st', deduct_costs st cost = Some st'
                 ∧ ∀ k, k ∈ dom cost → is_Some (currencies st' !! k)) as (st' & Hrun & _).
  { unfold deduct_costs.
    apply (for_each_total (λ s : GameState, ∀ k, k ∈ dom cost → is_Some (currencies s !! k)));
      [done|].
    intros s [cur_id amount] Hin Hs.
    apply elem_of_map_to_list in Hin.
    destruct (Hs cur_id) as [cs ->]; [apply elem_of_dom; by eexists|]. simpl.
    eexists. split; [done|]. intros k Hin'. simpl.
    apply lookup_insert_is_Some'. right. by apply Hs. }
  exists st'. split; [done|].
  by apply (writes_deduct_costs same_domains same_domains_writes _ cost).
Qed.

Section Total.
Context (rt : GameRuntime).
Context (Hvalid : (validate (definition rt)).1 = []).
Context (Hscaling : scaling_keeps_keys (definition rt)).
Context (Hcovers : state_covers (definition rt) (state rt)).
Context (Hhooks : hooks_respect same_domains rt).

Lemma tick_total delta :
  ∃ rt', tick rt delta = Some rt'
         ∧ state_covers (definition rt) (state rt') ∧ same_static rt rt'.
Proof.
  destruct Hhooks as (_ & Hmilestone & Hsub). unfold tick.
  assert (∃ rt1, (if _dirty rt
                  then rt' ← _recompute_rates rt; Some (with_dirty rt' false)
                  else Some rt) = Some rt1
                 ∧ state_covers (definition rt) (state rt1) ∧ same_static rt rt1)
    as (rt1 & -> & Hc1 & (Hd & Hp & Hs)).
  { destruct (_dirty rt); [|by exists rt].
    destruct (_recompute_rates_total rt Hcovers) as (rt1 & -> & Hc1 & Hs1). simpl.
    eexists. by split. }
  simpl. rewrite Hd.
  destruct (apply_production_total (definition rt) (state rt1) delta Hc1) as (st1 & -> & Hc2).
  simpl.
  destruct (_process_auto_clicks_total (definition rt) st1 delta Hc2) as (st2 & -> & Hc3).
  simpl.
  destruct (_update_element_statuses_total (definition rt)
              (set_time_elapsed st2 (time_elapsed st2 + delta))) as (st3 & -> & Hc4);
    [by split; apply Hc3|].
  simpl. eexists. split; [done|]. split; [|done]. simpl.
  pose proof (wi_preorder _ same_domains_writes) as Hpre.
  eapply state_covers_same_domains; [|exact Hc4].
  transitivity (_check_milestones (definition rt) st3).
  - by apply (writes_check_milestones same_domains same_domains_writes).
  - apply (foldl_preserves same_domains). intros s sub Hin. apply Hsub. by rewrite <- Hs.
Qed.

Lemma try_purchase_total element_id :
  ∃ b rt', try_purchase rt element_id = Some (b, rt')
           ∧ state_covers (definition rt) (state rt') ∧ same_static rt rt'.
Proof.
  destruct Hhooks as (Hpurchase & _ & _). unfold try_purchase.
  destruct (get_element _ _) as [edef|] eqn:Hdef; [|by exists false, rt].
  apply get_element_elem_of in Hdef as [Hin <-].
  destruct (proj2 Hcovers edef Hin) as [es Hes]. rewrite Hes. simpl.
  destruct (match ed_max_count edef with Some _ => _ | None => _ end);
    [by exists false, rt|].
  destruct (negb (es_available es) && _); [by exists false, rt|].
  destruct (negb (forallb _ (ed_purchase_requirements edef))); [by exists false, rt|].
  match goal with
  | |- context [_apply_cost_effects ?d ?s ?i ?c] =>
      destruct (_apply_cost_effects_total d s i c Hcovers) as (cost & -> & Hdom)
  end.
  simpl. destruct (negb (forallb _ (map_to_list cost))); [by exists false, rt|].
  destruct (deduct_costs_total (state rt) cost) as (st1 & -> & Hd1).
  { intros k Hk. rewrite Hdom in Hk. apply Hscaling in Hk; [|done].
    apply (state_covers_known_currency (definition rt)); [done|].
    apply (proj1 (validate_nil_references _ Hvalid) edef); [done|]. by apply elem_of_dom. }
  simpl.
  set (paid := put_element st1 (ed_id edef) (with_count es (es_count es + 1))).
  set (st2 := match ed_on_purchase edef with
              | Some on_purchase => on_purchase (apply_immediate_effects paid (ed_effects edef))
              | None => apply_immediate_effects paid (ed_effects edef)
              end).
  pose proof (wi_preorder _ same_domains_writes) as Hpre.
  assert (Hd2 : same_domains (state rt) st2).
  { transitivity st1; [done|]. transitivity paid.
    - destruct Hd1 as [_ He]. apply elem_of_dom_2 in Hes. rewrite <- He in Hes.
      apply elem_of_dom in Hes. split; [done|]. simpl. by apply dom_insert_lookup_L.
    - transitivity (apply_immediate_effects paid (ed_effects edef));
        [apply (writes_apply_immediate_effects _ same_domains_writes)|].
      unfold st2. destruct (ed_on_purchase edef) as [f|] eqn:Hf; [|done].
      by eapply Hpurchase. }
  destruct (_update_element_statuses_total (definition rt) st2) as (st3 & -> & Hc3);
    [by eapply state_covers_same_domains|].
  simpl. by exists true, (mkGameRuntime (definition rt) st3 (pipeline rt) true (_subsystems rt)).
Qed.

Lemma process_click_total target_currency :
  ∃ v rt', process_click rt target_currency = Some (v, rt')
           ∧ state_covers (definition rt) (state rt') ∧ same_static rt rt'.
Proof.
  unfold process_click.
  destruct (get_click_target _ _) as [ct|] eqn:Hct; [|by exists 0%float, rt].
  apply by_id_elem_of in Hct as [Hin <-].
  destruct (owned_effects_total _ _ Hcovers) as [effs ->]. simpl.
  destruct (state_covers_known_currency _ _ (ct_currency ct) Hcovers) as [cs ->];
    [by apply (proj2 (validate_nil_references _ Hvalid))|].
  simpl.
  match goal with
  | |- context [_resolve_cap ?d ?s ?i] =>
      destruct (_resolve_cap_total d s i) as [cap ->];
      [by apply state_covers_put_currency|]
  end.
  simpl. eexists _, _. split; [done|]. split; [|done]. simpl.
  by do 2 apply state_covers_put_currency.
Qed.

Lemma trigger_prestige_total layer_id :
  ∃ res rt', trigger_prestige rt layer_id = Some (res, rt')
             ∧ state_covers (definition rt) (state rt') ∧ same_static rt rt'.
Proof.
  unfold trigger_prestige.
  destruct (get_prestige_layer _ _) as [layer|]; [|by eexists _, rt].
  destruct (negb (forallb _ _)); [by eexists _, rt|].
  destruct (pl_reward_formula layer) as [formula|]; [|by eexists _, rt].
  destruct (float_lt _ _); [by eexists _, rt|].
  match goal with
  | |- context [_update_element_statuses ?d ?s] =>
      destruct (_update_element_statuses_total d s) as (st' & -> & Hc')
  end.
  - pose proof (wi_preorder _ same_domains_writes) as Hpre.
    eapply state_covers_same_domains; [|exact Hcovers].
    etransitivity; [|apply (wi_run_number _ same_domains_writes)].
    etransitivity; [|apply (wi_prestige_counts _ same_domains_writes)].
    etransitivity; [apply (writes_reset_currencies _ same_domains_writes)|].
    etransitivity; [apply (writes_reset_elements _ same_domains_writes)|].
    destruct (currencies _ !! _) eqn:Hc; [|done].
    by eapply (wi_currency _ same_domains_writes).
  - simpl. eexists _, _. by split.
Qed.

Lemma apply_op_total op :
  ∃ rt', apply_op rt op = Some rt'
         ∧ state_covers (definition rt) (state rt') ∧ same_static rt rt'.
Proof.
  destruct op as [delta|element_id|target|layer_id]; simpl.
  - apply tick_total.
  - destruct (try_purchase_total element_id) as (b & rt' & -> & H). by exists rt'.
  - destruct (process_click_total target) as (v & rt' & -> & H). by exists rt'.
  - destruct (trigger_prestige_total layer_id) as (res & rt' & -> & H). by exists rt'.
Qed.

Lemma get_available_purchases_total : is_Some (get_available_purchases rt).
Proof.
  unfold get_available_purchases.
  loop_total (λ _ : list ElementStatus, True) l Hl; [done| |by eexists].
  intros acc edef Hin _. destruct (proj2 Hcovers edef Hin) as [es ->]. simpl.
  destruct (negb _); [by eexists|].
  destruct (match ed_max_count edef with Some _ => _ | None => _ end); [by eexists|].
  match goal with
  | |- context [_apply_cost_effects ?d ?s ?i ?c] =>
      destruct (_apply_cost_effects_total d s i c Hcovers) as (cost & -> & _)
  end.
  simpl. by eexists.
Qed.

Lemma compute_current_cost_total element_id : is_Some (compute_current_cost rt element_id).
Proof.
  unfold compute_current_cost.
  destruct (get_element _ _) as [edef|] eqn:Hdef; [|by eexists].
  apply get_element_elem_of in Hdef as [Hin <-].
  destruct (proj2 Hcovers edef Hin) as [es ->]. simpl.
  match goal with
  | |- context [_apply_cost_effects ?d ?s ?i ?c] =>
      destruct (_apply_cost_effects_total d s i c Hcovers) as (cost & -> & _)
  end.
  by eexists.
Qed.

End Total.

Lemma apply_ops_total (ops : list RuntimeOp) : ∀ rt,
  (validate (definition rt)).1 = [] →
  scaling_keeps_keys (definition rt) →
  state_covers (definition rt) (state rt) →
  hooks_respect same_domains rt →
  ∃ rt', apply_ops rt ops = Some rt'
         ∧ state_covers (definition rt) (state rt') ∧ same_static rt rt'.
Proof.
  induction ops as [|op ops IH]; intros rt Hvalid Hscaling Hcovers Hhooks.
  - by exists rt.
  - destruct (apply_op_total rt Hvalid Hscaling Hcovers Hhooks op)
      as (rt1 & Hop & Hc1 & Hs1).
    pose proof Hs1 as (Hd1 & Hp1 & Hsub1).
    destruct (IH rt1) as (rt' & Hrun & Hc' & (Hd' & Hp' & Hsub')).
    + by rewrite Hd1.
    + by rewrite Hd1.
    + by rewrite Hd1.
    + by apply (writes_hooks_static same_domains rt rt1).
    + exists rt'. unfold apply_ops in *. simpl. rewrite Hop. simpl.
      split; [done|]. rewrite Hd1 in Hc'. split; [done|].
      repeat split; congruence.
Qed.

Lemma GameRuntime_init_covers d rt :
  GameRuntime_init d = Some rt → definition rt = d ∧ state_covers d (state rt).
Proof.
  unfold GameRuntime_init. generalize (validate d).1 as errs. intros [|e errs] H; [|done].
  destruct (_update_element_statuses_total d (GameState_init d) (GameState_init_covers d))
    as (st & Hupd & Hc).
  rewrite Hupd in H. simpl in H. by injection H as <-.
Qed.


(** ** GameRuntime(definition) *)

Lemma foldl_insert_fmap {A V} (key : A → string) (val : A → V) (l : list A) :
  ∀ m : gmap string A,
    foldl (λ m x, <[key x := val x]> m) (val <$> m) l
    = val <$> foldl (λ m x, <[key x := x]> m) m l.
Proof.
  induction l as [|a l IH]; intros m; simpl; [done|].
  by rewrite <- IH, fmap_insert.
Qed.

Lemma GameState_init_currencies d cid :
  currencies (GameState_init d) !! cid
  = (λ cdef, mkCurrencyState (cd_initial_value cdef) (cd_initial_value cdef) 0)
      <$> get_currency d cid.
Proof.
  unfold get_currency, by_id. simpl. rewrite <- lookup_fmap.
  by rewrite <- (foldl_insert_fmap cd_id), fmap_empty.
Qed.

Lemma GameState_init_elements d eid :
  elements (GameState_init d) !! eid
  = (λ _, mkElementState 0 false false false) <$> get_element d eid.
Proof.
  unfold get_element, by_id. simpl. rewrite <- lookup_fmap.
  by rewrite <- (foldl_insert_fmap ed_id), fmap_empty.
Qed.


(** ** process_click *)

Lemma clamp_to_cap_spec (cap : option float) (cs : CurrencyState) :
  cs_total_earned (clamp_to_cap cap cs) = cs_total_earned cs
  ∧ cs_current_rate (clamp_to_cap cap cs) = cs_current_rate cs
  ∧ match cap with
    | Some c =>
        cs_current (clamp_to_cap cap cs)
        = (if float_gt (cs_current cs) c then c else cs_current cs)
        ∧ float_gt (cs_current (clamp_to_cap cap cs)) c = false
    | None => cs_current (clamp_to_cap cap cs) = cs_current cs
    end.
Proof.
  destruct cap as [c|]; simpl; [|done].
  destruct (float_gt (cs_current cs) c) eqn:Hgt; simpl; repeat split; try done.
  apply float_ltb_irrefl.
Qed.

(** X11.  A click on an unknown target returns 0 and changes nothing.  A
    click on a known target changes the entry of the clicked currency and
    nothing else in the runtime (the stale-rates flag included): the value
    returned is added to [total_earned] in full, the rate is kept, and the
    balance is the old balance plus the value, replaced by the cap when it
    exceeds the cap resolved on the state holding the raised balance; so
    the balance left is never above that cap. *)
Theorem process_click_effect (rt : GameRuntime) (target : string) (v : float)
    (rt' : GameRuntime) :
  process_click rt target = Some (v, rt') →
  (get_click_target (definition rt) target = None → v = 0%float ∧ rt' = rt)
  ∧ same_static rt rt' ∧ _dirty rt' = _dirty rt
  ∧ currencies_only (state rt) (state rt')
  ∧ (∀ other, other ≠ target →
       currencies (state rt') !! other = currencies (state rt) !! other)
  ∧ (∀ ct, get_click_target (definition rt) target = Some ct →
       ∃ effs cs cs' cap,
         owned_effects (definition rt) (state rt) = Some effs
         ∧ v = compute_click_value (pipeline rt) target (ct_base_value ct)
                 (click_effects (state rt) target effs) (state rt)
         ∧ currencies (state rt) !! target = Some cs
         ∧ _resolve_cap (definition rt)
             (put_currency (state rt) target
                (mkCurrencyState (cs_current cs + v) (cs_total_earned cs + v)
                   (cs_current_rate cs)))
             target = Some cap
         ∧ currencies (state rt') !! target = Some cs'
         ∧ cs_total_earned cs' = (cs_total_earned cs + v)%float
         ∧ cs_current_rate cs' = cs_current_rate cs
         ∧ match cap with
           | Some c =>
               cs_current cs'
               = (if float_gt (cs_current cs + v) c then c else (cs_current cs + v)%float)
               ∧ float_gt (cs_current cs') c = false
           | None => cs_current cs' = (cs_current cs + v)%float
           end).
Proof.
  unfold process_click. intros H.
  destruct (get_click_target _ _) as [ct|] eqn:Hct.
  2: { injection H as <- <-. repeat split; done. }
  destruct (owned_effects _ _) as [effs|] eqn:Heffs; simpl in H; [|done].
  destruct (currencies _ !! _) as [cs|] eqn:Hcs; simpl in H; [|done].
  destruct (_resolve_cap _ _ _) as [cap|] eqn:Hcap; simpl in H; [|done].
  injection H as <- <-.
  split; [done|]. split; [done|]. split; [done|]. split; [by repeat split|]. split.
  - intros other Hne. simpl. by rewrite !lookup_insert_ne.
  - intros ct' [= <-]. eexists effs, cs, _, cap.
    split; [done|]. split; [done|]. split; [done|]. split; [exact Hcap|].
    split; [simpl; by rewrite lookup_insert_eq|].
    match goal with
    | |- context [clamp_to_cap cap ?x] =>
        destruct (clamp_to_cap_spec cap x) as (Ht & Hr & Hc)
    end.
    split; [exact Ht|]. split; [exact Hr|]. exact Hc.
Qed.

(** ** simulation.py: what a tick-mode run reports *)

#[local] Instance purchases_counted_preorder : PreOrder purchases_counted.
Proof.
  split.
  - intros a. exists []. rewrite app_nil_r. simpl. split; [done | lia].
  - intros a b c (m1 & H1 & Hn1) (m2 & H2 & Hn2). exists (m1 ++ m2).
    rewrite H2, H1, Hn2, Hn1, <- app_assoc, length_app. split; [done | lia].
Qed.

Lemma buy_in_order_counted to_buy acc acc' :
  buy_in_order to_buy acc = Some acc' →
  purchases_counted (acc.1.2, acc.2) (acc'.1.2, acc'.2).
Proof.
  unfold buy_in_order.
  set (Rm := λ a a' : GameRuntime * MetricsCollector * SimulationContext,
              purchases_counted (a.1.2, a.2) (a'.1.2, a'.2)).
  assert (PreOrder Rm).
  { split; [intros ?; unfold Rm; reflexivity|].
    intros ??? H1 H2. unfold Rm in *. by etransitivity. }
  apply (for_each_preserves Rm). unfold Rm.
  intros [[rt c] ctx] eid [[rt' c'] ctx'] _ Hb. simpl.
  destruct (compute_current_cost rt eid) as [cost|]; simpl in Hb; [|done].
  destruct (try_purchase rt eid) as [[[] r]|]; simpl in Hb; [| |done].
  - destruct (get_affordable_purchases r); simpl in Hb; [|done]. injection Hb as <- <- <-.
    eexists [_]. simpl. split; [done | lia].
  - injection Hb as <- <- <-. reflexivity.
Qed.

Lemma evaluate_prestige_purchases {S} (strategy : Strategy S) s acc acc' :
  evaluate_prestige strategy s acc = Some acc' → purchases acc'.2 = purchases acc.2.
Proof.
  unfold evaluate_prestige.
  set (Rm := λ a a' : GameRuntime * MetricsCollector, purchases a'.2 = purchases a.2).
  assert (PreOrder Rm) by (split; [by intros ? | intros ??? H1 H2; unfold Rm in *; congruence]).
  apply (for_each_preserves Rm). unfold Rm.
  intros [rt c] layer [rt' c'] _ Hb. simpl.
  destruct (should_prestige _ _ _ _); [|by injection Hb as <- <-].
  destruct (trigger_prestige rt (pl_id layer)) as [[res r]|]; simpl in Hb; [|done].
  destruct (success res); by injection Hb as <- <-.
Qed.

Lemma record_new_milestones_purchases st acc :
  purchases (record_new_milestones st acc).2 = purchases acc.2.
Proof.
  unfold record_new_milestones.
  set (Rm := λ a a' : gset string * MetricsCollector, purchases a'.2 = purchases a.2).
  assert (PreOrder Rm) by (split; [by intros ? | intros ??? H1 H2; unfold Rm in *; congruence]).
  apply (foldl_preserves Rm). unfold Rm. intros [seen c] [mid t] _.
  by case_bool_decide.
Qed.

Lemma tick_iteration_counted {S} (strategy : Strategy S) res sim sim' aborted :
  tick_iteration strategy res sim = Some (sim', aborted) →
  purchases_counted (sim_collector sim, sim_context sim)
    (sim_collector sim', sim_context sim')
  ∧ aborted = nan_or_inf_detected (state (sim_runtime sim')).
Proof.
  unfold tick_iteration. intros H.
  destruct (tick _ _) as [rt1|]; simpl in H; [|done].
  destruct (replay_clicks _ _) as [rt2|]; simpl in H; [|done].
  destruct (get_affordable_purchases _) as [aff|]; simpl in H; [|done].
  destruct (decide_purchases _ _ _ _) as [[[to_buy s] rt3]|]; simpl in H; [|done].
  destruct (buy_in_order _ _) as [[[rt4 c4] ctx4]|] eqn:Hbuy; simpl in H; [|done].
  destruct (evaluate_prestige _ _ _) as [[rt5 c5]|] eqn:Hpre; simpl in H; [|done].
  apply buy_in_order_counted in Hbuy as (more & Hlog & Hn).
  apply evaluate_prestige_purchases in Hpre.
  pose proof (record_new_milestones_purchases (state rt5) (sim_milestones_seen sim, c5)) as Hrec.
  destruct (record_new_milestones _ _) as [seen' c6]. injection H as <- <-.
  simpl in *. split; [|done]. exists more. simpl. split; [congruence | done].
Qed.

Lemma tick_loop_counted {S} (strategy : Strategy S) terminal res budget :
  ∀ sim sim' outcome,
  tick_loop strategy terminal res budget sim = Some (sim', outcome) →
  purchases_counted (sim_collector sim, sim_context sim)
    (sim_collector sim', sim_context sim')
  ∧ outcome_holds terminal outcome (state (sim_runtime sim')) (sim_context sim')
  ∧ (is_met terminal (state (sim_runtime sim)) (sim_context sim) = true → sim' = sim).
Proof.
  induction budget as [|budget IH]; intros sim sim' outcome H; simpl in H.
  - destruct (is_met _ _ _) eqn:Hmet; injection H as <- <-; by repeat split.
  - destruct (is_met _ _ _) eqn:Hmet; [injection H as <- <-; by repeat split|].
    destruct (tick_iteration _ _ _) as [[sim1 []]|] eqn:Hit; simpl in H; [| |done].
    + injection H as <- <-. apply tick_iteration_counted in Hit as [Hc Hab].
      split; [done|]. split; [by simpl|done].
    + apply tick_iteration_counted in Hit as [Hc _].
      destruct (IH _ _ _ H) as (Hc' & Ho & _).
      split; [by etransitivity|]. by split.
Qed.

(** X12.  What the report of a tick-mode run says ([_run_tick] is
    [run_from] with a budget of MAX_TICKS iterations).  The outcome is
    truthful about the state the run stopped in: "Terminal condition met"
    only when the condition holds there, "Max ticks reached" only when it
    does not, the abort only when a balance is NaN or infinite.  The total
    time is the clock of that state, and the logs are the collector's.  The
    purchase log grows by appending, in step with [total_purchases]: in a
    fresh simulation the counter is the length of the log.  A run started
    where the condition already holds simulates nothing. *)
Theorem tick_run_report_is_consistent {S} (strategy : Strategy S)
    (terminal : TerminalCondition) (tick_resolution : float) (budget : nat)
    (sim : SimState S) (report : SimulationReport) (sim' : SimState S) :
  run_from strategy terminal tick_resolution budget sim = Some (report, sim') →
  (∃ outcome, report_outcome report = outcome_string outcome
     ∧ outcome_holds terminal outcome (state (sim_runtime sim')) (sim_context sim'))
  ∧ (report_outcome report = "Terminal condition met" →
       is_met terminal (state (sim_runtime sim')) (sim_context sim') = true)
  ∧ (report_outcome report = "Max ticks reached" →
       is_met terminal (state (sim_runtime sim')) (sim_context sim') = false)
  ∧ report_total_time report = time_elapsed (state (sim_runtime sim'))
  ∧ report_purchases report = purchases (sim_collector sim')
  ∧ report_milestones report = milestones (sim_collector sim')
  ∧ report_prestiges report = prestiges (sim_collector sim')
  ∧ purchases_counted (sim_collector sim, sim_context sim)
      (sim_collector sim', sim_context sim')
  ∧ (purchases (sim_collector sim) = [] → total_purchases (sim_context sim) = 0 →
       total_purchases (sim_context sim') = Z.of_nat (length (report_purchases report)))
  ∧ (is_met terminal (state (sim_runtime sim)) (sim_context sim) = true →
       sim' = sim ∧ report_outcome report = "Terminal condition met").
Proof.
  unfold run_from. intros H.
  destruct (tick_loop _ _ _ _ _) as [[sim1 outcome]|] eqn:Hloop; simpl in H; [|done].
  injection H as <- <-.
  destruct (tick_loop_counted _ _ _ _ _ _ _ Hloop) as (Hc & Ho & Hstart). simpl.
  split; [by exists outcome|].
  split; [by destruct outcome|]. split; [by destruct outcome|].
  do 4 (split; [done|]). split; [done|]. split.
  - intros Hnil H0. destruct Hc as (more & Hlog & Hn). simpl in *.
    rewrite Hlog, Hnil, Hn, H0. simpl. lia.
  - intros Hmet. split; [by apply Hstart|].
    destruct budget; simpl in Hloop; rewrite Hmet in Hloop; by injection Hloop as <- <-.
Qed.

(** ** The queries and the extension points of the runtime *)

(** X13.  [compute_time_to_afford] on an element with a non-empty current
    cost: the answer is [None] exactly when some cost currency is short and
    its rate is not positive; otherwise it is a time that is not negative,
    and 0 when every cost currency is already covered. *)
Theorem compute_time_to_afford_spec (rt : GameRuntime) (element_id : string)
    (cost : gmap string float) :
  compute_current_cost rt element_id = Some cost →
  cost ≠ ∅ →
  ∃ r, compute_time_to_afford rt element_id = Some r
    ∧ (r = None ↔
         ∃ cur_id amount, cost !! cur_id = Some amount
           ∧ float_ge (currency_value (state rt) cur_id) amount = false
           ∧ float_le (currency_rate (state rt) cur_id) 0 = true)
    ∧ (∀ t, r = Some t → PrimFloat.leb 0 t = true)
    ∧ ((∀ cur_id amount, cost !! cur_id = Some amount →
          float_ge (currency_value (state rt) cur_id) amount = true) →
       r = Some 0%float).
Proof.
  intros Hcost Hne. unfold compute_time_to_afford. rewrite Hcost. simpl.
  rewrite bool_decide_eq_false_2 by done.
  eexists. split; [done|].
  destruct (time_to_afford_loop_spec (state rt) (map_to_list cost) 0 eq_refl)
    as (Hnone & Hpos & Hall).
  split; [|split].
  - rewrite Hnone. split.
    + intros (c & a & Hin%elem_of_map_to_list & H). by exists c, a.
    + intros (c & a & Hin%elem_of_map_to_list & H). by exists c, a.
  - exact Hpos.
  - intros H. apply Hall. intros c a Hin%elem_of_map_to_list. by apply H.
Qed.

(** X14.  A subsystem added with [add_subsystem] runs last in every tick:
    ticking the extended runtime is ticking the original one and then
    calling the new subsystem, with the same [delta], on the state the tick
    left (after production, auto-clicks, the status refresh, the milestone
    checks and the subsystems added before). *)
Theorem add_subsystem_runs_last (rt : GameRuntime) (sub : Subsystem) (delta : float) :
  tick (add_subsystem rt sub) delta
  = (λ rt', add_subsystem (with_state rt' (sub (state rt') delta)) sub) <$> tick rt delta.
Proof.
  unfold tick, add_subsystem. simpl.
  destruct (_dirty rt) eqn:Hdirty; simpl.
  - unfold _recompute_rates. simpl.
    destruct (owned_effects _ _) as [effs|]; simpl; [|done].
    destruct (foldl (gather_step _) _ effs) as [ge pc].
    destruct (for_each _ (gd_currencies (definition rt)) (state rt)) as [st'|]; simpl; [|done].
    destruct (apply_production _ _ _) as [st1|]; simpl; [|done].
    destruct (_process_auto_clicks _ _ _) as [st2|]; simpl; [|done].
    destruct (_update_element_statuses _ _) as [st3|]; simpl; [|done].
    by rewrite foldl_app.
  - destruct (apply_production _ _ _) as [st1|]; simpl; [|done].
    destruct (_process_auto_clicks _ _ _) as [st2|]; simpl; [|done].
    destruct (_update_element_statuses _ _) as [st3|]; simpl; [|done].
    unfold with_state. simpl. by rewrite foldl_app, Hdirty.
Qed.

(** X15.  [set_production_pipeline] registers the function and does not
    mark the rates stale: on a runtime whose rates are up to date a tick
    runs exactly as without the registration, so the custom function is
    first consulted by the tick after the next purchase or prestige. *)
Theorem set_production_pipeline_waits_for_dirty (rt : GameRuntime) (currency_id : string)
    (fn : PipelineFn) (delta : float) :
  _dirty rt = false →
  _dirty (set_production_pipeline rt currency_id fn) = false
  ∧ tick (set_production_pipeline rt currency_id fn) delta
    = (λ rt', set_production_pipeline rt' currency_id fn) <$> tick rt delta.
Proof.
  intros Hdirty. split; [done|].
  unfold tick, set_production_pipeline. simpl. rewrite Hdirty. simpl.
  destruct (apply_production _ _ _) as [st1|]; simpl; [|done].
  destruct (_process_auto_clicks _ _ _) as [st2|]; simpl; [|done].
  destruct (_update_element_statuses _ _) as [st3|]; simpl; [|done].
  unfold with_state. simpl. by rewrite Hdirty.
Qed.

(** *** get_available_purchases *)

Lemma foldl_insert_lookup_notin {A} (key : A → string) (l : list A) :
  ∀ (m : gmap string A) k, k ∉ key <$> l →
    foldl (λ m x, <[key x := x]> m) m l !! k = m !! k.
Proof.
  induction l as [|a l IH]; intros m k Hk; simpl; [done|].
  rewrite fmap_cons in Hk. apply not_elem_of_cons in Hk as [Hne Hk].
  rewrite IH by done. by rewrite lookup_insert_ne.
Qed.

Lemma by_id_NoDup {A} (key : A → string) (xs : list A) (x : A) :
  NoDup (key <$> xs) → x ∈ xs → by_id key xs (key x) = Some x.
Proof.
  unfold by_id. generalize (∅ : gmap string A) as m.
  induction xs as [|a xs IH]; intros m Hnd Hin; [by apply elem_of_nil in Hin|].
  rewrite fmap_cons in Hnd. apply NoDup_cons in Hnd as [Hna Hnd]. simpl.
  apply elem_of_cons in Hin as [->|Hin].
  - rewrite foldl_insert_lookup_notin by done. apply lookup_insert_eq.
  - by apply IH.
Qed.

Lemma available_loop (rt : GameRuntime) (els : list ElementDef) :
  (∀ e, e ∈ els → e ∈ gd_elements (definition rt)) →
  ∀ acc l,
  for_each (λ result edef,
      es ← elements (state rt) !! ed_id edef;
      if negb (es_available es || es_unlocked es) then Some result
      else if match ed_max_count edef with
              | Some max_count => max_count <=? es_count es
              | None => false
              end
      then Some result
      else
        let cost := compute (ed_cost_scaling edef) (ed_base_cost edef) (es_count es) in
        cost ← _apply_cost_effects (definition rt) (state rt) (ed_id edef) cost;
        Some (result ++ [mkElementStatus (ed_id edef) (ed_display_name edef) (es_count es)
                           true (es_affordable es) cost (ed_max_count edef)
                           (ed_category edef) (ed_tags edef)]))
    els acc = Some l →
  ∃ more, l = acc ++ more
    ∧ sublist (status_id <$> more) (ed_id <$> els)
    ∧ (∀ s, s ∈ more → ∃ edef es, status_describes rt s edef es ∧ purchasable edef es)
    ∧ (∀ edef es, edef ∈ els → elements (state rt) !! ed_id edef = Some es →
         purchasable edef es → ∃ s, s ∈ more ∧ status_describes rt s edef es).
Proof.
  induction els as [|edef els IH]; intros Hall acc l H; simpl in H.
  - injection H as <-. exists []. rewrite app_nil_r. split; [done|].
    split; [constructor|]. split.
    + intros s Hs. by apply elem_of_nil in Hs.
    + intros e es He. by apply elem_of_nil in He.
  - assert (Hall' : ∀ e, e ∈ els → e ∈ gd_elements (definition rt))
      by (intros e He; apply Hall; by right).
    assert (Hedef : edef ∈ gd_elements (definition rt)) by (apply Hall; left).
    destruct (elements (state rt) !! ed_id edef) as [es|] eqn:Hes; simpl in H; [|done].
    destruct (negb (es_available es || es_unlocked es)) eqn:Hav; simpl in H.
    { destruct (IH Hall' acc l H) as (more & -> & Hsub & Hsound & Hcomplete).
      exists more. split; [done|]. split; [by apply sublist_cons|]. split; [done|].
      intros e es' [->|He]%elem_of_cons Hl Hp; [|by apply Hcomplete].
      rewrite Hes in Hl. injection Hl as <-. destruct Hp as [[Ha|Hu] _].
      - by rewrite Ha in Hav.
      - rewrite Hu, orb_true_r in Hav. done. }
    apply negb_false_iff, orb_true_iff in Hav.
    destruct (match ed_max_count edef with
              | Some max_count => max_count <=? es_count es
              | None => false
              end) eqn:Hmax; simpl in H.
    { destruct (IH Hall' acc l H) as (more & -> & Hsub & Hsound & Hcomplete).
      exists more. split; [done|]. split; [by apply sublist_cons|]. split; [done|].
      intros e es' [->|He]%elem_of_cons Hl Hp; [|by apply Hcomplete].
      rewrite Hes in Hl. injection Hl as <-. destruct Hp as [_ Hlim].
      destruct (ed_max_count edef) as [m|]; [|done].
      specialize (Hlim m eq_refl). apply Z.leb_le in Hmax. lia. }
    destruct (_apply_cost_effects _ _ _ _) as [cost|] eqn:Hcost; simpl in H; [|done].
    set (s0 := mkElementStatus (ed_id edef) (ed_display_name edef) (es_count es)
                 true (es_affordable es) cost (ed_max_count edef)
                 (ed_category edef) (ed_tags edef)) in *.
    assert (Hdesc : status_describes rt s0 edef es) by (by repeat split).
    assert (Hpur : purchasable edef es).
    { split; [done|]. intros m Hm. rewrite Hm in Hmax. apply Z.leb_gt in Hmax. lia. }
    destruct (IH Hall' (acc ++ [s0]) l H) as (more & -> & Hsub & Hsound & Hcomplete).
    exists (s0 :: more). split; [by rewrite <- app_assoc|].
    split; [simpl; by apply sublist_skip|]. split.
    + intros s [->|Hs]%elem_of_cons; [by exists edef, es | by apply Hsound].
    + intros e es' [->|He]%elem_of_cons Hl Hp.
      * rewrite Hes in Hl. injection Hl as <-. exists s0. split; [left | done].
      * destruct (Hcomplete e es' He Hl Hp) as (s & Hs & Hd). exists s. split; [by right | done].
Qed.


(** ** strategy.py: GreedyROI *)

Lemma insert_by_score_perm (x : string * float) (l : list (string * float)) :
  insert_by_score x l ≡ₚ x :: l.
Proof.
  induction l as [|y l IH]; simpl; [done|].
  destruct (float_lt _ _); [done|]. rewrite IH. apply Permutation_swap.
Qed.

Lemma sort_by_score_perm (l : list (string * float)) : sort_by_score l ≡ₚ l.
Proof.
  unfold sort_by_score.
  assert (H : ∀ acc, foldl (λ sorted x, insert_by_score x sorted) acc l ≡ₚ acc ++ l).
  { induction l as [|a l IH]; intros acc; simpl; [by rewrite app_nil_r|].
    rewrite IH, insert_by_score_perm. simpl. apply Permutation_middle. }
  apply (H []).
Qed.

Lemma score_candidate_appends current_total_rate scored rt elem scored' rt' :
  score_candidate current_total_rate (scored, rt) elem = Some (scored', rt') →
  scored' = scored ∨ ∃ roi, scored' = scored ++ [(status_id elem, roi)].
Proof.
  unfold score_candidate. intros H.
  destruct (float_le _ _); [injection H as <- <-; right; by eexists|].
  destruct (try_purchase rt (status_id elem)) as [[[] r]|]; simpl in H; [| |done].
  - destruct (_recompute_rates _) as [r1|]; simpl in H; [|done].
    destruct (undo_purchase _ _ _) as [r2|]; simpl in H; [|done].
    injection H as <- <-. right. by eexists.
  - injection H as <- <-. by left.
Qed.

Lemma score_loop_sublist current_total_rate (affordable : list ElementStatus) :
  ∀ scored rt scored' rt',
  for_each (score_candidate current_total_rate) affordable (scored, rt) = Some (scored', rt') →
  ∃ more, scored' = scored ++ more ∧ sublist more.*1 (status_id <$> affordable).
Proof.
  induction affordable as [|elem affordable IH]; intros scored rt scored' rt' H;
    cbn [for_each] in H.
  - injection H as <- <-. exists []. by rewrite app_nil_r.
  - destruct (score_candidate _ _ _) as [[sc1 rt1]|] eqn:Hstep; simpl in H; [|done].
    destruct (IH _ _ _ _ H) as (more & -> & Hsub).
    apply score_candidate_appends in Hstep as [->|[roi ->]].
    + exists more. split; [done|]. by apply sublist_cons.
    + exists ((status_id elem, roi) :: more). split; [by rewrite <- app_assoc|].
      simpl. by apply sublist_skip.
Qed.

(** X17.  [GreedyROI.decide_purchases] proposes affordable elements only,
    and each at most as often as it was handed in: the ids returned are a
    reordering of a sublist of the ids of the [affordable] list.  Without a
    runtime, and on an empty list, the ids come back in the order given and
    the runtime is not touched. *)
Theorem greedy_roi_proposes_affordable_only (has_runtime : bool) (rt : GameRuntime)
    (affordable : list ElementStatus) (ids : list string) (rt' : GameRuntime) :
  GreedyROI.decide_purchases has_runtime rt affordable = Some (ids, rt') →
  (∃ chosen, sublist chosen (status_id <$> affordable) ∧ ids ≡ₚ chosen)
  ∧ (∀ id, id ∈ ids → id ∈ status_id <$> affordable)
  ∧ (has_runtime = false ∨ affordable = [] →
       ids = status_id <$> affordable ∧ rt' = rt).
Proof.
  intros H.
  assert (Hchosen : ∃ chosen, sublist chosen (status_id <$> affordable) ∧ ids ≡ₚ chosen).
  { unfold GreedyROI.decide_purchases in H.
    destruct affordable as [|a affordable]; [injection H as <- <-; by exists []|].
    destruct has_runtime; [|injection H as <- <-; by eexists].
    destruct (for_each _ _ _) as [[scored rt1]|] eqn:Hloop; simpl in H; [|done].
    injection H as <- <-.
    apply score_loop_sublist in Hloop as (more & -> & Hsub).
    exists more.*1. split; [done|]. simpl. by rewrite sort_by_score_perm. }
  split; [done|]. split.
  - intros id Hid. destruct Hchosen as (chosen & Hsub & Hperm).
    rewrite Hperm in Hid. by eapply elem_of_sublist.
  - unfold GreedyROI.decide_purchases in H. intros [->| ->].
    + destruct affordable; by injection H as <- <-.
    + by injection H as <- <-.
Qed.

(** ** The further properties at concrete games *)

Lemma operations_keep_the_key_sets_witness :
  let rt := Fixtures.runtime_of Fixtures.vault_game in
  hooks_respect same_domains rt
  ∧ ∃ rt', apply_ops rt [Tick 1; TryPurchase "key"; TriggerPrestige "ascend"; Tick 1]
           = Some rt'
           ∧ dom (currencies (state rt')) = dom (currencies (state rt))
           ∧ dom (elements (state rt')) = dom (elements (state rt)).
Proof.
  intros rt.
  assert (Hhooks : hooks_respect same_domains rt)
    by (apply has_no_hooks_respect; vm_compute; reflexivity).
  split; [exact Hhooks|].
  set (rt' := Fixtures.after rt [Tick 1; TryPurchase "key"; TriggerPrestige "ascend"; Tick 1]).
  assert (H : apply_ops rt [Tick 1; TryPurchase "key"; TriggerPrestige "ascend"; Tick 1]
              = Some rt') by (vm_compute; reflexivity).
  exists rt'. split; [exact H|].
  exact (operations_keep_the_key_sets rt _ rt' Hhooks H).
Defined.

Lemma clock_advances_in_tick_only_witness :
  let rt := Fixtures.runtime_of Fixtures.vault_game in
  hooks_respect time_kept rt
  ∧ (∃ rt', tick rt 2.5 = Some rt'
            ∧ time_elapsed (state rt') = (time_elapsed (state rt) + 2.5)%float)
  ∧ ∃ rt', try_purchase rt "key" = Some (true, rt')
           ∧ time_elapsed (state rt') = time_elapsed (state rt).
Proof.
  intros rt.
  assert (Hhooks : hooks_respect time_kept rt)
    by (apply has_no_hooks_respect; vm_compute; reflexivity).
  destruct (clock_advances_in_tick_only rt Hhooks) as (Htick & Hbuy & _).
  split; [exact Hhooks|]. split.
  - set (rt' := Fixtures.after rt [Tick 2.5]).
    assert (H : tick rt 2.5 = Some rt') by (vm_compute; reflexivity).
    exists rt'. split; [exact H|]. exact (Htick _ _ H).
  - set (rt' := Fixtures.after rt [TryPurchase "key"]).
    assert (H : try_purchase rt "key" = Some (true, rt')) by (vm_compute; reflexivity).
    exists rt'. split; [exact H|]. exact (Hbuy _ _ _ H).
Defined.

Lemma successful_prestige_counters_and_elements_witness :
  let rt := Fixtures.after (Fixtures.runtime_of (Fixtures.prestige_game 1 2))
              [TryPurchase "miner"] in
  ∃ res rt', trigger_prestige rt "ascend" = Some (res, rt')
    ∧ success res = true
    ∧ (element_count (state rt) "miner", element_count (state rt') "miner") = (1, 0)
    ∧ run_number (state rt') = run_number (state rt) + 1
    ∧ prestige_counts (state rt') !! "ascend"
      = Some (default 0 (prestige_counts (state rt) !! "ascend") + 1).
Proof.
  intros rt.
  set (r := trigger_prestige rt "ascend").
  set (res := default (mkPrestigeResult false 0 [] [] NoReason) (fst <$> r)).
  set (rt' := default rt (snd <$> r)).
  assert (H : trigger_prestige rt "ascend" = Some (res, rt')) by (vm_compute; reflexivity).
  assert (Hs : success res = true) by (vm_compute; reflexivity).
  exists res, rt'. split; [exact H|]. split; [exact Hs|].
  split; [vm_compute; reflexivity|].
  destruct (successful_prestige_counters_and_elements rt "ascend" res rt' H Hs)
    as (Hrun & Hcount & _).
  split; [exact Hrun | exact Hcount].
Defined.

Lemma successful_prestige_currencies_witness :
  let rt := Fixtures.runtime_of (Fixtures.prestige_game 1 2) in
  ∃ res rt' layer, trigger_prestige rt "ascend" = Some (res, rt')
    ∧ success res = true
    ∧ get_prestige_layer (definition rt) "ascend" = Some layer
    ∧ currencies (state rt') !! "gold" = Some (mkCurrencyState 1000 1000 0)
    ∧ currencies (state rt') !! "pts"
      = Some (mkCurrencyState (0 + reward_amount res) (0 + reward_amount res) 0).
Proof.
  intros rt.
  set (layer := mkPrestigeLayerDef "ascend" "pts" (Some (λ _, 2%float))
                  (ResetList ["gold"; "gems"]) (ResetList ["miner"])
                  [ResourceRequirement "gold" OpGe 500] 1).
  set (gold := Fixtures.currency "gold" 1000 false).
  assert (Hne : "gold" ≠ pl_prestige_currency layer) by discriminate.
  assert (Hin : "gold" ∈ ["gold"; "gems"]) by (apply elem_of_cons; left; reflexivity).
  assert (Hnin : pl_prestige_currency layer ∉ ["gold"; "gems"]).
  { intros [E|[E|E%elem_of_nil]%elem_of_cons]%elem_of_cons;
      [discriminate E | discriminate E | destruct E]. }
  set (r := trigger_prestige rt "ascend").
  set (res := default (mkPrestigeResult false 0 [] [] NoReason) (fst <$> r)).
  set (rt' := default rt (snd <$> r)).
  assert (Hlist : currencies_reset res = ["gold"; "gems"]) by (vm_compute; reflexivity).
  assert (Hgold : currencies (state rt) !! "gold" = Some (mkCurrencyState 1000 1000 0))
    by (vm_compute; reflexivity).
  assert (Hpts : currencies (state rt) !! "pts" = Some (mkCurrencyState 0 0 0))
    by (vm_compute; reflexivity).
  assert (Hdef : get_currency (definition rt) "gold" = Some gold) by (vm_compute; reflexivity).
  assert (Hlayer : get_prestige_layer (definition rt) "ascend" = Some layer)
    by (vm_compute; reflexivity).
  assert (Hs : success res = true) by (vm_compute; reflexivity).
  assert (H : trigger_prestige rt "ascend" = Some (res, rt')) by (vm_compute; reflexivity).
  exists res, rt', layer. split; [exact H|]. split; [exact Hs|]. split; [exact Hlayer|].
  destruct (successful_prestige_currencies rt "ascend" res rt' layer H Hs Hlayer)
    as (Hreset & _ & Hreward & _).
  split.
  - apply (Hreset "gold" (mkCurrencyState 1000 1000 0) gold Hne); [|exact Hgold|exact Hdef].
    rewrite Hlist. exact Hin.
  - apply (Hreward (mkCurrencyState 0 0 0)); [|exact Hpts].
    rewrite Hlist. exact Hnin.
Defined.


Lemma process_click_effect_witness :
  let rt := Fixtures.runtime_of (Fixtures.prestige_game 1 2) in
  ∃ v rt', process_click rt "gems" = Some (v, rt')
    ∧ _dirty rt' = _dirty rt
    ∧ currencies (state rt') !! "gold" = currencies (state rt) !! "gold"
    ∧ elements (state rt') = elements (state rt).
Proof.
  intros rt.
  assert (Hne : "gold" ≠ "gems") by discriminate.
  set (r := process_click rt "gems").
  set (v := default 0%float (fst <$> r)).
  set (rt' := default rt (snd <$> r)).
  assert (H : process_click rt "gems" = Some (v, rt')) by (vm_compute; reflexivity).
  destruct (process_click_effect rt "gems" v rt' H)
    as (_ & _ & Hdirty & (_ & Hel & _) & Hother & _).
  exists v, rt'. split; [exact H|]. split; [exact Hdirty|].
  split; [exact (Hother "gold" Hne) | exact Hel].
Defined.

Lemma tick_run_report_is_consistent_witness :
  ∃ sim report sim',
    Simulation_init Fixtures.vault_game () = Some sim
    ∧ run_from Fixtures.buy_everything (TimeTerminal 3) 1 10 sim = Some (report, sim')
    ∧ report_outcome report = "Terminal condition met"
    ∧ is_met (TimeTerminal 3) (state (sim_runtime sim')) (sim_context sim') = true
    ∧ total_purchases (sim_context sim') = Z.of_nat (length (report_purchases report)).
Proof.
  set (rt := Fixtures.runtime_of Fixtures.vault_game).
  set (sim := default (mkSimState rt MetricsCollector_init (mkSimulationContext 0 false 0) () ∅)
                (Simulation_init Fixtures.vault_game ())).
  set (r := run_from Fixtures.buy_everything (TimeTerminal 3) 1 10 sim).
  assert (Hinit : Simulation_init Fixtures.vault_game () = Some sim) by (vm_compute; reflexivity).
  assert (Hnil : purchases (sim_collector sim) = []) by (vm_compute; reflexivity).
  assert (H0 : total_purchases (sim_context sim) = 0) by (vm_compute; reflexivity).
  destruct r as [[report sim']|] eqn:Hr.
  - exists sim, report, sim'. split; [exact Hinit|]. split; [exact Hr|].
    assert (Hout : (λ p, report_outcome p.1) <$> r = Some "Terminal condition met")
      by (vm_compute; reflexivity).
    rewrite Hr in Hout. simpl in Hout. injection Hout as Hout.
    destruct (tick_run_report_is_consistent Fixtures.buy_everything (TimeTerminal 3)
                1%float 10%nat sim report sim' Hr)
      as (_ & Hmet & _ & _ & _ & _ & _ & _ & Hcount & _).
    split; [exact Hout|]. split; [exact (Hmet Hout) | exact (Hcount Hnil H0)].
  - exfalso. assert (Hsome : is_Some r) by (vm_compute; eauto).
    rewrite Hr in Hsome. by destruct Hsome.
Defined.

Lemma compute_time_to_afford_spec_witness :
  let rt := Fixtures.runtime_of Fixtures.vault_game in
  compute_current_cost rt "key" = Some {["gold" := 10%float]}
  ∧ ({["gold" := 10%float]} : gmap string float) ≠ ∅
  ∧ compute_time_to_afford rt "key" = Some (Some 0%float).
Proof.
  intros rt.
  assert (Hcost : compute_current_cost rt "key" = Some {["gold" := 10%float]})
    by (vm_compute; reflexivity).
  assert (Hne : ({["gold" := 10%float]} : gmap string float) ≠ ∅).
  { intros E. apply (f_equal (λ m : gmap string float, m !! "gold")) in E.
    rewrite lookup_singleton_eq, lookup_empty in E. discriminate E. }
  assert (Hgold : float_ge (currency_value (state rt) "gold") 10 = true)
    by (vm_compute; reflexivity).
  split; [exact Hcost|]. split; [exact Hne|].
  destruct (compute_time_to_afford_spec rt "key" _ Hcost Hne) as (r & Hr & _ & _ & Hall).
  rewrite Hr. f_equal. apply Hall.
  intros cur_id amount [<- <-]%lookup_singleton_Some. exact Hgold.
Defined.

Lemma set_production_pipeline_waits_for_dirty_witness :
  let rt := Fixtures.after (Fixtures.runtime_of Fixtures.chest_game) [Tick 1] in
  _dirty rt = false
  ∧ tick (set_production_pipeline rt "gold" (λ _ _ _, 1000%float)) 1
    = (λ rt', set_production_pipeline rt' "gold" (λ _ _ _, 1000%float)) <$> tick rt 1.
Proof.
  intros rt.
  assert (Hclean : _dirty rt = false) by (vm_compute; reflexivity).
  split; [exact Hclean|].
  exact (proj2 (set_production_pipeline_waits_for_dirty rt "gold" (λ _ _ _, 1000%float) 1
                  Hclean)).
Defined.


Lemma greedy_roi_proposes_affordable_only_witness :
  let rt := Fixtures.runtime_of Fixtures.chest_game in
  ∃ affordable ids rt',
    get_affordable_purchases rt = Some affordable
    ∧ GreedyROI.decide_purchases true rt affordable = Some (ids, rt')
    ∧ ids = ["chest"]
    ∧ ∀ id, id ∈ ids → id ∈ status_id <$> affordable.
Proof.
  intros rt.
  set (affordable := default [] (get_affordable_purchases rt)).
  set (r := GreedyROI.decide_purchases true rt affordable).
  set (ids := default [] (fst <$> r)).
  set (rt' := default rt (snd <$> r)).
  assert (Haff : get_affordable_purchases rt = Some affordable) by (vm_compute; reflexivity).
  assert (Hids : ids = ["chest"]) by (vm_compute; reflexivity).
  assert (H : GreedyROI.decide_purchases true rt affordable = Some (ids, rt'))
    by (vm_compute; reflexivity).
  exists affordable, ids, rt'. split; [exact Haff|]. split; [exact H|]. split; [exact Hids|].
  exact (proj1 (proj2 (greedy_roi_proposes_affordable_only true rt affordable ids rt' H))).
Defined.
